(** * Query_Optimizer: plan algebra, cost model, optimizer and executor

    A shallow embedding of the C++ sources (include/query_plan.h,
    include/cost_model.h, src/cost_model.cpp, src/plan_builder.cpp,
    src/optimizer.cpp, include/table.h, include/executor.h,
    src/executor.cpp, include/tokenizer.h, src/tokenizer.cpp,
    include/parser.h, src/parser.cpp) together with the properties
    checked against them.

    Conventions of the embedding:
    - [size_t] is a [Z] in [0, 2^64); products and sums computed in
      [size_t] are reduced modulo [2^64] where the source computes them.
    - [double] is idealised as a real number ([R]): the conversion of a
      [size_t] is [IZR], [static_cast<size_t>] of a non-negative double is
      the integer part.  Rounding of the binary64 format is not modelled.
    - [std::unordered_map] is a [gmap]; [std::vector] is a [list].
    - exceptions are values of the [result] type; [try]/[catch (...)] is
      a match on it. *)

From Stdlib Require Import ZArith Reals Lra Lia Psatz.
From Stdlib Require Import String Ascii List DecimalString DecimalPos.
From Stdlib Require Import Sorted Permutation.
From stdpp Require Import gmap strings.

Import ListNotations.
#[local] Set Warnings "-register-all".
Local Open Scope string_scope.
Local Open Scope Z_scope.

(** ** Machine integers *)

Definition SIZE_MAX1 : Z := 2 ^ 64.

(** Result of a [size_t] operation: reduced modulo [2^64]. *)
Definition wrap (z : Z) : Z := z mod SIZE_MAX1.

Definition size_mul (a b : Z) : Z := wrap (a * b).
Definition size_add (a b : Z) : Z := wrap (a + b).

Definition INT_MIN : Z := - 2 ^ 31.
Definition INT_MAX : Z := 2 ^ 31 - 1.

(** ** Exceptions *)

Inductive exn : Type :=
| out_of_range (what : string)
| bad_any_cast
| invalid_argument (what : string)
| runtime_error (what : string).

Inductive result (A : Type) : Type :=
| Ok (a : A)
| Throw (e : exn).

Arguments Ok {A} a.
Arguments Throw {A} e.

Definition rbind {A B : Type} (m : result A) (k : A -> result B) : result B :=
  match m with
  | Ok a => k a
  | Throw e => Throw e
  end.

Notation "'try!' x <- m ; k" := (rbind m (fun x => k))
  (at level 10, x name, m at level 100, k at level 200).

(** [try { body } catch (...) { handler }] *)
Definition try_catch {A : Type} (body : result A) (handler : A) : A :=
  match body with
  | Ok a => a
  | Throw _ => handler
  end.

(** ** include/query_plan.h *)

Definition double : Type := R.

Record Statistics : Type := mkStatistics {
  row_count : Z;
  page_count : Z;
  selectivity : double
}.

(** [Statistics(size_t rows = 0, size_t pages = 0, double sel = 1.0)] *)
Definition Statistics_default : Statistics := mkStatistics 0 0 1%R.

Record CostEstimate : Type := mkCostEstimate {
  io_cost : double;
  cpu_cost : double;
  total_cost : double
}.

(** The constructor [CostEstimate(double io = 0.0, double cpu = 0.0)]:
    [total_cost] is initialised with [io + cpu]. *)
Definition CostEstimate_new (io cpu : double) : CostEstimate :=
  mkCostEstimate io cpu (io + cpu)%R.

Definition CostEstimate_default : CostEstimate := CostEstimate_new 0%R 0%R.

Inductive PlanNodeType : Type :=
| TABLE_SCAN | INDEX_SCAN | FILTER | PROJECT
| NESTED_LOOP_JOIN | HASH_JOIN | SORT_MERGE_JOIN | SORT | AGGREGATE.

Record Column : Type := mkColumn {
  col_table_name : string;
  col_column_name : string;
  data_type : string
}.

(** [Column(table, column, type = "int")] *)
Definition Column_new (table column : string) : Column :=
  mkColumn table column "int".

Record Schema : Type := mkSchema { columns : list Column }.

Definition Schema_add_column (s : Schema) (c : Column) : Schema :=
  mkSchema (columns s ++ [c]).

Inductive JoinType : Type := INNER | LEFT_OUTER | RIGHT_OUTER | FULL_OUTER.

(** The members every [PlanNode] carries besides its children. *)
Record NodeInfo : Type := mkNodeInfo {
  output_schema : Schema;
  stats : Statistics;
  cost : CostEstimate
}.

(** What the [PlanNode] constructor leaves: empty schema, default
    statistics, default cost. *)
Definition NodeInfo_default : NodeInfo :=
  mkNodeInfo (mkSchema []) Statistics_default CostEstimate_default.

(** The concrete subclasses of [PlanNode].  The three join classes share
    [JoinNode]'s members and differ in the type tag set by their
    constructor. *)
Inductive PlanNode : Type :=
| TableScanNode (table_name alias : string)
    (info : NodeInfo) (children : list PlanNode)
| FilterNode (condition : string)
    (info : NodeInfo) (children : list PlanNode)
| ProjectNode (projection_list : list string)
    (info : NodeInfo) (children : list PlanNode)
| NestedLoopJoinNode (join_type : JoinType) (join_condition : string)
    (info : NodeInfo) (children : list PlanNode)
| HashJoinNode (join_type : JoinType) (join_condition : string)
    (info : NodeInfo) (children : list PlanNode)
| SortMergeJoinNode (join_type : JoinType) (join_condition : string)
    (info : NodeInfo) (children : list PlanNode).

Definition node_type (n : PlanNode) : PlanNodeType :=
  match n with
  | TableScanNode _ _ _ _ => TABLE_SCAN
  | FilterNode _ _ _ => FILTER
  | ProjectNode _ _ _ => PROJECT
  | NestedLoopJoinNode _ _ _ _ => NESTED_LOOP_JOIN
  | HashJoinNode _ _ _ _ => HASH_JOIN
  | SortMergeJoinNode _ _ _ _ => SORT_MERGE_JOIN
  end.

Definition node_info (n : PlanNode) : NodeInfo :=
  match n with
  | TableScanNode _ _ i _ | FilterNode _ i _ | ProjectNode _ i _
  | NestedLoopJoinNode _ _ i _ | HashJoinNode _ _ i _
  | SortMergeJoinNode _ _ i _ => i
  end.

Definition node_children (n : PlanNode) : list PlanNode :=
  match n with
  | TableScanNode _ _ _ c | FilterNode _ _ c | ProjectNode _ _ c
  | NestedLoopJoinNode _ _ _ c | HashJoinNode _ _ _ c
  | SortMergeJoinNode _ _ _ c => c
  end.

Definition set_info (n : PlanNode) (i : NodeInfo) : PlanNode :=
  match n with
  | TableScanNode t a _ c => TableScanNode t a i c
  | FilterNode k _ c => FilterNode k i c
  | ProjectNode p _ c => ProjectNode p i c
  | NestedLoopJoinNode j k _ c => NestedLoopJoinNode j k i c
  | HashJoinNode j k _ c => HashJoinNode j k i c
  | SortMergeJoinNode j k _ c => SortMergeJoinNode j k i c
  end.

(** [plan->cost = c] *)
Definition set_cost (n : PlanNode) (c : CostEstimate) : PlanNode :=
  let i := node_info n in
  set_info n (mkNodeInfo (output_schema i) (stats i) c).

(** [std::string::find(pat) != std::string::npos] *)
Definition find (s pat : string) : option nat := String.index 0 pat s.

Definition contains (s pat : string) : bool :=
  match find s pat with Some _ => true | None => false end.

(** ** include/cost_model.h *)

Module CostConstants.
Definition SEQUENTIAL_IO_COST : double := 1.0%R.
Definition RANDOM_IO_COST : double := 4.0%R.
Definition CPU_TUPLE_COST : double := 0.01%R.
Definition CPU_OPERATOR_COST : double := 0.0025%R.
Definition MEMORY_SORT_COST : double := 2.0%R.
Definition HASH_BUILD_COST : double := 1.0%R.
Definition HASH_PROBE_COST : double := 0.5%R.
End CostConstants.

Record TableStatistics : Type := mkTableStatistics {
  tuple_count : Z;
  page_count_ts : Z;
  tuple_width : Z;
  column_selectivity : gmap string double;
  distinct_values : gmap string Z
}.

(** [TableStatistics(size_t tuples = 0, size_t pages = 0, size_t width = 100)] *)
Definition TableStatistics_new (tuples pages width : Z) : TableStatistics :=
  mkTableStatistics tuples pages width ∅ ∅.

Definition get_selectivity (st : TableStatistics) (condition : string) : double :=
  match column_selectivity st !! condition with
  | Some v => v
  | None => 0.1%R
  end.

Record CostModel : Type := mkCostModel {
  table_stats : gmap string TableStatistics
}.

(** [static_cast<size_t>(x)] for a non-negative [x]. *)
Definition size_t_of_double (x : double) : Z := Int_part x.

(** [std::log2] *)
Definition log2 (x : double) : double := (ln x / ln 2)%R.

Definition log2_safe (x : double) : double :=
  if Rle_dec x 1 then 0%R else log2 x.

(** ** src/cost_model.cpp *)

Import CostConstants.

(** [CostModel::CostModel()] *)
Definition CostModel_new : CostModel :=
  let users_stats :=
    mkTableStatistics 1000 10 120
      (<["age < 30" := 0.20%R]> (<["age > 25" := 0.88%R]> ∅))
      (<["city" := 10]> (<["age" := 50]> (<["id" := 1000]> ∅))) in
  let orders_stats :=
    mkTableStatistics 5000 50 80
      (<["amount > 100" := 0.30%R]> ∅)
      (<["product" := 100]> (<["user_id" := 1000]> (<["id" := 5000]> ∅))) in
  mkCostModel (<["orders" := orders_stats]> (<["users" := users_stats]> ∅)).

Definition set_table_statistics (cm : CostModel) (table_name : string)
    (st : TableStatistics) : CostModel :=
  mkCostModel (<[table_name := st]> (table_stats cm)).

Definition estimate_scan_cost (st : TableStatistics) : double :=
  (IZR (page_count_ts st) * SEQUENTIAL_IO_COST
   + IZR (tuple_count st) * CPU_TUPLE_COST)%R.

(** The private overload [estimate_filter_cost(size_t, double)]. *)
Definition estimate_filter_cost_tuples (input_tuples : Z) (sel : double) : double :=
  (IZR input_tuples * CPU_OPERATOR_COST)%R.

Definition estimate_nested_loop_cost (left_tuples right_tuples right_pages : Z)
    : double :=
  let io := (IZR (size_mul left_tuples right_pages) * RANDOM_IO_COST)%R in
  let cpu := (IZR (size_mul left_tuples right_tuples) * CPU_OPERATOR_COST)%R in
  (io + cpu)%R.

Definition estimate_hash_join_cost (build_tuples probe_tuples build_pages : Z)
    : double :=
  let build_cost := (IZR build_tuples * HASH_BUILD_COST)%R in
  let probe_cost := (IZR probe_tuples * HASH_PROBE_COST)%R in
  let io := (IZR build_pages * SEQUENTIAL_IO_COST)%R in
  (build_cost + probe_cost + io)%R.

Definition estimate_sort_cost (tuples : Z) : double :=
  if tuples <=? 1 then 0.0%R
  else (IZR tuples * log2_safe (IZR tuples)
        * CPU_OPERATOR_COST * MEMORY_SORT_COST)%R.

Definition estimate_sort_merge_cost (left_tuples right_tuples : Z) : double :=
  let left_sort := estimate_sort_cost left_tuples in
  let right_sort := estimate_sort_cost right_tuples in
  let merge_cost :=
    (IZR (size_add left_tuples right_tuples) * CPU_OPERATOR_COST)%R in
  (left_sort + right_sort + merge_cost)%R.

Definition estimate_join_selectivity (condition : string) : double :=
  if contains condition "=" then 0.1%R
  else if contains condition ">" || contains condition "<" then 0.33%R
  else 0.1%R.

Fixpoint estimate_output_cardinality (cm : CostModel) (node : PlanNode) : Z :=
  let join_cardinality condition children :=
    match children with
    | l :: r :: _ =>
        let left_cardinality := estimate_output_cardinality cm l in
        let right_cardinality := estimate_output_cardinality cm r in
        let sel := estimate_join_selectivity condition in
        size_t_of_double
          (IZR (size_mul left_cardinality right_cardinality) * sel)%R
    | _ => 0
    end in
  match node with
  | TableScanNode name _ _ _ =>
      match table_stats cm !! name with
      | Some st => tuple_count st
      | None => 1000
      end
  | FilterNode condition _ children =>
      match children with
      | [] => 0
      | c :: _ =>
          let input_cardinality := estimate_output_cardinality cm c in
          let sel :=
            if contains condition "age > 25" then 0.88%R
            else if contains condition "age < 30" then 0.20%R
            else 0.1%R in
          size_t_of_double (IZR input_cardinality * sel)%R
      end
  | ProjectNode _ _ children =>
      match children with
      | [] => 0
      | c :: _ => estimate_output_cardinality cm c
      end
  | NestedLoopJoinNode _ condition _ children
  | HashJoinNode _ condition _ children
  | SortMergeJoinNode _ condition _ children =>
      join_cardinality condition children
  end.

Definition estimate_table_scan_cost (cm : CostModel) (name : string)
    : CostEstimate :=
  match table_stats cm !! name with
  | None => CostEstimate_new 10.0%R 1.0%R
  | Some st =>
      CostEstimate_new (IZR (page_count_ts st) * SEQUENTIAL_IO_COST)%R
                       (IZR (tuple_count st) * CPU_TUPLE_COST)%R
  end.

(** [CostModel::estimate_join_cost], after the children are costed:
    [left_cost], [right_cost] and the two cardinalities are the values the
    source obtains from its first four statements. *)
Definition join_cost_of (ty : PlanNodeType) (left_cost right_cost : CostEstimate)
    (left_tuples right_tuples : Z) : CostEstimate :=
  let total_io := (io_cost left_cost + io_cost right_cost)%R in
  let total_cpu := (cpu_cost left_cost + cpu_cost right_cost)%R in
  match ty with
  | NESTED_LOOP_JOIN =>
      let right_pages := Z.max 1 (right_tuples / 100) in
      let join_cost :=
        estimate_nested_loop_cost left_tuples right_tuples right_pages in
      CostEstimate_new
        (total_io + IZR (size_mul left_tuples right_pages) * RANDOM_IO_COST)%R
        (total_cpu + join_cost)%R
  | HASH_JOIN =>
      let build_tuples := Z.min left_tuples right_tuples in
      let probe_tuples := Z.max left_tuples right_tuples in
      let build_pages := Z.max 1 (build_tuples / 100) in
      let join_cost :=
        estimate_hash_join_cost build_tuples probe_tuples build_pages in
      CostEstimate_new total_io (total_cpu + join_cost)%R
  | SORT_MERGE_JOIN =>
      let join_cost := estimate_sort_merge_cost left_tuples right_tuples in
      CostEstimate_new total_io (total_cpu + join_cost)%R
  | _ => CostEstimate_new total_io total_cpu
  end.

Fixpoint estimate_plan_cost (cm : CostModel) (node : PlanNode) : CostEstimate :=
  let estimate_join_cost ty children :=
    match children with
    | l :: r :: _ =>
        let left_cost := estimate_plan_cost cm l in
        let right_cost := estimate_plan_cost cm r in
        let left_tuples := estimate_output_cardinality cm l in
        let right_tuples := estimate_output_cardinality cm r in
        join_cost_of ty left_cost right_cost left_tuples right_tuples
    | _ => CostEstimate_default
    end in
  match node with
  | TableScanNode name _ _ _ => estimate_table_scan_cost cm name
  | FilterNode _ _ children =>
      match children with
      | [] => CostEstimate_default
      | c :: _ =>
          let child_cost := estimate_plan_cost cm c in
          let input_tuples := estimate_output_cardinality cm c in
          let filter_cpu_cost :=
            estimate_filter_cost_tuples input_tuples 0.1%R in
          CostEstimate_new (io_cost child_cost)
                           (cpu_cost child_cost + filter_cpu_cost)%R
      end
  | ProjectNode _ _ children =>
      match children with
      | [] => CostEstimate_default
      | c :: _ =>
          let child_cost := estimate_plan_cost cm c in
          let input_tuples := estimate_output_cardinality cm c in
          let project_cpu_cost :=
            (IZR input_tuples * CPU_OPERATOR_COST * 0.5)%R in
          CostEstimate_new (io_cost child_cost)
                           (cpu_cost child_cost + project_cpu_cost)%R
      end
  | NestedLoopJoinNode _ _ _ children =>
      estimate_join_cost NESTED_LOOP_JOIN children
  | HashJoinNode _ _ _ children => estimate_join_cost HASH_JOIN children
  | SortMergeJoinNode _ _ _ children =>
      estimate_join_cost SORT_MERGE_JOIN children
  end.

(** ** include/ast.h *)

Inductive BinaryOperator : Type :=
| EQUALS | NOT_EQUALS | GREATER | LESS
| GREATER_EQUAL | LESS_EQUAL | AND | OR.

(** [Expression] and its subclasses.  [FunctionCall] stands for an
    expression tagged [ExpressionType::FUNCTION_CALL], for which the
    header declares no subclass. *)
Inductive Expression : Type :=
| ColumnExpression (table_name column_name : string)
| LiteralExpression (value : string)
| BinaryOpExpression (left right : Expression) (op : BinaryOperator)
| FunctionCall.

Record SelectItem : Type := mkSelectItem {
  expression : Expression;
  item_alias : string
}.

Record TableReference : Type := mkTableReference {
  ref_table_name : string;
  ref_alias : string
}.

Module JoinClauseType.
Inductive t : Type := INNER | LEFT | RIGHT.
End JoinClauseType.

Record JoinClause : Type := mkJoinClause {
  clause_join_type : JoinClauseType.t;
  table : TableReference;
  clause_condition : Expression
}.

(** [where_clause] is a possibly null [unique_ptr]. *)
Record SelectStatement : Type := mkSelectStatement {
  select_list : list SelectItem;
  from_table : TableReference;
  joins : list JoinClause;
  where_clause : option Expression
}.

(** ** src/plan_builder.cpp *)

Record PlanBuilder : Type := mkPlanBuilder {
  builder_table_stats : gmap string Statistics
}.

(** [PlanBuilder::PlanBuilder()] *)
Definition PlanBuilder_new : PlanBuilder :=
  mkPlanBuilder
    (<["products" := mkStatistics 500 5 1.0%R]>
       (<["orders" := mkStatistics 5000 50 1.0%R]>
          (<["users" := mkStatistics 1000 10 1.0%R]> ∅))).

Definition builder_set_table_statistics (pb : PlanBuilder)
    (table_name : string) (st : Statistics) : PlanBuilder :=
  mkPlanBuilder (<[table_name := st]> (builder_table_stats pb)).

Definition op_string (op : BinaryOperator) : string :=
  match op with
  | EQUALS => "="
  | NOT_EQUALS => "!="
  | GREATER => ">"
  | LESS => "<"
  | GREATER_EQUAL => ">="
  | LESS_EQUAL => "<="
  | AND => "AND"
  | OR => "OR"
  end.

Fixpoint expression_to_string (expr : Expression) : string :=
  match expr with
  | ColumnExpression t c =>
      if String.eqb t "" then c else t ++ "." ++ c
  | LiteralExpression v => v
  | BinaryOpExpression l r op =>
      "(" ++ expression_to_string l ++ " " ++ op_string op ++ " "
          ++ expression_to_string r ++ ")"
  | FunctionCall => "UNKNOWN_EXPR"
  end.

Definition convert_join_type (ty : JoinClauseType.t) : JoinType :=
  match ty with
  | JoinClauseType.INNER => INNER
  | JoinClauseType.LEFT => LEFT_OUTER
  | JoinClauseType.RIGHT => RIGHT_OUTER
  end.

Definition build_scan_node (pb : PlanBuilder) (t : TableReference) : PlanNode :=
  let st :=
    match builder_table_stats pb !! ref_table_name t with
    | Some s => s
    | None => Statistics_default
    end in
  let schema :=
    Schema_add_column (mkSchema []) (Column_new (ref_table_name t) "*") in
  TableScanNode (ref_table_name t) (ref_alias t)
    (mkNodeInfo schema st CostEstimate_default) [].

Definition build_filter_node (child : PlanNode) (condition : Expression)
    : PlanNode :=
  let cst := stats (node_info child) in
  let sel := 0.1%R in
  let st :=
    mkStatistics (size_t_of_double (IZR (row_count cst) * sel)%R)
                 (page_count cst) sel in
  FilterNode (expression_to_string condition)
    (mkNodeInfo (output_schema (node_info child)) st CostEstimate_default)
    [child].

Definition build_project_node (child : PlanNode) (items : list SelectItem)
    : PlanNode :=
  let projections := map (fun it => expression_to_string (expression it)) items in
  ProjectNode projections
    (mkNodeInfo (output_schema (node_info child)) (stats (node_info child))
                CostEstimate_default)
    [child].

Definition build_join_node (left right : PlanNode) (join : JoinClause)
    (join_algorithm : PlanNodeType) : PlanNode :=
  let join_type := convert_join_type (clause_join_type join) in
  let condition := expression_to_string (clause_condition join) in
  let rows :=
    size_mul (row_count (stats (node_info left)))
             (row_count (stats (node_info right))) / 10 in
  let st := mkStatistics rows (rows / 100) 0.1%R in
  let schema :=
    fold_left Schema_add_column
      (columns (output_schema (node_info right)))
      (output_schema (node_info left)) in
  let info := mkNodeInfo schema st CostEstimate_default in
  match join_algorithm with
  | NESTED_LOOP_JOIN => NestedLoopJoinNode join_type condition info [left; right]
  | HASH_JOIN => HashJoinNode join_type condition info [left; right]
  | SORT_MERGE_JOIN => SortMergeJoinNode join_type condition info [left; right]
  | _ => NestedLoopJoinNode join_type condition info [left; right]
  end.

(** The part shared by [build_plan], [generate_join_orders] and
    [generate_all_plans]: fold the joins left-deep under one algorithm. *)
Definition fold_joins (pb : PlanBuilder) (plan : PlanNode)
    (js : list JoinClause) (algorithm : PlanNodeType) : PlanNode :=
  fold_left
    (fun plan join =>
       let right_plan := build_scan_node pb (table join) in
       build_join_node plan right_plan join algorithm)
    js plan.

Definition apply_where (plan : PlanNode) (w : option Expression) : PlanNode :=
  match w with
  | Some c => build_filter_node plan c
  | None => plan
  end.

Definition build_plan (pb : PlanBuilder) (stmt : SelectStatement) : PlanNode :=
  let plan := build_scan_node pb (from_table stmt) in
  let plan := fold_joins pb plan (joins stmt) NESTED_LOOP_JOIN in
  let plan := apply_where plan (where_clause stmt) in
  build_project_node plan (select_list stmt).

Definition join_algorithms : list PlanNodeType :=
  [NESTED_LOOP_JOIN; HASH_JOIN; SORT_MERGE_JOIN].

Definition generate_join_orders (pb : PlanBuilder) (stmt : SelectStatement)
    : list PlanNode :=
  match joins stmt with
  | [] => [build_plan pb stmt]
  | _ =>
      map (fun algorithm =>
             let plan := build_scan_node pb (from_table stmt) in
             let plan := fold_joins pb plan (joins stmt) algorithm in
             let plan := apply_where plan (where_clause stmt) in
             build_project_node plan (select_list stmt))
          join_algorithms
  end.

(** ** src/optimizer.cpp *)

Record QueryOptimizer : Type := mkQueryOptimizer {
  cost_model : CostModel;
  plan_builder : PlanBuilder
}.

Record PlanCandidate : Type := mkPlanCandidate {
  plan : PlanNode;
  candidate_cost : CostEstimate
}.

(** [QueryOptimizer::QueryOptimizer()] *)
Definition QueryOptimizer_new : QueryOptimizer :=
  let cm := CostModel_new in
  let cm := set_table_statistics cm "users" (TableStatistics_new 1000 10 120) in
  let cm := set_table_statistics cm "orders" (TableStatistics_new 5000 50 80) in
  mkQueryOptimizer cm PlanBuilder_new.

Definition optimizer_set_table_statistics (o : QueryOptimizer)
    (table_name : string) (st : TableStatistics) : QueryOptimizer :=
  mkQueryOptimizer
    (set_table_statistics (cost_model o) table_name st)
    (builder_set_table_statistics (plan_builder o) table_name
       (mkStatistics (tuple_count st) (page_count_ts st) 1.0%R)).

Definition apply_filter_pushdown (p : PlanNode) : PlanNode := p.
Definition choose_join_algorithm (p : PlanNode) : PlanNode := p.

(** The tail common to both loops of [generate_all_plans]: WHERE filter,
    projection, costing, and the write [plan->cost = cost]. *)
Definition finish_candidate (o : QueryOptimizer) (stmt : SelectStatement)
    (p : PlanNode) : PlanCandidate :=
  let p := apply_where p (where_clause stmt) in
  let p := build_project_node p (select_list stmt) in
  let c := estimate_plan_cost (cost_model o) p in
  mkPlanCandidate (set_cost p c) c.

(** [QueryOptimizer::generate_all_plans].  None of the builder or cost
    functions throws, so the two [catch] handlers are never entered. *)
Definition generate_all_plans (o : QueryOptimizer) (stmt : SelectStatement)
    : list PlanCandidate :=
  let pb := plan_builder o in
  let candidates :=
    map (fun algorithm =>
           let p := build_scan_node pb (from_table stmt) in
           let p := fold_joins pb p (joins stmt) algorithm in
           finish_candidate o stmt p)
        join_algorithms in
  match joins stmt with
  | [j] =>
      candidates ++
      map (fun algorithm =>
             let right_first := build_scan_node pb (table j) in
             let left_second := build_scan_node pb (from_table stmt) in
             let p := build_join_node right_first left_second j algorithm in
             finish_candidate o stmt p)
          join_algorithms
  | _ => candidates
  end.

(** [std::min_element] with the comparator
    [a.cost.total_cost < b.cost.total_cost]: the first smallest element. *)
Fixpoint min_element_from (best : PlanCandidate) (rest : list PlanCandidate)
    : PlanCandidate :=
  match rest with
  | [] => best
  | c :: rest' =>
      if Rlt_dec (total_cost (candidate_cost c))
                 (total_cost (candidate_cost best))
      then min_element_from c rest'
      else min_element_from best rest'
  end.

(** [nullptr] is [None]. *)
Definition select_best_plan (candidates : list PlanCandidate)
    : option PlanNode :=
  match candidates with
  | [] => None
  | c :: rest => Some (plan (min_element_from c rest))
  end.

Definition optimize_single_table (o : QueryOptimizer) (stmt : SelectStatement)
    : PlanNode :=
  let p := build_plan (plan_builder o) stmt in
  let p := apply_filter_pushdown p in
  let c := estimate_plan_cost (cost_model o) p in
  set_cost p c.

Definition optimize_join_query (o : QueryOptimizer) (stmt : SelectStatement)
    : option PlanNode :=
  select_best_plan (generate_all_plans o stmt).

Definition optimize (o : QueryOptimizer) (stmt : SelectStatement)
    : option PlanNode :=
  match joins stmt with
  | [] => Some (optimize_single_table o stmt)
  | _ => optimize_join_query o stmt
  end.

(** ** include/table.h *)

(** The content of a [std::any] cell.  The program stores [int] and
    [std::string]; [VEmpty] is the empty [std::any] that [Row::set]
    leaves when it resizes. *)
Inductive Value : Type :=
| VInt (n : Z)
| VString (s : string)
| VEmpty.

Record Row : Type := mkRow { values : list Value }.

(** [Row::get<int>(index)] *)
Definition Row_get_int (r : Row) (index : nat) : result Z :=
  match nth_error (values r) index with
  | None => Throw (out_of_range "Column index out of range")
  | Some (VInt n) => Ok n
  | Some _ => Throw bad_any_cast
  end.

Definition add_value (r : Row) (v : Value) : Row := mkRow (values r ++ [v]).

Definition Row_size (r : Row) : nat := length (values r).

Record TableSchema : Type := mkTableSchema {
  column_names : list string;
  column_types : list string
}.

Definition TableSchema_empty : TableSchema := mkTableSchema [] [].

Definition add_column (s : TableSchema) (name type : string) : TableSchema :=
  mkTableSchema (column_names s ++ [name]) (column_types s ++ [type]).

Fixpoint index_of (name : string) (names : list string) (i : nat) : option nat :=
  match names with
  | [] => None
  | n :: rest => if String.eqb n name then Some i else index_of name rest (S i)
  end.

Definition get_column_index (s : TableSchema) (name : string) : result nat :=
  match index_of name (column_names s) 0 with
  | Some i => Ok i
  | None => Throw (runtime_error ("Column not found: " ++ name))
  end.

Definition column_count (s : TableSchema) : nat := length (column_names s).

Record Table : Type := mkTable {
  name : string;
  schema : TableSchema;
  rows : list Row
}.

Definition Table_add_row (t : Table) (r : Row) : Table :=
  mkTable (name t) (schema t) (rows t ++ [r]).

Record TableManager : Type := mkTableManager {
  tables : gmap string Table
}.

Definition TableManager_empty : TableManager := mkTableManager ∅.

Definition create_table (tm : TableManager) (n : string) (s : TableSchema)
    : TableManager :=
  mkTableManager (<[n := mkTable n s []]> (tables tm)).

Definition get_table (tm : TableManager) (n : string) : option Table :=
  tables tm !! n.

(** [table->add_row(row)] through the pointer [get_table] returned. *)
Definition add_row_to (tm : TableManager) (n : string) (r : Row) : TableManager :=
  mkTableManager (alter (fun t => Table_add_row t r) n (tables tm)).

(** [std::to_string(int)] *)
Definition to_string (i : Z) : string := NilZero.string_of_int (Z.to_int i).

Definition users_row (i : Z) : Row :=
  let row := mkRow [] in
  let row := add_value row (VInt i) in
  let row := add_value row (VString ("User" ++ to_string i)) in
  let row := add_value row (VInt (20 + Z.rem i 50)) in
  add_value row (VString ("City" ++ to_string (Z.rem i 10 + 1))).

Definition orders_row (i : Z) : Row :=
  let row := mkRow [] in
  let row := add_value row (VInt i) in
  let row := add_value row (VInt (Z.rem i 1000 + 1)) in
  let row := add_value row (VString ("Product" ++ to_string (Z.rem i 100 + 1))) in
  add_value row (VInt (10 + Z.rem i 500)).

Definition users_schema : TableSchema :=
  let s := TableSchema_empty in
  let s := add_column s "id" "int" in
  let s := add_column s "name" "string" in
  let s := add_column s "age" "int" in
  add_column s "city" "string".

Definition orders_schema : TableSchema :=
  let s := TableSchema_empty in
  let s := add_column s "id" "int" in
  let s := add_column s "user_id" "int" in
  let s := add_column s "product" "string" in
  add_column s "amount" "int".

(** [for (int i = 1; i <= n; ++i) table->add_row(mk(i));] *)
Definition fill (tm : TableManager) (n : string) (mk : Z -> Row) (count : Z)
    : TableManager :=
  fold_left (fun tm i => add_row_to tm n (mk i)) (seqZ 1 count) tm.

Definition populate_sample_data (tm : TableManager) : TableManager :=
  let tm := create_table tm "users" users_schema in
  let tm := fill tm "users" users_row 1000 in
  let tm := create_table tm "orders" orders_schema in
  fill tm "orders" orders_row 5000.

(** ** include/executor.h, src/executor.cpp *)

Record ResultSet : Type := mkResultSet {
  rs_schema : TableSchema;
  rs_rows : list Row
}.

Definition rs_size (rs : ResultSet) : nat := length (rs_rows rs).

Definition execute_table_scan (tm : TableManager) (table_name : string)
    : result ResultSet :=
  match get_table tm table_name with
  | None => Throw (runtime_error ("Table not found: " ++ table_name))
  | Some t => Ok (mkResultSet (schema t) (rows t))
  end.

(** [s.substr(pos)]: throws when [pos > s.size()]. *)
Definition substr (s : string) (pos : nat) : result string :=
  if (String.length s <? pos)%nat
  then Throw (out_of_range "basic_string::substr")
  else Ok (String.substring pos (String.length s - pos) s).

Definition isspace (c : ascii) : bool :=
  let n := nat_of_ascii c in
  (n =? 32)%nat || ((9 <=? n)%nat && (n <=? 13)%nat).

Definition digit_of (c : ascii) : option Z :=
  let n := nat_of_ascii c in
  if ((48 <=? n)%nat && (n <=? 57)%nat) then Some (Z.of_nat n - 48) else None.

Fixpoint skip_spaces (s : string) : string :=
  match s with
  | String c rest => if isspace c then skip_spaces rest else s
  | EmptyString => s
  end.

(** The longest run of decimal digits at the front of [s], as a number;
    [None] when there is no digit. *)
Fixpoint read_digits (s : string) (acc : option Z) : option Z :=
  match s with
  | String c rest =>
      match digit_of c with
      | Some d =>
          read_digits rest
            (Some (10 * match acc with Some a => a | None => 0 end + d))
      | None => acc
      end
  | EmptyString => acc
  end.

(** [std::stoi(str)]: leading white space, an optional sign, decimal
    digits; [invalid_argument] without digits, [out_of_range] outside
    [int]. *)
Definition stoi (str : string) : result Z :=
  let s := skip_spaces str in
  let '(negative, s) :=
    match s with
    | String "-" rest => (true, rest)
    | String "+" rest => (false, rest)
    | _ => (false, s)
    end in
  match read_digits s None with
  | None => Throw (invalid_argument "stoi")
  | Some v =>
      let v := if negative then - v else v in
      if (INT_MIN <=? v) && (v <=? INT_MAX) then Ok v
      else Throw (out_of_range "stoi")
  end.

(** [std::string::npos + 2] wraps around to 1. *)
Definition find_plus_2 (s pat : string) : nat :=
  match find s pat with
  | Some p => p + 2
  | None => 1
  end.

(** [Executor::evaluate_condition].  The [substr] call of the third branch
    stands outside the [try] block, so an exception of it would leave the
    function: the result is a [result bool]. *)
Definition evaluate_condition (row : Row) (schema : TableSchema)
    (condition : string) : result bool :=
  if contains condition "age > 25" then
    Ok (try_catch
          (try! age_idx <- get_column_index schema "age";
           try! age <- Row_get_int row age_idx;
           Ok (25 <? age))
          false)
  else if contains condition "age < 30" then
    Ok (try_catch
          (try! age_idx <- get_column_index schema "age";
           try! age <- Row_get_int row age_idx;
           Ok (age <? 30))
          false)
  else if contains condition "id = " then
    try! id_str <- substr condition (find_plus_2 condition "= ");
    Ok (try_catch
          (try! id_idx <- get_column_index schema "id";
           try! id <- Row_get_int row id_idx;
           try! target_id <- stoi id_str;
           Ok (id =? target_id))
          false)
  else Ok true.

(** The loop of [execute_filter] over the child's rows. *)
Fixpoint filter_rows (schema : TableSchema) (condition : string)
    (rows : list Row) : result (list Row) :=
  match rows with
  | [] => Ok []
  | row :: rest =>
      try! keep <- evaluate_condition row schema condition;
      try! out <- filter_rows schema condition rest;
      Ok (if keep then row :: out else out)
  end.

Definition filter_result (child_result : ResultSet) (condition : string)
    : result ResultSet :=
  try! out <- filter_rows (rs_schema child_result) condition
                          (rs_rows child_result);
  Ok (mkResultSet (rs_schema child_result) out).

(** [proj.find('.')] *)
Fixpoint find_char (c : ascii) (s : string) : option nat :=
  match s with
  | EmptyString => None
  | String d rest =>
      if Ascii.eqb d c then Some 0%nat
      else match find_char c rest with
           | Some i => Some (S i)
           | None => None
           end
  end.

Fixpoint parse_projections (projections : list string) : list string :=
  match projections with
  | [] => []
  | proj :: rest =>
      if String.eqb proj "*" then parse_projections rest
      else
        match find_char "." proj with
        | Some dot_pos =>
            String.substring (dot_pos + 1)
              (String.length proj - (dot_pos + 1)) proj
            :: parse_projections rest
        | None => proj :: parse_projections rest
        end
  end.

(** The first loop of [execute_project]: the columns that resolve, as
    (index list, result schema).  [column_types[idx]] is read without a
    bounds check; schemas built with [add_column] have a type per name. *)
Fixpoint resolve_columns (child_schema : TableSchema) (cols : list string)
    (acc : list nat * TableSchema) : list nat * TableSchema :=
  match cols with
  | [] => acc
  | col :: rest =>
      match get_column_index child_schema col with
      | Ok idx =>
          resolve_columns child_schema rest
            ((fst acc ++ [idx])%list,
             add_column (snd acc) col (nth idx (column_types child_schema) ""))
      | Throw _ => resolve_columns child_schema rest acc
      end
  end.

Definition project_row (column_indices : list nat) (row : Row) : Row :=
  fold_left
    (fun new_row idx =>
       match nth_error (values row) idx with
       | Some v => add_value new_row v
       | None => new_row
       end)
    column_indices (mkRow []).

Definition project_result (child_result : ResultSet)
    (projection_list : list string) : ResultSet :=
  match projection_list with
  | [p] =>
      if String.eqb p "*" then child_result
      else
        let columns := parse_projections projection_list in
        let '(column_indices, result_schema) :=
          resolve_columns (rs_schema child_result) columns
                          ([], TableSchema_empty) in
        mkResultSet result_schema
          (map (project_row column_indices) (rs_rows child_result))
  | _ =>
      let columns := parse_projections projection_list in
      let '(column_indices, result_schema) :=
        resolve_columns (rs_schema child_result) columns
                        ([], TableSchema_empty) in
      mkResultSet result_schema
        (map (project_row column_indices) (rs_rows child_result))
  end.

(** The schema every join returns: the left schema followed by the
    columns of the right one. *)
Definition join_schema (l r : TableSchema) : TableSchema :=
  fold_left
    (fun s i => add_column s (nth i (column_names r) "")
                             (nth i (column_types r) ""))
    (seq 0 (column_count r)) l.

(** [Row joined_row = left_row; for (value : right_row.values)
    joined_row.add_value(value);] *)
Definition join_rows (left_row right_row : Row) : Row :=
  fold_left add_value (values right_row) left_row.

Definition nested_loop_result (left_result right_result : ResultSet)
    : ResultSet :=
  mkResultSet
    (join_schema (rs_schema left_result) (rs_schema right_result))
    (flat_map
       (fun left_row => map (join_rows left_row) (rs_rows right_result))
       (rs_rows left_result)).

(** The build loop of [execute_hash_join]:
    [hash_table[key].push_back(row)], rows without an [int] at index 0
    skipped. *)
Definition hash_build (left_rows : list Row) : gmap Z (list Row) :=
  fold_left
    (fun hash_table row =>
       match Row_get_int row 0 with
       | Ok key =>
           <[key := (default [] (hash_table !! key) ++ [row])%list]> hash_table
       | Throw _ => hash_table
       end)
    left_rows ∅.

(** One iteration of the probe loop. *)
Definition hash_probe (hash_table : gmap Z (list Row)) (right_row : Row)
    : list Row :=
  match Row_get_int right_row 1 with
  | Ok key =>
      match hash_table !! key with
      | Some bucket => map (fun left_row => join_rows left_row right_row) bucket
      | None => []
      end
  | Throw _ => []
  end.

Definition hash_join_result (left_result right_result : ResultSet)
    : ResultSet :=
  let hash_table := hash_build (rs_rows left_result) in
  mkResultSet
    (join_schema (rs_schema left_result) (rs_schema right_result))
    (flat_map (hash_probe hash_table) (rs_rows right_result)).

(** The comparators handed to [std::sort]: [a.get<int>(k) < b.get<int>(k)],
    [false] when either read throws. *)
Definition key_less (k : nat) (a b : Row) : bool :=
  try_catch
    (try! x <- Row_get_int a k;
     try! y <- Row_get_int b k;
     Ok (x <? y))
    false.

(** [std::sort] leaves the order of equivalent elements unspecified; the
    model is the insertion sort that keeps them in their input order. *)
Fixpoint sort_insert (less : Row -> Row -> bool) (x : Row) (sorted : list Row)
    : list Row :=
  match sorted with
  | [] => [x]
  | y :: rest =>
      if less x y then x :: sorted else y :: sort_insert less x rest
  end.

Definition std_sort (less : Row -> Row -> bool) (l : list Row) : list Row :=
  fold_left (fun sorted x => sort_insert less x sorted) l [].

(** The [while] loop of [execute_sort_merge_join] over the two cursors;
    the lists are the rows from each cursor on. *)
Fixpoint merge_loop (left_rows right_rows : list Row) : list Row :=
  match left_rows with
  | [] => []
  | l :: left_rest =>
      (fix inner (right_rows : list Row) : list Row :=
         match right_rows with
         | [] => []
         | r :: right_rest =>
             match (try! left_key <- Row_get_int l 0;
                    try! right_key <- Row_get_int r 1;
                    Ok (left_key, right_key)) with
             | Ok (left_key, right_key) =>
                 if left_key =? right_key then join_rows l r :: inner right_rest
                 else if left_key <? right_key
                      then merge_loop left_rest right_rows
                      else inner right_rest
             | Throw _ => merge_loop left_rest right_rows
             end
         end) right_rows
  end.

Definition sort_merge_result (left_result right_result : ResultSet)
    : ResultSet :=
  let left_rows := std_sort (key_less 0) (rs_rows left_result) in
  let right_rows := std_sort (key_less 1) (rs_rows right_result) in
  mkResultSet
    (join_schema (rs_schema left_result) (rs_schema right_result))
    (merge_loop left_rows right_rows).

(** [Executor::execute] with the six [execute_*] methods.  Every concrete
    node class carries one of the six tags the [switch] handles, so its
    [default] branch is not reached. *)
Fixpoint execute (tm : TableManager) (node : PlanNode) : result ResultSet :=
  let join (combine : ResultSet -> ResultSet -> ResultSet) children :=
    match children with
    | l :: r :: _ =>
        try! left_result <- execute tm l;
        try! right_result <- execute tm r;
        Ok (combine left_result right_result)
    | _ => Throw (runtime_error "Join node needs two children")
    end in
  match node with
  | TableScanNode table_name _ _ _ => execute_table_scan tm table_name
  | FilterNode condition _ children =>
      match children with
      | [] => Throw (runtime_error "Filter node has no children")
      | c :: _ =>
          try! child_result <- execute tm c;
          filter_result child_result condition
      end
  | ProjectNode projection_list _ children =>
      match children with
      | [] => Throw (runtime_error "Project node has no children")
      | c :: _ =>
          try! child_result <- execute tm c;
          Ok (project_result child_result projection_list)
      end
  | NestedLoopJoinNode _ _ _ children => join nested_loop_result children
  | HashJoinNode _ _ _ children => join hash_join_result children
  | SortMergeJoinNode _ _ _ children => join sort_merge_result children
  end.

(** ** Sample plans and predicates used in the statements *)

Definition sample_tm : TableManager := populate_sample_data TableManager_empty.

Definition users_scan : PlanNode := TableScanNode "users" "" NodeInfo_default [].
Definition orders_scan : PlanNode := TableScanNode "orders" "" NodeInfo_default [].

Definition users_orders_condition : string := "users.id = orders.user_id".

(** The join of the two sample tables under one algorithm, as the test
    drivers build it by hand. *)
Definition sample_join (algorithm : PlanNodeType) (l r : PlanNode) : PlanNode :=
  match algorithm with
  | HASH_JOIN => HashJoinNode INNER users_orders_condition NodeInfo_default [l; r]
  | SORT_MERGE_JOIN =>
      SortMergeJoinNode INNER users_orders_condition NodeInfo_default [l; r]
  | _ => NestedLoopJoinNode INNER users_orders_condition NodeInfo_default [l; r]
  end.

(** The boolean [evaluate_condition] returns, read off its result. *)
Definition condition_value (row : Row) (schema : TableSchema)
    (condition : string) : bool :=
  match evaluate_condition row schema condition with
  | Ok b => b
  | Throw _ => false
  end.

(** The number of rows of a result, when there is one. *)
Definition result_size (r : result ResultSet) : option Z :=
  match r with
  | Ok rs => Some (Z.of_nat (rs_size rs))
  | Throw _ => None
  end.

(** [WHERE (age > 25) AND (age < 30)] and the same with the conjuncts
    swapped, as the parser hands them to [build_filter_node]. *)
Definition age_gt_25 : Expression :=
  BinaryOpExpression (ColumnExpression "" "age") (LiteralExpression "25") GREATER.
Definition age_lt_30 : Expression :=
  BinaryOpExpression (ColumnExpression "" "age") (LiteralExpression "30") LESS.
Definition age_between : Expression := BinaryOpExpression age_gt_25 age_lt_30 AND.
Definition age_between_swapped : Expression :=
  BinaryOpExpression age_lt_30 age_gt_25 AND.

(** A table whose rows are not all typed as its schema says: an [int]
    age, a string age, a row without the age cell, an empty cell. *)
Definition people_schema : TableSchema :=
  add_column (add_column TableSchema_empty "id" "int") "age" "int".

Definition people_rows : list Row :=
  [ mkRow [VInt 1; VInt 30];
    mkRow [VInt 2; VString "old"];
    mkRow [VInt 3];
    mkRow [VInt 4; VInt 20];
    mkRow [VInt 5; VEmpty];
    mkRow [VString "six"; VInt 40] ].

Definition visits_schema : TableSchema :=
  add_column (add_column TableSchema_empty "visit" "int") "person" "int".

Definition visits_rows : list Row :=
  [ mkRow [VInt 10; VInt 1];
    mkRow [VInt 11];
    mkRow [VInt 12; VString "1"];
    mkRow [VInt 13; VInt 4] ].

Definition mixed_tm : TableManager :=
  let tm := create_table TableManager_empty "people" people_schema in
  let tm := fold_left (fun tm r => add_row_to tm "people" r) people_rows tm in
  let tm := create_table tm "visits" visits_schema in
  fold_left (fun tm r => add_row_to tm "visits" r) visits_rows tm.

Definition people_scan : PlanNode := TableScanNode "people" "" NodeInfo_default [].
Definition visits_scan : PlanNode := TableScanNode "visits" "" NodeInfo_default [].

(** The plans of the first scenario, built by hand as in the test driver. *)
Definition age_filter_plan : PlanNode :=
  FilterNode "age > 25" NodeInfo_default [users_scan].
Definition name_age_plan : PlanNode :=
  ProjectNode ["name"; "age"] NodeInfo_default [age_filter_plan].

(** The sample users, and those older than 25, from the loop of
    [populate_sample_data]. *)
Definition sample_users : list Row := map users_row (seqZ 1 1000).
Definition age_of (i : Z) : Z := 20 + Z.rem i 50.
Definition older_than_25 : list Z :=
  List.filter (fun i => 25 <? age_of i) (seqZ 1 1000).

Definition sample_orders : list Row := map orders_row (seqZ 1 5000).

(** The [int] at index [k] of a row, 0 when the read throws. *)
Definition key_of (k : nat) (r : Row) : Z :=
  match Row_get_int r k with
  | Ok z => z
  | Throw _ => 0
  end.

(** Every row has an [int] at index [k]. *)
Definition keyed (k : nat) (rows : list Row) : Prop :=
  Forall (fun r => exists z, Row_get_int r k = Ok z) rows.

(** What [std::sort] guarantees of its output under the comparator on
    index [k], for rows that all have the key: ascending keys. *)
Definition ascending (k : nat) (rows : list Row) : Prop :=
  StronglySorted (fun a b => key_of k a <= key_of k b) rows.

(** Some left row has the key of the right row. *)
Definition joins_some (left_rows : list Row) (right_row : Row) : bool :=
  existsb (fun l => key_of 0 l =? key_of 1 right_row) left_rows.

(** The left rows a right row joins with: those whose [int] at index 0 is
    the right row's [int] at index 1. *)
Definition matching_left_rows (left_rows : list Row) (right_row : Row)
    : list Row :=
  match Row_get_int right_row 1 with
  | Ok key =>
      List.filter
        (fun l => match Row_get_int l 0 with
                  | Ok k => k =? key
                  | Throw _ => false
                  end)
        left_rows
  | Throw _ => []
  end.



(** [total_cost == io_cost + cpu_cost] *)
Definition cost_consistent (c : CostEstimate) : Prop :=
  total_cost c = (io_cost c + cpu_cost c)%R.

(** A property of every node of a plan tree. *)
Inductive all_nodes (P : PlanNode -> Prop) : PlanNode -> Prop :=
| all_nodes_intro (p : PlanNode) :
    P p -> Forall (all_nodes P) (node_children p) -> all_nodes P p.

Definition node_cost_consistent (p : PlanNode) : Prop :=
  cost_consistent (cost (node_info p)).

(** ** include/query_plan.h: the plan printer *)

(** The line feed of ["\n"]. *)
Definition newline : string := String (ascii_of_nat 10) EmptyString.

(** [std::string(indent * 2, ' ')] *)
Fixpoint indent_string (indent : nat) : string :=
  match indent with
  | O => ""
  | S n => "  " ++ indent_string n
  end.

Definition join_type_string (jt : JoinType) : string :=
  match jt with
  | INNER => "INNER"
  | LEFT_OUTER => "LEFT"
  | RIGHT_OUTER => "RIGHT"
  | FULL_OUTER => "FULL"
  end.

(** The loop of [ProjectNode::to_string]: the projections separated by
    [", "]. *)
Fixpoint comma_separated (l : list string) : string :=
  match l with
  | [] => ""
  | [x] => x
  | x :: rest => x ++ ", " ++ comma_separated rest
  end.

(** [PlanNode::to_string(indent)] of the six node classes. *)
Fixpoint plan_to_string (p : PlanNode) (indent : nat) : string :=
  let first_child children :=
    match children with
    | c :: _ => plan_to_string c (S indent)
    | [] => ""
    end in
  let two_children children :=
    match children with
    | l :: r :: _ =>
        plan_to_string l (S indent) ++ newline ++ plan_to_string r (S indent)
    | _ => ""
    end in
  match p with
  | TableScanNode t a _ _ =>
      indent_string indent ++ "TableScan(" ++ t
        ++ (if String.eqb a "" then "" else " as " ++ a) ++ ")"
  | FilterNode c _ children =>
      indent_string indent ++ "Filter(" ++ c ++ ")" ++ newline
        ++ first_child children
  | ProjectNode l _ children =>
      indent_string indent ++ "Project(" ++ comma_separated l ++ ")" ++ newline
        ++ first_child children
  | NestedLoopJoinNode jt c _ children =>
      indent_string indent ++ "NestedLoopJoin(" ++ join_type_string jt ++ ", "
        ++ c ++ ")" ++ newline ++ two_children children
  | HashJoinNode jt c _ children =>
      indent_string indent ++ "HashJoin(" ++ join_type_string jt ++ ", "
        ++ c ++ ")" ++ newline ++ two_children children
  | SortMergeJoinNode jt c _ children =>
      indent_string indent ++ "SortMergeJoin(" ++ join_type_string jt ++ ", "
        ++ c ++ ")" ++ newline ++ two_children children
  end.

(** The text [expression_to_string] gives each select item. *)
Definition rendered_items (items : list SelectItem) : list string :=
  map (fun it => expression_to_string (expression it)) items.

(** [TableScan(name)] or [TableScan(name as alias)]: the line of a scan
    of the table reference. *)
Definition scan_text (t : TableReference) : string :=
  "TableScan(" ++ ref_table_name t
    ++ (if String.eqb (ref_alias t) "" then "" else " as " ++ ref_alias t)
    ++ ")".

(** ** Predicates and helpers for the further properties *)

(** What [execute] needs of a plan: the children each operator reads are
    there and every table scanned is in the catalog. *)
Fixpoint executable (tm : TableManager) (p : PlanNode) : bool :=
  let both children :=
    match children with
    | l :: r :: _ => executable tm l && executable tm r
    | _ => false
    end in
  match p with
  | TableScanNode n _ _ _ =>
      match get_table tm n with Some _ => true | None => false end
  | FilterNode _ _ children | ProjectNode _ _ children =>
      match children with
      | c :: _ => executable tm c
      | [] => false
      end
  | NestedLoopJoinNode _ _ _ children
  | HashJoinNode _ _ _ children
  | SortMergeJoinNode _ _ _ children => both children
  end.

(** A condition text none of the three recognised patterns occurs in. *)
Definition unrecognised (condition : string) : bool :=
  negb (contains condition "age > 25")
  && negb (contains condition "age < 30")
  && negb (contains condition "id = ").

(** [SELECT *]: the one select item the parser builds for a star. *)
Definition star_item (alias : string) : SelectItem :=
  mkSelectItem (ColumnExpression "" "*") alias.

(** The column name is one of the schema's. *)
Definition resolves (schema : TableSchema) (col : string) : bool :=
  match index_of col (column_names schema) 0 with
  | Some _ => true
  | None => false
  end.

Definition is_star (projection : string) : bool := String.eqb projection "*".

(** A schema with one type per column name, as [add_column] builds it. *)
Definition well_typed_schema (s : TableSchema) : Prop :=
  length (column_names s) = length (column_types s).

(** Rows that have one cell per column of the schema. *)
Definition aligned (s : TableSchema) (rows : list Row) : Prop :=
  Forall (fun r => Row_size r = column_count s) rows.

(** Every table of the catalog has a well-typed schema and aligned rows. *)
Definition catalog_aligned (tm : TableManager) : Prop :=
  forall n t, get_table tm n = Some t ->
              well_typed_schema (schema t) /\ aligned (schema t) (rows t).

(** [Row::set<T>(index, value)]: a row shorter than [index + 1] is
    resized with empty cells before the cell is assigned. *)
Definition Row_set (r : Row) (index : nat) (v : Value) : Row :=
  let cells :=
    if (length (values r) <=? index)%nat
    then (values r ++ repeat VEmpty (S index - length (values r)))%list
    else values r in
  mkRow (<[index := v]> cells).

(** [Table::clear] *)
Definition Table_clear (t : Table) : Table := mkTable (name t) (schema t) [].

Definition Table_row_count (t : Table) : nat := length (rows t).

(** [create_table] followed by one [add_row] per row. *)
Definition load_table (tm : TableManager) (n : string) (s : TableSchema)
    (new_rows : list Row) : TableManager :=
  fold_left (fun tm r => add_row_to tm n r) new_rows (create_table tm n s).

(** The statistics of every table are [size_t] values. *)
Definition stats_in_range (cm : CostModel) : Prop :=
  forall n st, table_stats cm !! n = Some st ->
               0 <= tuple_count st < 2 ^ 64 /\ 0 <= page_count_ts st < 2 ^ 64.

(** The children an operator reads: the first of a Filter or Project, the
    first two of a join that has them. *)
Definition read_children (p : PlanNode) : list PlanNode :=
  match p with
  | TableScanNode _ _ _ _ => []
  | FilterNode _ _ children | ProjectNode _ _ children =>
      match children with
      | c :: _ => [c]
      | [] => []
      end
  | NestedLoopJoinNode _ _ _ children
  | HashJoinNode _ _ _ children
  | SortMergeJoinNode _ _ _ children =>
      match children with
      | l :: r :: _ => [l; r]
      | _ => []
      end
  end.

(** No node of the plan scans table [t]. *)
Definition never_scans (t : string) (p : PlanNode) : Prop :=
  all_nodes (fun n => match n with
                      | TableScanNode t' _ _ _ => t' <> t
                      | _ => True
                      end) p.

(** [SELECT * FROM users JOIN orders ON users.id = orders.user_id] *)
Definition users_orders_statement : SelectStatement :=
  mkSelectStatement [star_item ""] (mkTableReference "users" "")
    [mkJoinClause JoinClauseType.INNER (mkTableReference "orders" "")
       (BinaryOpExpression (ColumnExpression "users" "id")
                           (ColumnExpression "orders" "user_id") EQUALS)]
    None.

(** The plan holds no hash join. *)
Definition without_hash_join (p : PlanNode) : Prop :=
  all_nodes (fun n => node_type n <> HASH_JOIN) p.

(** [WHERE id = n], as the parser hands it to the plan builder. *)
Definition id_equals (n : Z) : Expression :=
  BinaryOpExpression (ColumnExpression "" "id")
                     (LiteralExpression (to_string n)) EQUALS.

(** The rows whose [id] column holds the [int] [n]. *)
Definition has_id (schema : TableSchema) (n : Z) (row : Row) : bool :=
  match index_of "id" (column_names schema) 0 with
  | Some i =>
      match Row_get_int row i with
      | Ok v => v =? n
      | Throw _ => false
      end
  | None => false
  end.

(** Character [c] does not occur in [s]. *)
Fixpoint lacks (c : ascii) (s : string) : bool :=
  match s with
  | EmptyString => true
  | String d rest => negb (Ascii.eqb d c) && lacks c rest
  end.

(** The number a run of decimal digits denotes after the digits read so
    far denote [acc]. *)
Fixpoint uint_value (d : Decimal.uint) (acc : Z) : Z :=
  match d with
  | Decimal.Nil => acc
  | Decimal.D0 l => uint_value l (10 * acc + 0)
  | Decimal.D1 l => uint_value l (10 * acc + 1)
  | Decimal.D2 l => uint_value l (10 * acc + 2)
  | Decimal.D3 l => uint_value l (10 * acc + 3)
  | Decimal.D4 l => uint_value l (10 * acc + 4)
  | Decimal.D5 l => uint_value l (10 * acc + 5)
  | Decimal.D6 l => uint_value l (10 * acc + 6)
  | Decimal.D7 l => uint_value l (10 * acc + 7)
  | Decimal.D8 l => uint_value l (10 * acc + 8)
  | Decimal.D9 l => uint_value l (10 * acc + 9)
  end.

(** [WHERE t.age > 25...]: the comparison of the age column of table [t]
    (or of the unqualified column when [t] is empty) with a literal whose
    text starts with [25]. *)
Definition age_above_25 (t suffix : string) : Expression :=
  BinaryOpExpression (ColumnExpression t "age")
                     (LiteralExpression ("25" ++ suffix)) GREATER.

(** The rows whose [age] column holds an [int] above [n]. *)
Definition older_than (schema : TableSchema) (n : Z) (row : Row) : bool :=
  match index_of "age" (column_names schema) 0 with
  | Some i =>
      match Row_get_int row i with
      | Ok v => n <? v
      | Throw _ => false
      end
  | None => false
  end.

(** ** include/tokenizer.h *)

Module TokenType.

Inductive t : Type :=
| SELECT | FROM | WHERE | JOIN | INNER | LEFT | RIGHT | ON | AND | OR
| EQUALS | GREATER | LESS | GREATER_EQUAL | LESS_EQUAL | NOT_EQUAL
| IDENTIFIER | NUMBER | STRING
| COMMA | SEMICOLON | LEFT_PAREN | RIGHT_PAREN | DOT | ASTERISK
| END_OF_FILE | UNKNOWN.

Definition eq_dec (a b : t) : {a = b} + {a <> b}.
Proof. decide equality. Defined.

Definition eqb (a b : t) : bool := if eq_dec a b then true else false.

End TokenType.

Record Token : Type := mkToken {
  token_type : TokenType.t;
  token_value : string;
  token_position : nat
}.

(** ** src/tokenizer.cpp *)

(** [std::isdigit], [std::isalpha], [std::isalnum] and [::toupper] in the
    "C" locale. *)
Definition isdigit (c : ascii) : bool :=
  let n := nat_of_ascii c in (48 <=? n)%nat && (n <=? 57)%nat.

Definition isalpha (c : ascii) : bool :=
  let n := nat_of_ascii c in
  ((65 <=? n)%nat && (n <=? 90)%nat) || ((97 <=? n)%nat && (n <=? 122)%nat).

Definition isalnum (c : ascii) : bool := isalpha c || isdigit c.

Definition toupper (c : ascii) : ascii :=
  let n := nat_of_ascii c in
  if (97 <=? n)%nat && (n <=? 122)%nat then ascii_of_nat (n - 32) else c.

Fixpoint transform (f : ascii -> ascii) (s : string) : string :=
  match s with
  | EmptyString => EmptyString
  | String c rest => String (f c) (transform f rest)
  end.

Module Tokenizer.

(** The tokenizer reads [sql] from left to right and never looks back:
    its state is the part of [sql] from [current] on, which is what
    [peek], [advance] and [isAtEnd] see, and [current] itself. *)
Record t : Type := mk {
  unread : string;
  current : nat
}.

(** [Tokenizer::Tokenizer(sql_query)] *)
Definition new (sql_query : string) : t := mk sql_query 0.

(** [initKeywords] *)
Definition keywords : gmap string TokenType.t :=
  <["OR" := TokenType.OR]>
  (<["AND" := TokenType.AND]>
  (<["ON" := TokenType.ON]>
  (<["RIGHT" := TokenType.RIGHT]>
  (<["LEFT" := TokenType.LEFT]>
  (<["INNER" := TokenType.INNER]>
  (<["JOIN" := TokenType.JOIN]>
  (<["WHERE" := TokenType.WHERE]>
  (<["FROM" := TokenType.FROM]>
  (<["SELECT" := TokenType.SELECT]> ∅))))))))).

Definition isAtEnd (tk : t) : bool :=
  match unread tk with
  | EmptyString => true
  | String _ _ => false
  end.

Definition peek (tk : t) : ascii :=
  match unread tk with
  | EmptyString => zero
  | String c _ => c
  end.

Definition advance (tk : t) : ascii * t :=
  match unread tk with
  | EmptyString => (zero, tk)
  | String c rest => (c, mk rest (S (current tk)))
  end.

(** [while (!isAtEnd() && std::isspace(peek())) advance();] *)
Fixpoint skip_while (f : ascii -> bool) (s : string) (current : nat) : t :=
  match s with
  | EmptyString => mk s current
  | String c rest =>
      if f c then skip_while f rest (S current) else mk s current
  end.

Definition skipWhitespace (tk : t) : t :=
  skip_while isspace (unread tk) (current tk).

(** [while (!isAtEnd() && f(peek())) value += advance();] *)
Fixpoint read_while (f : ascii -> bool) (s : string) (current : nat)
    (value : string) : string * t :=
  match s with
  | EmptyString => (value, mk s current)
  | String c rest =>
      if f c then read_while f rest (S current) (value ++ String c "")
      else (value, mk s current)
  end.

Definition apostrophe : ascii := ascii_of_nat 39.

Definition parseString (tk : t) : Token * t :=
  let start := current tk in
  let tk := snd (advance tk) in
  let '(value, tk) :=
    read_while (fun c => negb (Ascii.eqb c apostrophe))
               (unread tk) (current tk) "" in
  let tk := if isAtEnd tk then tk else snd (advance tk) in
  (mkToken TokenType.STRING value start, tk).

Definition parseNumber (tk : t) : Token * t :=
  let start := current tk in
  let '(value, tk) :=
    read_while (fun c => isdigit c || Ascii.eqb c "."%char)
               (unread tk) (current tk) "" in
  (mkToken TokenType.NUMBER value start, tk).

Definition parseIdentifier (tk : t) : Token * t :=
  let start := current tk in
  let '(value, tk) :=
    read_while (fun c => isalnum c || Ascii.eqb c "_"%char)
               (unread tk) (current tk) "" in
  let upper_value := transform toupper value in
  let type :=
    match keywords !! upper_value with
    | Some ty => ty
    | None => TokenType.IDENTIFIER
    end in
  (mkToken type value start, tk).

Definition parseOperator (tk : t) : Token * t :=
  let start := current tk in
  let '(c, tk) := advance tk in
  let next_is (d : ascii) := negb (isAtEnd tk) && Ascii.eqb (peek tk) d in
  if Ascii.eqb c "="%char then (mkToken TokenType.EQUALS "=" start, tk)
  else if Ascii.eqb c ">"%char then
    if next_is "="%char
    then (mkToken TokenType.GREATER_EQUAL ">=" start, snd (advance tk))
    else (mkToken TokenType.GREATER ">" start, tk)
  else if Ascii.eqb c "<"%char then
    if next_is "="%char
    then (mkToken TokenType.LESS_EQUAL "<=" start, snd (advance tk))
    else if next_is ">"%char
    then (mkToken TokenType.NOT_EQUAL "<>" start, snd (advance tk))
    else (mkToken TokenType.LESS "<" start, tk)
  else if Ascii.eqb c ","%char then (mkToken TokenType.COMMA "," start, tk)
  else if Ascii.eqb c ";"%char then (mkToken TokenType.SEMICOLON ";" start, tk)
  else if Ascii.eqb c "("%char then (mkToken TokenType.LEFT_PAREN "(" start, tk)
  else if Ascii.eqb c ")"%char then (mkToken TokenType.RIGHT_PAREN ")" start, tk)
  else if Ascii.eqb c "."%char then (mkToken TokenType.DOT "." start, tk)
  else if Ascii.eqb c "*"%char then (mkToken TokenType.ASTERISK "*" start, tk)
  else (mkToken TokenType.UNKNOWN (String c "") start, tk).

Definition nextToken (tk : t) : Token * t :=
  let tk := skipWhitespace tk in
  if isAtEnd tk then (mkToken TokenType.END_OF_FILE "" (current tk), tk)
  else
    let c := peek tk in
    if Ascii.eqb c apostrophe then parseString tk
    else if isdigit c then parseNumber tk
    else if isalpha c || Ascii.eqb c "_"%char then parseIdentifier tk
    else parseOperator tk.

(** The loop of [tokenize].  A round that does not end the loop reads
    at least one character, so [rounds] need not exceed the length of
    the unread text. *)
Fixpoint tokenize_loop (rounds : nat) (tk : t) : list Token :=
  match rounds with
  | O => []
  | S rounds =>
      if isAtEnd tk then []
      else
        let '(token, tk) := nextToken tk in
        if TokenType.eqb (token_type token) TokenType.END_OF_FILE
        then [token]
        else token :: tokenize_loop rounds tk
  end.

Definition tokenize (tk : t) : list Token :=
  tokenize_loop (String.length (unread tk)) tk.

End Tokenizer.

(** ** include/parser.h, src/parser.cpp *)

Module Parser.

Record t : Type := mk {
  tokens : list Token;
  current : nat
}.

(** [Parser::Parser(token_list)] *)
Definition new (token_list : list Token) : t := mk token_list 0.

(** What a call does when it ends: it returns a value and leaves the
    parser in a new state, it throws, or it reads [tokens] outside its
    bounds, which is undefined behaviour. *)
Inductive outcome (A : Type) : Type :=
| Returns (a : A) (p : t)
| Throws (e : exn)
| Undefined.

Arguments Returns {A} a p.
Arguments Throws {A} e.
Arguments Undefined {A}.

(** The methods call each other without a measure that decreases, so
    each takes the depth of nested calls and loop rounds it may use;
    [None] says that the call has not ended within that depth. *)
Definition run (A : Type) : Type := option (outcome A).

Definition bind {A B : Type} (m : run A) (k : A -> t -> run B) : run B :=
  match m with
  | None => None
  | Some (Returns a p) => k a p
  | Some (Throws e) => Some (Throws e)
  | Some Undefined => Some Undefined
  end.

(** The same for the [const] methods, which leave the state alone. *)
Definition ask {A B : Type} (m : option A) (k : A -> run B) : run B :=
  match m with
  | None => None
  | Some a => k a
  end.

Notation "'call!' ( x , q ) <- m ; k" := (bind m (fun x q => k))
  (at level 10, x name, q name, m at level 100, k at level 200).
Notation "'ask!' x <- m ; k" := (ask m (fun x => k))
  (at level 10, x name, m at level 100, k at level 200).

(** [isAtEnd] and [peek] call each other. *)
Fixpoint isAtEnd (depth : nat) (p : t) : option bool :=
  match depth with
  | O => None
  | S depth =>
      if (length (tokens p) <=? current p)%nat then Some true
      else
        match peek depth p with
        | Some tok =>
            Some (TokenType.eqb (token_type tok) TokenType.END_OF_FILE)
        | None => None
        end
  end
with peek (depth : nat) (p : t) : option Token :=
  match depth with
  | O => None
  | S depth =>
      match isAtEnd depth p with
      | Some true =>
          Some (mkToken TokenType.END_OF_FILE "" (length (tokens p)))
      | Some false =>
          Some (nth (current p) (tokens p)
                    (mkToken TokenType.END_OF_FILE "" (length (tokens p))))
      | None => None
      end
  end.

(** [tokens[current - 1]]; [None] when the index is outside [tokens]. *)
Definition previous (p : t) : option Token :=
  match current p with
  | O => None
  | S i => nth_error (tokens p) i
  end.

Definition advance (depth : nat) (p : t) : run Token :=
  ask! at_end <- isAtEnd depth p;
  let p := if at_end then p else mk (tokens p) (S (current p)) in
  match previous p with
  | Some tok => Some (Returns tok p)
  | None => Some Undefined
  end.

Definition check (depth : nat) (p : t) (type : TokenType.t) : option bool :=
  match isAtEnd depth p with
  | None => None
  | Some true => Some false
  | Some false =>
      match peek depth p with
      | Some tok => Some (TokenType.eqb (token_type tok) type)
      | None => None
      end
  end.

Fixpoint match_ (depth : nat) (p : t) (types : list TokenType.t) : run bool :=
  match types with
  | [] => Some (Returns false p)
  | type :: rest =>
      ask! found <- check depth p type;
      if found then
        call! (_tok, p) <- advance depth p;
        Some (Returns true p)
      else match_ depth p rest
  end.

Definition consume (depth : nat) (p : t) (type : TokenType.t)
    (message : string) : run Token :=
  ask! found <- check depth p type;
  if found then advance depth p
  else
    ask! tok <- peek depth p;
    Some (Throws (runtime_error
                    ("Parse error: " ++ message ++ " at token: "
                       ++ token_value tok))).

Definition tokenToBinaryOp (type : TokenType.t) : result BinaryOperator :=
  match type with
  | TokenType.EQUALS => Ok EQUALS
  | TokenType.NOT_EQUAL => Ok NOT_EQUALS
  | TokenType.GREATER => Ok GREATER
  | TokenType.LESS => Ok LESS
  | TokenType.GREATER_EQUAL => Ok GREATER_EQUAL
  | TokenType.LESS_EQUAL => Ok LESS_EQUAL
  | TokenType.AND => Ok AND
  | TokenType.OR => Ok OR
  | _ => Throw (runtime_error "Invalid binary operator")
  end.

Definition parseColumnOrLiteral (depth : nat) (p : t) : run Expression :=
  ask! is_identifier <- check depth p TokenType.IDENTIFIER;
  if is_identifier then
    call! (first, p) <- advance depth p;
    call! (dot, p) <- match_ depth p [TokenType.DOT];
    if dot then
      call! (column, p) <- consume depth p TokenType.IDENTIFIER
                             "Expected column name after '.'";
      Some (Returns (ColumnExpression (token_value first)
                                      (token_value column)) p)
    else Some (Returns (ColumnExpression "" (token_value first)) p)
  else
    ask! is_number <- check depth p TokenType.NUMBER;
    ask! is_literal <- (if is_number then Some true
                        else check depth p TokenType.STRING);
    if is_literal then
      call! (tok, p) <- advance depth p;
      Some (Returns (LiteralExpression (token_value tok)) p)
    else Some (Throws (runtime_error "Expected identifier, number, or string")).

(** The body of the three [while (match({...}))] loops: the operator is
    the token just passed, [operand] parses the right-hand side. *)
Definition binary_step (operand : t -> run Expression) (expr : Expression)
    (p : t) (continue : Expression -> t -> run Expression) : run Expression :=
  match previous p with
  | None => Some Undefined
  | Some op =>
      call! (right, p) <- operand p;
      match tokenToBinaryOp (token_type op) with
      | Ok o => continue (BinaryOpExpression expr right o) p
      | Throw e => Some (Throws e)
      end
  end.

Definition comparison_operators : list TokenType.t :=
  [TokenType.GREATER; TokenType.GREATER_EQUAL; TokenType.LESS;
   TokenType.LESS_EQUAL; TokenType.EQUALS; TokenType.NOT_EQUAL].

Fixpoint parseExpression (depth : nat) (p : t) : run Expression :=
  match depth with
  | O => None
  | S depth => parseLogicalOr depth p
  end
with parseLogicalOr (depth : nat) (p : t) : run Expression :=
  match depth with
  | O => None
  | S depth =>
      call! (expr, p) <- parseLogicalAnd depth p;
      logical_or_loop depth expr p
  end
with logical_or_loop (depth : nat) (expr : Expression) (p : t)
    : run Expression :=
  match depth with
  | O => None
  | S depth =>
      call! (found, p) <- match_ depth p [TokenType.OR];
      if found
      then binary_step (parseLogicalAnd depth) expr p (logical_or_loop depth)
      else Some (Returns expr p)
  end
with parseLogicalAnd (depth : nat) (p : t) : run Expression :=
  match depth with
  | O => None
  | S depth =>
      call! (expr, p) <- parseComparison depth p;
      logical_and_loop depth expr p
  end
with logical_and_loop (depth : nat) (expr : Expression) (p : t)
    : run Expression :=
  match depth with
  | O => None
  | S depth =>
      call! (found, p) <- match_ depth p [TokenType.AND];
      if found
      then binary_step (parseComparison depth) expr p (logical_and_loop depth)
      else Some (Returns expr p)
  end
with parseComparison (depth : nat) (p : t) : run Expression :=
  match depth with
  | O => None
  | S depth =>
      call! (expr, p) <- parsePrimary depth p;
      comparison_loop depth expr p
  end
with comparison_loop (depth : nat) (expr : Expression) (p : t)
    : run Expression :=
  match depth with
  | O => None
  | S depth =>
      call! (found, p) <- match_ depth p comparison_operators;
      if found
      then binary_step (parsePrimary depth) expr p (comparison_loop depth)
      else Some (Returns expr p)
  end
with parsePrimary (depth : nat) (p : t) : run Expression :=
  match depth with
  | O => None
  | S depth =>
      call! (paren, p) <- match_ depth p [TokenType.LEFT_PAREN];
      if paren then
        call! (expr, p) <- parseExpression depth p;
        call! (_tok, p) <- consume depth p TokenType.RIGHT_PAREN
                             "Expected ')' after expression";
        Some (Returns expr p)
      else parseColumnOrLiteral depth p
  end.

Definition parseSelectItem (depth : nat) (p : t) : run SelectItem :=
  call! (star, p) <- match_ depth p [TokenType.ASTERISK];
  if star then Some (Returns (mkSelectItem (ColumnExpression "" "*") "") p)
  else
    call! (expr, p) <- parseExpression depth p;
    Some (Returns (mkSelectItem expr "") p).

Definition parseTableReference (depth : nat) (p : t) : run TableReference :=
  call! (name_token, p) <- consume depth p TokenType.IDENTIFIER
                             "Expected table name";
  ask! has_alias <- check depth p TokenType.IDENTIFIER;
  if has_alias then
    call! (alias_token, p) <- advance depth p;
    Some (Returns (mkTableReference (token_value name_token)
                                    (token_value alias_token)) p)
  else Some (Returns (mkTableReference (token_value name_token) "") p).

Definition parseJoinClause (depth : nat) (p : t) : run JoinClause :=
  call! (left, p) <- match_ depth p [TokenType.LEFT];
  call! (join_type, p) <-
    (if left then Some (Returns JoinClauseType.LEFT p)
     else
       call! (right, p) <- match_ depth p [TokenType.RIGHT];
       if right then Some (Returns JoinClauseType.RIGHT p)
       else
         call! (_inner, p) <- match_ depth p [TokenType.INNER];
         Some (Returns JoinClauseType.INNER p));
  call! (_join, p) <- consume depth p TokenType.JOIN "Expected JOIN keyword";
  call! (table, p) <- parseTableReference depth p;
  call! (_on, p) <- consume depth p TokenType.ON "Expected ON keyword";
  call! (condition, p) <- parseExpression depth p;
  Some (Returns (mkJoinClause join_type table condition) p).

(** [while (match({COMMA})) select_list.push_back(parseSelectItem());] *)
Fixpoint select_list_loop (depth : nat) (items : list SelectItem) (p : t)
    : run (list SelectItem) :=
  match depth with
  | O => None
  | S depth =>
      call! (comma, p) <- match_ depth p [TokenType.COMMA];
      if comma then
        call! (item, p) <- parseSelectItem depth p;
        select_list_loop depth (items ++ [item])%list p
      else Some (Returns items p)
  end.

(** [while (check(JOIN) || check(INNER) || check(LEFT) || check(RIGHT))
    joins.push_back(parseJoinClause());] *)
Fixpoint joins_loop (depth : nat) (js : list JoinClause) (p : t)
    : run (list JoinClause) :=
  match depth with
  | O => None
  | S depth =>
      ask! a <- check depth p TokenType.JOIN;
      ask! b <- (if a then Some true else check depth p TokenType.INNER);
      ask! c <- (if b then Some true else check depth p TokenType.LEFT);
      ask! d <- (if c then Some true else check depth p TokenType.RIGHT);
      if d then
        call! (j, p) <- parseJoinClause depth p;
        joins_loop depth (js ++ [j])%list p
      else Some (Returns js p)
  end.

Definition parseSelectStatement (depth : nat) (p : t) : run SelectStatement :=
  call! (_select, p) <- consume depth p TokenType.SELECT
                          "Expected SELECT keyword";
  call! (first, p) <- parseSelectItem depth p;
  call! (items, p) <- select_list_loop depth [first] p;
  call! (_from, p) <- consume depth p TokenType.FROM "Expected FROM keyword";
  call! (from, p) <- parseTableReference depth p;
  call! (js, p) <- joins_loop depth [] p;
  call! (has_where, p) <- match_ depth p [TokenType.WHERE];
  if has_where then
    call! (w, p) <- parseExpression depth p;
    Some (Returns (mkSelectStatement items from js (Some w)) p)
  else Some (Returns (mkSelectStatement items from js None) p).

End Parser.

(** No row has an [int] at index [k]. *)
Definition unkeyed (k : nat) (rows : list Row) : Prop :=
  Forall (fun r => forall z, Row_get_int r k <> Ok z) rows.

(** The plan with the annotations of every node ([output_schema], [stats],
    [cost]) reset to their defaults: what is left is the operators, their
    arguments and their children. *)
Fixpoint without_annotations (p : PlanNode) : PlanNode :=
  match p with
  | TableScanNode t a _ ch =>
      TableScanNode t a NodeInfo_default (map without_annotations ch)
  | FilterNode k _ ch =>
      FilterNode k NodeInfo_default (map without_annotations ch)
  | ProjectNode l _ ch =>
      ProjectNode l NodeInfo_default (map without_annotations ch)
  | NestedLoopJoinNode j k _ ch =>
      NestedLoopJoinNode j k NodeInfo_default (map without_annotations ch)
  | HashJoinNode j k _ ch =>
      HashJoinNode j k NodeInfo_default (map without_annotations ch)
  | SortMergeJoinNode j k _ ch =>
      SortMergeJoinNode j k NodeInfo_default (map without_annotations ch)
  end.

(** Two candidates with the same operators and the same estimate. *)
Definition same_candidate (c c' : PlanCandidate) : Prop :=
  without_annotations (plan c) = without_annotations (plan c')
  /\ candidate_cost c = candidate_cost c'.

(** ** Costs as the program computes them *)

(** The embedding reads a [double] as the real number it stands for.
    The program evaluates each cost in binary64, from non-negative terms
    by additions and multiplications that are each rounded to 53 bits, so
    that every operation moves the result by at most the fraction [2^-53]
    of its magnitude.  [near computed exact] allows for some 250 such
    roundings: [computed] differs from the real number [exact] by at most
    the fraction [2^-45] of its magnitude. *)
Definition near (computed exact : double) : Prop :=
  (Rabs (computed - exact) <= Rabs exact / 2 ^ 45)%R.

(** A candidate as the program holds it: the plan of [c] annotated with
    the cost the program computed, which is [near] the estimate of [c]. *)
Definition evaluated_as (c c' : PlanCandidate) : Prop :=
  plan c' = set_cost (plan c) (candidate_cost c')
  /\ near (total_cost (candidate_cost c')) (total_cost (candidate_cost c)).

(** * Properties *)

(** ** Cost annotation *)

Lemma CostEstimate_new_consistent (io cpu : double) :
  cost_consistent (CostEstimate_new io cpu).
Proof. reflexivity. Qed.

Lemma join_cost_of_consistent ty lc rc lt rt :
  cost_consistent (join_cost_of ty lc rc lt rt).
Proof. destruct ty; apply CostEstimate_new_consistent. Qed.

Lemma estimate_plan_cost_consistent (cm : CostModel) (p : PlanNode) :
  cost_consistent (estimate_plan_cost cm p).
Proof.
  destruct p as [t a i ch|k i ch|pl i ch|j k i ch|j k i ch|j k i ch]; simpl.
  - unfold estimate_table_scan_cost.
    destruct (table_stats cm !! t); apply CostEstimate_new_consistent.
  - destruct ch; apply CostEstimate_new_consistent.
  - destruct ch; apply CostEstimate_new_consistent.
  - destruct ch as [|l [|r ch]];
      first [apply join_cost_of_consistent | apply CostEstimate_new_consistent].
  - destruct ch as [|l [|r ch]];
      first [apply join_cost_of_consistent | apply CostEstimate_new_consistent].
  - destruct ch as [|l [|r ch]];
      first [apply join_cost_of_consistent | apply CostEstimate_new_consistent].
Qed.

Lemma node_info_set_cost p c :
  cost (node_info (set_cost p c)) = c.
Proof. destruct p; reflexivity. Qed.

Lemma node_children_set_cost p c :
  node_children (set_cost p c) = node_children p.
Proof. destruct p; reflexivity. Qed.

Lemma all_nodes_children P p : all_nodes P p -> Forall (all_nodes P) (node_children p).
Proof. by inversion 1. Qed.

Lemma all_nodes_set_cost p c :
  cost_consistent c ->
  all_nodes node_cost_consistent p ->
  all_nodes node_cost_consistent (set_cost p c).
Proof.
  intros Hc Hp. constructor.
  - unfold node_cost_consistent. by rewrite node_info_set_cost.
  - rewrite node_children_set_cost. by apply all_nodes_children.
Qed.

Lemma build_scan_node_consistent pb t :
  all_nodes node_cost_consistent (build_scan_node pb t).
Proof. constructor; [reflexivity | constructor]. Qed.

Lemma build_filter_node_consistent p e :
  all_nodes node_cost_consistent p ->
  all_nodes node_cost_consistent (build_filter_node p e).
Proof. intros Hp. constructor; [reflexivity | simpl; auto]. Qed.

Lemma build_project_node_consistent p items :
  all_nodes node_cost_consistent p ->
  all_nodes node_cost_consistent (build_project_node p items).
Proof. intros Hp. constructor; [reflexivity | simpl; auto]. Qed.

Lemma build_join_node_consistent l r j alg :
  all_nodes node_cost_consistent l ->
  all_nodes node_cost_consistent r ->
  all_nodes node_cost_consistent (build_join_node l r j alg).
Proof.
  intros Hl Hr.
  destruct alg; (constructor; [reflexivity | simpl; auto]).
Qed.

Lemma fold_joins_consistent pb js alg : forall p,
  all_nodes node_cost_consistent p ->
  all_nodes node_cost_consistent (fold_joins pb p js alg).
Proof.
  unfold fold_joins. induction js as [|j js IH]; intros p Hp; simpl; [done|].
  apply IH, build_join_node_consistent; [done | apply build_scan_node_consistent].
Qed.

Lemma apply_where_consistent p w :
  all_nodes node_cost_consistent p ->
  all_nodes node_cost_consistent (apply_where p w).
Proof. destruct w; simpl; [apply build_filter_node_consistent | done]. Qed.

Lemma finish_candidate_consistent o stmt p :
  all_nodes node_cost_consistent p ->
  all_nodes node_cost_consistent (plan (finish_candidate o stmt p)).
Proof.
  intros Hp. unfold finish_candidate. cbn [plan].
  apply all_nodes_set_cost; [apply estimate_plan_cost_consistent|].
  by apply build_project_node_consistent, apply_where_consistent.
Qed.

Lemma generate_all_plans_consistent o stmt :
  Forall (fun c => all_nodes node_cost_consistent (plan c)
                   /\ cost (node_info (plan c)) = candidate_cost c
                   /\ cost_consistent (candidate_cost c))
         (generate_all_plans o stmt).
Proof.
  assert (Hfin : forall p, all_nodes node_cost_consistent p ->
            all_nodes node_cost_consistent (plan (finish_candidate o stmt p))
            /\ cost (node_info (plan (finish_candidate o stmt p)))
               = candidate_cost (finish_candidate o stmt p)
            /\ cost_consistent (candidate_cost (finish_candidate o stmt p))).
  { intros p Hp. split; [by apply finish_candidate_consistent|].
    split; [apply node_info_set_cost | apply estimate_plan_cost_consistent]. }
  assert (Hfirst : Forall (fun c => all_nodes node_cost_consistent (plan c)
                   /\ cost (node_info (plan c)) = candidate_cost c
                   /\ cost_consistent (candidate_cost c))
            (map (fun algorithm =>
                    finish_candidate o stmt
                      (fold_joins (plan_builder o)
                         (build_scan_node (plan_builder o) (from_table stmt))
                         (joins stmt) algorithm)) join_algorithms)).
  { apply Forall_map, Forall_forall. intros alg _. apply Hfin.
    apply fold_joins_consistent, build_scan_node_consistent. }
  unfold generate_all_plans.
  destruct (joins stmt) as [|j [|j' js]] eqn:Hj; try exact Hfirst.
  apply Forall_app; split; [exact Hfirst|].
  apply Forall_map, Forall_forall. intros alg _. apply Hfin.
  apply build_join_node_consistent; apply build_scan_node_consistent.
Qed.

Lemma min_element_from_In best rest :
  In (min_element_from best rest) (best :: rest).
Proof.
  revert best. induction rest as [|c rest IH]; intros best; simpl; [by left|].
  destruct (Rlt_dec _ _).
  - right. apply IH.
  - destruct (IH best) as [Heq|H]; [left; exact Heq | right; right; exact H].
Qed.

Lemma build_plan_consistent pb stmt :
  all_nodes node_cost_consistent (build_plan pb stmt).
Proof.
  unfold build_plan.
  apply build_project_node_consistent, apply_where_consistent,
        fold_joins_consistent, build_scan_node_consistent.
Qed.

(** C2.  After cost annotation a plan's [cost] is the estimate the cost
    model returned and satisfies [total_cost = io_cost + cpu_cost]; this
    holds for the annotated root and for every other node of each plan
    that [generate_all_plans] or [optimize] returns. *)
Theorem cost_annotation_total_is_io_plus_cpu :
  (forall (cm : CostModel) (p : PlanNode),
      let annotated := set_cost p (estimate_plan_cost cm p) in
      cost (node_info annotated) = estimate_plan_cost cm p
      /\ total_cost (cost (node_info annotated))
         = (io_cost (cost (node_info annotated))
            + cpu_cost (cost (node_info annotated)))%R)
  /\ (forall (o : QueryOptimizer) (stmt : SelectStatement),
         Forall (fun c => all_nodes node_cost_consistent (plan c)
                          /\ cost_consistent (candidate_cost c))
                (generate_all_plans o stmt))
  /\ (forall (o : QueryOptimizer) (stmt : SelectStatement),
         match optimize o stmt with
         | Some p => all_nodes node_cost_consistent p
         | None => True
         end).
Proof.
  split; [|split].
  - intros cm p annotated. subst annotated. rewrite node_info_set_cost.
    split; [reflexivity | apply estimate_plan_cost_consistent].
  - intros o stmt.
    eapply Forall_impl; [apply generate_all_plans_consistent|].
    simpl. tauto.
  - intros o stmt. unfold optimize.
    assert (Hjoin : match optimize_join_query o stmt with
                    | Some p => all_nodes node_cost_consistent p
                    | None => True
                    end).
    { unfold optimize_join_query, select_best_plan.
      pose proof (generate_all_plans_consistent o stmt) as Hall.
      destruct (generate_all_plans o stmt) as [|c rest]; [done|].
      rewrite List.Forall_forall in Hall.
      apply (Hall _ (min_element_from_In c rest)). }
    destruct (joins stmt); [|exact Hjoin].
    unfold optimize_single_table, apply_filter_pushdown.
    apply all_nodes_set_cost;
      [apply estimate_plan_cost_consistent | apply build_plan_consistent].
Qed.

(** ** Join costs on the sample statistics *)

Lemma ln_2_pos : (0 < ln 2)%R.
Proof. rewrite <- ln_1. apply ln_increasing; lra. Qed.

Lemma log2_upper (x : R) (n : nat) :
  (0 < x)%R -> (x < 2 ^ n)%R -> (log2 x < INR n)%R.
Proof.
  intros Hx Hlt. unfold log2.
  apply (Rmult_lt_reg_r (ln 2)); [apply ln_2_pos|].
  replace (ln x / ln 2 * ln 2)%R with (ln x)
    by (field; apply Rgt_not_eq, ln_2_pos).
  rewrite <- ln_pow by lra. by apply ln_increasing.
Qed.

Lemma log2_lower (x : R) (n : nat) :
  (2 ^ n < x)%R -> (INR n < log2 x)%R.
Proof.
  intros Hlt. unfold log2.
  apply (Rmult_lt_reg_r (ln 2)); [apply ln_2_pos|].
  replace (ln x / ln 2 * ln 2)%R with (ln x)
    by (field; apply Rgt_not_eq, ln_2_pos).
  rewrite <- ln_pow by lra. apply ln_increasing; [apply pow_lt; lra | done].
Qed.

Lemma estimate_sort_cost_1000 :
  (45 < estimate_sort_cost 1000 < 50)%R.
Proof.
  unfold estimate_sort_cost, log2_safe. change (Z.leb 1000 1) with false. cbv iota.
  destruct (Rle_dec 1000 1) as [H|_]; [lra|].
  pose proof (log2_upper 1000 10 ltac:(lra) ltac:(lra)) as Hu.
  pose proof (log2_lower 1000 9 ltac:(lra)) as Hl.
  simpl INR in Hu, Hl.
  unfold CPU_OPERATOR_COST, MEMORY_SORT_COST. lra.
Qed.

Lemma estimate_sort_cost_5000 :
  (300 < estimate_sort_cost 5000 < 325)%R.
Proof.
  unfold estimate_sort_cost, log2_safe. change (Z.leb 5000 1) with false. cbv iota.
  destruct (Rle_dec 5000 1) as [H|_]; [lra|].
  pose proof (log2_upper 5000 13 ltac:(lra) ltac:(lra)) as Hu.
  pose proof (log2_lower 5000 12 ltac:(lra)) as Hl.
  simpl INR in Hu, Hl.
  unfold CPU_OPERATOR_COST, MEMORY_SORT_COST. lra.
Qed.

Section SampleStatistics.

Variable cm : CostModel.
Variables users_stats orders_stats : TableStatistics.

Hypothesis users_lookup : table_stats cm !! "users" = Some users_stats.
Hypothesis users_tuples : tuple_count users_stats = 1000.
Hypothesis users_pages : page_count_ts users_stats = 10.
Hypothesis orders_lookup : table_stats cm !! "orders" = Some orders_stats.
Hypothesis orders_tuples : tuple_count orders_stats = 5000.
Hypothesis orders_pages : page_count_ts orders_stats = 50.

Lemma users_scan_cost :
  estimate_plan_cost cm users_scan = CostEstimate_new 10%R 10%R.
Proof.
  simpl. unfold estimate_table_scan_cost.
  rewrite users_lookup, users_tuples, users_pages.
  unfold SEQUENTIAL_IO_COST, CPU_TUPLE_COST. f_equal; lra.
Qed.

Lemma orders_scan_cost :
  estimate_plan_cost cm orders_scan = CostEstimate_new 50%R 50%R.
Proof.
  simpl. unfold estimate_table_scan_cost.
  rewrite orders_lookup, orders_tuples, orders_pages.
  unfold SEQUENTIAL_IO_COST, CPU_TUPLE_COST. f_equal; lra.
Qed.

Lemma users_scan_cardinality : estimate_output_cardinality cm users_scan = 1000.
Proof. simpl. by rewrite users_lookup. Qed.

Lemma orders_scan_cardinality :
  estimate_output_cardinality cm orders_scan = 5000.
Proof. simpl. by rewrite orders_lookup. Qed.

(** The three join algorithms over (users, orders), in this order of
    the children. *)
Lemma sample_join_totals :
  total_cost (estimate_plan_cost cm (sample_join HASH_JOIN users_scan orders_scan))
    = 3630%R
  /\ total_cost (estimate_plan_cost cm
                   (sample_join NESTED_LOOP_JOIN users_scan orders_scan))
     = 412620%R
  /\ (480 < total_cost (estimate_plan_cost cm
                          (sample_join SORT_MERGE_JOIN users_scan orders_scan))
      < 510)%R.
Proof.
  unfold sample_join.
  cbn [estimate_plan_cost].
  rewrite users_scan_cost, orders_scan_cost,
          users_scan_cardinality, orders_scan_cardinality.
  unfold join_cost_of, estimate_hash_join_cost, estimate_nested_loop_cost,
         estimate_sort_merge_cost.
  change (Z.min 1000 5000) with 1000.
  change (Z.max 1000 5000) with 5000.
  change (Z.max 1 (1000 / 100)) with 10.
  change (Z.max 1 (5000 / 100)) with 50.
  change (size_mul 1000 50) with 50000.
  change (size_mul 1000 5000) with 5000000.
  change (size_add 1000 5000) with 6000.
  pose proof estimate_sort_cost_1000. pose proof estimate_sort_cost_5000.
  unfold RANDOM_IO_COST, CPU_OPERATOR_COST, HASH_BUILD_COST, HASH_PROBE_COST,
         SEQUENTIAL_IO_COST.
  cbn [total_cost io_cost cpu_cost CostEstimate_new].
  repeat split; lra.
Qed.

(** The same with the children swapped, as the second loop of
    [generate_all_plans] builds them. *)
Lemma sample_join_totals_swapped :
  total_cost (estimate_plan_cost cm (sample_join HASH_JOIN orders_scan users_scan))
    = 3630%R
  /\ total_cost (estimate_plan_cost cm
                   (sample_join NESTED_LOOP_JOIN orders_scan users_scan))
     = 412620%R
  /\ (480 < total_cost (estimate_plan_cost cm
                          (sample_join SORT_MERGE_JOIN orders_scan users_scan))
      < 510)%R.
Proof.
  unfold sample_join.
  cbn [estimate_plan_cost].
  rewrite users_scan_cost, orders_scan_cost,
          users_scan_cardinality, orders_scan_cardinality.
  unfold join_cost_of, estimate_hash_join_cost, estimate_nested_loop_cost,
         estimate_sort_merge_cost.
  change (Z.min 5000 1000) with 1000.
  change (Z.max 5000 1000) with 5000.
  change (Z.max 1 (1000 / 100)) with 10.
  change (size_mul 5000 10) with 50000.
  change (size_mul 5000 1000) with 5000000.
  change (size_add 5000 1000) with 6000.
  pose proof estimate_sort_cost_1000. pose proof estimate_sort_cost_5000.
  unfold RANDOM_IO_COST, CPU_OPERATOR_COST, HASH_BUILD_COST, HASH_PROBE_COST,
         SEQUENTIAL_IO_COST.
  cbn [total_cost io_cost cpu_cost CostEstimate_new].
  repeat split; lra.
Qed.

End SampleStatistics.

(** C1 (as the code has it).  With the sample statistics (users: 1000
    tuples on 10 pages, orders: 5000 tuples on 50 pages) the total costs of
    the three joins of the two scans are strictly ordered
    SortMergeJoin < HashJoin < NestedLoopJoin, for either order of the
    children: the hash join totals 3630, the nested loop 412620, the
    sort-merge join less than 510. *)
Theorem sample_join_cost_order
    (cm : CostModel) (users_stats orders_stats : TableStatistics) :
  table_stats cm !! "users" = Some users_stats ->
  tuple_count users_stats = 1000 ->
  page_count_ts users_stats = 10 ->
  table_stats cm !! "orders" = Some orders_stats ->
  tuple_count orders_stats = 5000 ->
  page_count_ts orders_stats = 50 ->
  let total algorithm l r :=
    total_cost (estimate_plan_cost cm (sample_join algorithm l r)) in
  (total SORT_MERGE_JOIN users_scan orders_scan
     < total HASH_JOIN users_scan orders_scan
     < total NESTED_LOOP_JOIN users_scan orders_scan)%R
  /\ (total SORT_MERGE_JOIN orders_scan users_scan
        < total HASH_JOIN orders_scan users_scan
        < total NESTED_LOOP_JOIN orders_scan users_scan)%R.
Proof.
  intros Hu Hut Hup Ho Hot Hop total. subst total. cbv beta.
  destruct (sample_join_totals cm _ _ Hu Hut Hup Ho Hot Hop) as (-> & -> & Hs).
  destruct (sample_join_totals_swapped cm _ _ Hu Hut Hup Ho Hot Hop)
    as (-> & -> & Hs').
  lra.
Qed.

Lemma sample_join_cost_order_witness :
  let total algorithm l r :=
    total_cost (estimate_plan_cost CostModel_new (sample_join algorithm l r)) in
  (total SORT_MERGE_JOIN users_scan orders_scan
     < total HASH_JOIN users_scan orders_scan
     < total NESTED_LOOP_JOIN users_scan orders_scan)%R
  /\ (total SORT_MERGE_JOIN orders_scan users_scan
        < total HASH_JOIN orders_scan users_scan
        < total NESTED_LOOP_JOIN orders_scan users_scan)%R.
Proof.
  eapply (sample_join_cost_order CostModel_new); reflexivity.
Defined.

(** C1 as the specification words it fails: on the sample statistics the
    hash join is not cheaper than the sort-merge join. *)
Lemma hash_join_not_below_sort_merge_on_sample :
  ~ (total_cost (estimate_plan_cost CostModel_new
                   (sample_join HASH_JOIN users_scan orders_scan))
     < total_cost (estimate_plan_cost CostModel_new
                     (sample_join SORT_MERGE_JOIN users_scan orders_scan))
     < total_cost (estimate_plan_cost CostModel_new
                     (sample_join NESTED_LOOP_JOIN users_scan orders_scan)))%R.
Proof.
  edestruct (sample_join_totals CostModel_new) as (-> & -> & Hs);
    [reflexivity .. |].
  lra.
Qed.

(** ** Hash join against nested loop *)


(** Two non-negative costs [a <= b], of which [b] is [s + t] with [s] at
    most [2^41], keep their order in any values computed for them when
    they are more than [1/8 + t/512] apart. *)
Lemma near_order_split (s t a b a' b' : R) :
  (0 <= s <= 2 ^ 41)%R -> (0 <= t)%R -> b = (s + t)%R ->
  (0 <= a)%R -> (a + / 8 + t / 512 <= b)%R ->
  near a' a -> near b' b -> (a' < b')%R.
Proof.
  unfold near. intros Hs Ht -> Ha Hab Ha' Hb'.
  rewrite (Rabs_pos_eq a) in Ha' by lra.
  rewrite (Rabs_pos_eq (s + t)) in Hb' by lra.
  revert Ha' Hb'. unfold Rabs.
  destruct (Rcase_abs (a' - a)), (Rcase_abs (b' - (s + t))); intros; lra.
Qed.








(** ** Plan enumeration *)

(** C6.  [generate_all_plans] returns six candidates for a statement with
    exactly one join and three for a statement without joins: the first
    loop runs once per join algorithm whatever the number of joins, so a
    join-free statement yields the same scan/filter/project candidate
    three times. *)
Theorem generate_all_plans_count :
  (forall (o : QueryOptimizer) (items : list SelectItem) (from : TableReference)
          (j : JoinClause) (w : option Expression),
      length (generate_all_plans o (mkSelectStatement items from [j] w)) = 6%nat)
  /\ (forall (o : QueryOptimizer) (items : list SelectItem)
             (from : TableReference) (w : option Expression),
         let stmt := mkSelectStatement items from [] w in
         let candidate :=
           finish_candidate o stmt (build_scan_node (plan_builder o) from) in
         generate_all_plans o stmt = [candidate; candidate; candidate]
         /\ length (generate_all_plans o stmt) = 3%nat
         /\ length (generate_join_orders (plan_builder o) stmt) = 1%nat).
Proof.
  split.
  - intros. reflexivity.
  - intros. repeat split.
Qed.

(** ** Strings *)

Lemma substring_length_bound (s : string) : forall p n,
  (String.length (String.substring p n s) <= String.length s - p)%nat.
Proof.
  induction s as [|a s IH]; intros [|p] [|n]; simpl; try lia.
  - specialize (IH 0%nat n). lia.
  - apply IH.
  - apply IH.
Qed.

Lemma substring_id_eq_tail (s : string) : forall q,
  String.substring q 5 s = "id = " -> String.substring (q + 3) 2 s = "= ".
Proof.
  induction s as [|a s IH]; intros [|q] H; simpl in *; try discriminate.
  - destruct s as [|b [|c [|d [|e s]]]]; simpl in H; try discriminate.
    injection H as _ _ -> -> ->. simpl. by destruct s.
  - by apply IH.
Qed.

(** Where ["id = "] occurs, ["= "] occurs as well and two characters
    follow its position: the [substr] of [evaluate_condition] is in range. *)
Lemma substr_after_eq_in_range (condition : string) :
  contains condition "id = " = true ->
  exists id_str, substr condition (find_plus_2 condition "= ") = Ok id_str.
Proof.
  unfold contains, find_plus_2, find. intros H.
  destruct (String.index 0 "id = " condition) as [q|] eqn:Hq; [|discriminate].
  apply index_correct1 in Hq.
  change (String.length "id = ") with 5%nat in Hq.
  apply substring_id_eq_tail in Hq.
  destruct (String.index 0 "= " condition) as [p|] eqn:Hp.
  - apply index_correct1 in Hp.
    change (String.length "= ") with 2%nat in Hp.
    pose proof (substring_length_bound condition p 2) as Hlen.
    rewrite Hp in Hlen. simpl in Hlen.
    unfold substr.
    destruct (String.length condition <? p + 2)%nat eqn:Hlt; [|eauto].
    apply Nat.ltb_lt in Hlt. lia.
  - exfalso.
    exact (index_correct3 0 (q + 3) "= " condition Hp
             ltac:(discriminate) ltac:(lia) Hq).
Qed.

(** ** Filter *)

Lemma evaluate_condition_ok (row : Row) (schema : TableSchema)
    (condition : string) :
  evaluate_condition row schema condition
  = Ok (condition_value row schema condition).
Proof.
  unfold condition_value, evaluate_condition.
  destruct (contains condition "age > 25"); [done|].
  destruct (contains condition "age < 30"); [done|].
  destruct (contains condition "id = ") eqn:Hid; [|done].
  destruct (substr_after_eq_in_range condition Hid) as [id_str ->]. done.
Qed.

Lemma filter_rows_ok (schema : TableSchema) (condition : string)
    (rows : list Row) :
  filter_rows schema condition rows
  = Ok (List.filter (fun row => condition_value row schema condition) rows).
Proof.
  induction rows as [|row rows IH]; simpl; [done|].
  rewrite evaluate_condition_ok, IH. simpl.
  by destruct (condition_value row schema condition).
Qed.

Lemma filter_result_ok (rs : ResultSet) (condition : string) :
  filter_result rs condition
  = Ok (mkResultSet (rs_schema rs)
          (List.filter (fun row => condition_value row (rs_schema rs) condition)
                       (rs_rows rs))).
Proof. unfold filter_result. by rewrite filter_rows_ok. Qed.

Lemma filter_filter {A : Type} (f : A -> bool) (l : list A) :
  List.filter f (List.filter f l) = List.filter f l.
Proof.
  induction l as [|x l IH]; simpl; [done|].
  destruct (f x) eqn:Hx; simpl; [rewrite Hx; by f_equal | done].
Qed.

(** C9.  Filtering twice with one condition gives the result of filtering
    once: the same schema and the same rows in the same order, or the same
    exception when the input plan fails. *)
Theorem filter_idempotent
    (tm : TableManager) (c : string) (i1 i2 : NodeInfo) (S : PlanNode)
    (rest1 rest2 : list PlanNode) :
  execute tm (FilterNode c i1 (FilterNode c i2 (S :: rest2) :: rest1))
  = execute tm (FilterNode c i2 (S :: rest2)).
Proof.
  cbn [execute].
  destruct (execute tm S) as [rs|e]; simpl; [|done].
  rewrite !filter_result_ok. simpl.
  rewrite filter_result_ok. simpl. by rewrite filter_filter.
Qed.

(** C10.  The recognizer tries its patterns in the order ["age > 25"],
    ["age < 30"], ["id = "], and the first one that occurs in the condition
    text decides the result: whatever else the text holds, a condition
    containing ["age > 25"] evaluates as ["age > 25"] alone; one without it
    that contains ["age < 30"] evaluates as ["age < 30"] alone; with neither,
    one containing ["id = "] compares the id column with the number that
    follows the first ["= "]. *)
Theorem first_matching_pattern_decides
    (row : Row) (schema : TableSchema) (c : string) :
  (contains c "age > 25" = true ->
   evaluate_condition row schema c = evaluate_condition row schema "age > 25")
  /\ (contains c "age > 25" = false -> contains c "age < 30" = true ->
      evaluate_condition row schema c
      = evaluate_condition row schema "age < 30")
  /\ (contains c "age > 25" = false -> contains c "age < 30" = false ->
      contains c "id = " = true ->
      exists id_str,
        substr c (find_plus_2 c "= ") = Ok id_str
        /\ evaluate_condition row schema c
           = Ok (try_catch
                   (try! id_idx <- get_column_index schema "id";
                    try! id <- Row_get_int row id_idx;
                    try! target_id <- stoi id_str;
                    Ok (id =? target_id))
                   false)).
Proof.
  repeat split.
  - intros H. unfold evaluate_condition. by rewrite H.
  - intros H1 H2. unfold evaluate_condition. by rewrite H1, H2.
  - intros H1 H2 H3.
    destruct (substr_after_eq_in_range c H3) as [id_str Hs].
    exists id_str. split; [done|].
    unfold evaluate_condition. by rewrite H1, H2, H3, Hs.
Qed.

Lemma first_matching_pattern_decides_witness :
  expression_to_string age_between = "((age > 25) AND (age < 30))"
  /\ evaluate_condition (users_row 15) users_schema
       (expression_to_string age_between) = Ok true
  /\ evaluate_condition (users_row 15) users_schema
       (expression_to_string age_between_swapped) = Ok true
  /\ evaluate_condition (users_row 15) users_schema "age < 30" = Ok false.
Proof.
  split; [reflexivity|]. split; [|split].
  - rewrite (proj1 (first_matching_pattern_decides
                      (users_row 15) users_schema
                      (expression_to_string age_between)) eq_refl).
    reflexivity.
  - rewrite (proj1 (first_matching_pattern_decides
                      (users_row 15) users_schema
                      (expression_to_string age_between_swapped)) eq_refl).
    reflexivity.
  - reflexivity.
Defined.

(** ** Rows that fail during filtering or key extraction *)








(** ** Projection *)

Lemma resolve_columns_none (schema : TableSchema) (cols : list string)
    (acc : list nat * TableSchema) :
  Forall (fun col => index_of col (column_names schema) 0 = None) cols ->
  resolve_columns schema cols acc = acc.
Proof.
  induction 1 as [|col cols Hcol _ IH]; simpl; [done|].
  unfold get_column_index. by rewrite Hcol.
Qed.

Lemma project_row_no_columns (row : Row) : project_row [] row = mkRow [].
Proof. reflexivity. Qed.

Lemma project_result_none (rs : ResultSet) (projection_list : list string) :
  projection_list <> ["*"] ->
  Forall (fun col => index_of col (column_names (rs_schema rs)) 0 = None)
         (parse_projections projection_list) ->
  project_result rs projection_list
  = mkResultSet TableSchema_empty (map (fun _ => mkRow []) (rs_rows rs)).
Proof.
  intros Hstar Hnone.
  assert (Hgen :
    (let columns := parse_projections projection_list in
     let '(column_indices, result_schema) :=
       resolve_columns (rs_schema rs) columns ([], TableSchema_empty) in
     mkResultSet result_schema
       (map (project_row column_indices) (rs_rows rs)))
    = mkResultSet TableSchema_empty (map (fun _ => mkRow []) (rs_rows rs))).
  { cbv zeta. by rewrite resolve_columns_none. }
  unfold project_result.
  destruct projection_list as [|p [|p' ps]]; try exact Hgen.
  destruct (String.eqb p "*") eqn:Hp; [|exact Hgen].
  apply String.eqb_eq in Hp. by subst.
Qed.

(** C8 (as the code has it).  A Project node whose projection list is not
    [["*"]] and none of whose projections names a column of the child's
    schema does not fail: over a child that returned a result it returns a
    result with an empty schema and one empty row per row of the child. *)
Theorem project_without_resolvable_columns
    (tm : TableManager) (projection_list : list string) (i : NodeInfo)
    (c : PlanNode) (rest : list PlanNode) (rs : ResultSet) :
  execute tm c = Ok rs ->
  projection_list <> ["*"] ->
  Forall (fun col => exists e, get_column_index (rs_schema rs) col = Throw e)
         (parse_projections projection_list) ->
  execute tm (ProjectNode projection_list i (c :: rest))
  = Ok (mkResultSet TableSchema_empty (map (fun _ => mkRow []) (rs_rows rs))).
Proof.
  intros Hc Hstar Hnone. cbn [execute]. rewrite Hc. simpl. f_equal.
  apply project_result_none; [done|].
  eapply Forall_impl; [exact Hnone|].
  intros col [e He]. unfold get_column_index in He.
  by destruct (index_of col (column_names (rs_schema rs)) 0).
Qed.

Lemma project_without_resolvable_columns_witness :
  execute mixed_tm
    (ProjectNode ["salary"; "people.name"] NodeInfo_default [people_scan])
  = Ok (mkResultSet TableSchema_empty
          (map (fun _ => mkRow []) people_rows)).
Proof.
  apply (project_without_resolvable_columns mixed_tm
           ["salary"; "people.name"] NodeInfo_default people_scan []
           (mkResultSet people_schema people_rows)).
  - reflexivity.
  - discriminate.
  - repeat constructor; by eexists.
Defined.

(** ** The sample tables *)

Lemma add_rows_lookup (n : string) (l : list Row) : forall tm t,
  tables tm !! n = Some t ->
  tables (fold_left (fun tm r => add_row_to tm n r) l tm) !! n
  = Some (mkTable (name t) (schema t) (rows t ++ l)).
Proof.
  induction l as [|r l IH]; intros tm t Ht; simpl.
  - rewrite app_nil_r. by destruct t.
  - rewrite (IH _ (Table_add_row t r)).
    + simpl. by rewrite <- app_assoc.
    + unfold add_row_to. simpl. rewrite lookup_alter_eq. by rewrite Ht.
Qed.

Lemma add_rows_other (n n' : string) (l : list Row) : forall tm,
  n <> n' ->
  tables (fold_left (fun tm r => add_row_to tm n r) l tm) !! n'
  = tables tm !! n'.
Proof.
  induction l as [|r l IH]; intros tm Hne; simpl; [done|].
  rewrite IH by done. unfold add_row_to. simpl. by rewrite lookup_alter_ne.
Qed.

Lemma fill_as_rows (tm : TableManager) (n : string) (mk : Z -> Row) (count : Z) :
  fill tm n mk count
  = fold_left (fun tm r => add_row_to tm n r) (map mk (seqZ 1 count)) tm.
Proof.
  unfold fill. generalize (seqZ 1 count). intros l. revert tm.
  induction l as [|i l IH]; intros tm; simpl; [done | apply IH].
Qed.

Lemma sample_users_table :
  get_table sample_tm "users" = Some (mkTable "users" users_schema sample_users).
Proof.
  unfold get_table, sample_tm, populate_sample_data.
  rewrite !fill_as_rows.
  rewrite add_rows_other by discriminate.
  unfold create_table at 1. cbn [tables].
  rewrite lookup_insert_ne by discriminate.
  rewrite (add_rows_lookup "users" _ _ (mkTable "users" users_schema []));
    [reflexivity|].
  unfold create_table. cbn [tables]. by rewrite lookup_insert_eq.
Qed.

Lemma sample_orders_table :
  get_table sample_tm "orders"
  = Some (mkTable "orders" orders_schema sample_orders).
Proof.
  unfold get_table, sample_tm, populate_sample_data.
  rewrite !fill_as_rows.
  rewrite (add_rows_lookup "orders" _ _ (mkTable "orders" orders_schema []));
    [reflexivity|].
  unfold create_table at 1. cbn [tables]. by rewrite lookup_insert_eq.
Qed.

Lemma sample_users_scan :
  execute sample_tm users_scan = Ok (mkResultSet users_schema sample_users).
Proof.
  unfold users_scan. cbn [execute]. unfold execute_table_scan.
  by rewrite sample_users_table.
Qed.

Lemma sample_orders_scan :
  execute sample_tm orders_scan = Ok (mkResultSet orders_schema sample_orders).
Proof.
  unfold orders_scan. cbn [execute]. unfold execute_table_scan.
  by rewrite sample_orders_table.
Qed.

Lemma execute_filter (tm : TableManager) (condition : string) (i : NodeInfo)
    (c : PlanNode) (rest : list PlanNode) (rs : ResultSet) :
  execute tm c = Ok rs ->
  execute tm (FilterNode condition i (c :: rest))
  = Ok (mkResultSet (rs_schema rs)
          (List.filter (fun row => condition_value row (rs_schema rs) condition)
                       (rs_rows rs))).
Proof. intros Hc. cbn [execute]. rewrite Hc. apply filter_result_ok. Qed.

Lemma execute_project (tm : TableManager) (projection_list : list string)
    (i : NodeInfo) (c : PlanNode) (rest : list PlanNode) (rs : ResultSet) :
  execute tm c = Ok rs ->
  execute tm (ProjectNode projection_list i (c :: rest))
  = Ok (project_result rs projection_list).
Proof. intros Hc. cbn [execute]. by rewrite Hc. Qed.

(** C8 as the specification words it fails: projecting the sample users
    on a column the table does not have returns a result, one empty row
    per user, instead of an error. *)
Lemma project_unknown_column_returns_rows :
  execute sample_tm (ProjectNode ["salary"] NodeInfo_default [users_scan])
  = Ok (mkResultSet TableSchema_empty (map (fun _ => mkRow []) sample_users)).
Proof.
  rewrite (execute_project _ _ _ _ _ _ sample_users_scan). apply f_equal.
  apply project_result_none; [discriminate|].
  repeat constructor.
Qed.

(** ** The first scenario: users older than 25 *)

Lemma filter_map_comm {A B : Type} (f : B -> bool) (g : A -> B) (l : list A) :
  List.filter f (map g l) = map g (List.filter (fun a => f (g a)) l).
Proof.
  induction l as [|a l IH]; simpl; [done|].
  destruct (f (g a)); simpl; by rewrite IH.
Qed.

Lemma age_condition_on_user (i : Z) :
  condition_value (users_row i) users_schema "age > 25" = (25 <? age_of i).
Proof. reflexivity. Qed.

Lemma age_filter_result :
  execute sample_tm age_filter_plan
  = Ok (mkResultSet users_schema (map users_row older_than_25)).
Proof.
  unfold age_filter_plan.
  rewrite (execute_filter _ _ _ _ _ _ sample_users_scan).
  cbn [rs_schema rs_rows]. unfold sample_users, older_than_25.
  rewrite filter_map_comm.
  by rewrite (List.filter_ext _ (fun i => 25 <? age_of i) age_condition_on_user).
Qed.

Lemma older_than_25_length : length older_than_25 = 880%nat.
Proof. vm_compute. reflexivity. Qed.

Lemma name_age_of_user (i : Z) :
  project_row [1%nat; 2%nat] (users_row i)
  = mkRow [VString ("User" ++ to_string i); VInt (age_of i)].
Proof. reflexivity. Qed.

Lemma name_age_result :
  execute sample_tm name_age_plan
  = Ok (mkResultSet
          (mkTableSchema ["name"; "age"] ["string"; "int"])
          (map (fun i => mkRow [VString ("User" ++ to_string i);
                                VInt (age_of i)])
               older_than_25)).
Proof.
  unfold name_age_plan.
  rewrite (execute_project _ _ _ _ _ _ age_filter_result).
  change (project_result
            (mkResultSet users_schema (map users_row older_than_25))
            ["name"; "age"])
    with (mkResultSet (mkTableSchema ["name"; "age"] ["string"; "int"])
            (map (project_row [1%nat; 2%nat]) (map users_row older_than_25))).
  by rewrite map_map.
Qed.

Lemma age_filter_size :
  result_size (execute sample_tm age_filter_plan) = Some 880.
Proof.
  rewrite age_filter_result. unfold result_size, rs_size. cbn [rs_rows].
  by rewrite length_map, older_than_25_length.
Qed.

(** C4 (as the code has it).  Over the sample users the filter
    ["age > 25"] returns, in table order, exactly the rows of the users
    [i] in 1..1000 with [20 + i % 50 > 25]; there are 880 of them; the
    projection on name and age of that result has the schema
    [name:string, age:int] and the same number of rows. *)
Theorem age_filter_over_sample_users :
  execute sample_tm age_filter_plan
  = Ok (mkResultSet users_schema (map users_row older_than_25))
  /\ older_than_25 = List.filter (fun i => 25 <? age_of i) (seqZ 1 1000)
  /\ result_size (execute sample_tm age_filter_plan) = Some 880
  /\ execute sample_tm name_age_plan
     = Ok (mkResultSet
             (mkTableSchema ["name"; "age"] ["string"; "int"])
             (map (fun i => mkRow [VString ("User" ++ to_string i);
                                   VInt (age_of i)])
                  older_than_25))
  /\ result_size (execute sample_tm name_age_plan) = Some 880.
Proof.
  split; [apply age_filter_result|].
  split; [reflexivity|].
  split; [apply age_filter_size|].
  split; [apply name_age_result|].
  rewrite name_age_result. unfold result_size, rs_size. cbn [rs_rows].
  by rewrite length_map, older_than_25_length.
Qed.

(** C4 as the specification words it fails: the filtered scan does not
    return 900 rows. *)
Lemma age_filter_does_not_return_900 :
  ~ (exists rs, execute sample_tm age_filter_plan = Ok rs
                /\ rs_size rs = 900%nat).
Proof.
  intros (rs & Hrs & Hsize).
  pose proof age_filter_size as H.
  rewrite Hrs in H. unfold result_size in H. rewrite Hsize in H.
  assert (Z.of_nat 900 = 880) by congruence. lia.
Qed.

(** ** Hash join *)

Lemma hash_build_fold (left_rows : list Row) : forall (ht : gmap Z (list Row)) k,
  default [] (fold_left
                (fun hash_table row =>
                   match Row_get_int row 0 with
                   | Ok key =>
                       <[key := (default [] (hash_table !! key) ++ [row])%list]>
                         hash_table
                   | Throw _ => hash_table
                   end)
                left_rows ht !! k)
  = (default [] (ht !! k)
     ++ List.filter (fun l => match Row_get_int l 0 with
                              | Ok k' => k' =? k
                              | Throw _ => false
                              end) left_rows)%list.
Proof.
  induction left_rows as [|row rest IH]; intros ht k; simpl.
  - by rewrite app_nil_r.
  - rewrite IH. destruct (Row_get_int row 0) as [key|e]; [|done].
    destruct (Z.eqb_spec key k) as [->|Hne].
    + rewrite lookup_insert_eq. simpl. by rewrite <- app_assoc.
    + by rewrite lookup_insert_ne.
Qed.

(** A probe returns the right row joined with each left row of equal
    key, in the order of the left input. *)
Lemma hash_probe_build (left_rows : list Row) (right_row : Row) :
  hash_probe (hash_build left_rows) right_row
  = map (fun left_row => join_rows left_row right_row)
        (matching_left_rows left_rows right_row).
Proof.
  unfold hash_probe, matching_left_rows.
  destruct (Row_get_int right_row 1) as [key|e]; [|done].
  pose proof (hash_build_fold left_rows ∅ key) as H.
  rewrite lookup_empty in H. simpl in H. fold (hash_build left_rows) in H.
  rewrite <- H. by destruct (hash_build left_rows !! key).
Qed.

Lemma hash_join_rows (l r : ResultSet) :
  rs_rows (hash_join_result l r)
  = flat_map
      (fun right_row =>
         map (fun left_row => join_rows left_row right_row)
             (matching_left_rows (rs_rows l) right_row))
      (rs_rows r).
Proof.
  unfold hash_join_result. cbn [rs_rows].
  apply flat_map_ext. intros right_row. apply hash_probe_build.
Qed.

Lemma filter_eqb_absent (k : Z) (l : list Z) :
  ~ In k l -> List.filter (fun j => j =? k) l = [].
Proof.
  induction l as [|a l IH]; simpl; [done|]. intros Hn.
  destruct (Z.eqb_spec a k) as [->|_]; [tauto|]. apply IH. tauto.
Qed.

Lemma filter_eqb_NoDup (k : Z) (l : list Z) :
  List.NoDup l -> In k l -> List.filter (fun j => j =? k) l = [k].
Proof.
  induction 1 as [|a l Ha Hl IH]; simpl; [done|]. intros Hin.
  destruct (Z.eqb_spec a k) as [->|Hne].
  - by rewrite filter_eqb_absent.
  - apply IH. destruct Hin; [done | assumption].
Qed.

Lemma filter_eqb_seqZ (m n k : Z) :
  m <= k < m + n -> List.filter (fun j => j =? k) (seqZ m n) = [k].
Proof.
  intros Hk. apply filter_eqb_NoDup.
  - apply NoDup_ListNoDup, NoDup_seqZ.
  - apply list_elem_of_In, elem_of_seqZ. lia.
Qed.

Lemma user_key (i : Z) : Row_get_int (users_row i) 0 = Ok i.
Proof. reflexivity. Qed.

Lemma order_key (i : Z) : Row_get_int (orders_row i) 1 = Ok (Z.rem i 1000 + 1).
Proof. reflexivity. Qed.

Lemma order_key_range (i : Z) : 0 <= i -> 1 <= Z.rem i 1000 + 1 <= 1000.
Proof. intros Hi. pose proof (Z.rem_bound_pos i 1000 Hi ltac:(lia)). lia. Qed.

(** Each sample order joins with exactly one sample user. *)
Lemma matching_user_of_order (i : Z) :
  0 <= i ->
  matching_left_rows sample_users (orders_row i)
  = [users_row (Z.rem i 1000 + 1)].
Proof.
  intros Hi. unfold matching_left_rows, sample_users. rewrite order_key.
  rewrite filter_map_comm.
  rewrite (List.filter_ext _ (fun j => j =? Z.rem i 1000 + 1))
    by (intros j; by rewrite user_key).
  rewrite filter_eqb_seqZ by (pose proof (order_key_range i Hi); lia).
  reflexivity.
Qed.

Lemma flat_map_singletons {A B : Type} (f : A -> list B) (h : A -> B)
    (l : list A) :
  Forall (fun x => f x = [h x]) l -> flat_map f l = map h l.
Proof. induction 1 as [|x l Hx _ IH]; simpl; [done|]. by rewrite Hx, IH. Qed.

Lemma sample_hash_join_rows :
  rs_rows (hash_join_result (mkResultSet users_schema sample_users)
                            (mkResultSet orders_schema sample_orders))
  = map (fun i => join_rows (users_row (Z.rem i 1000 + 1)) (orders_row i))
        (seqZ 1 5000).
Proof.
  rewrite hash_join_rows. cbn [rs_rows]. unfold sample_orders at 1.
  rewrite flat_map_concat_map, map_map, <- flat_map_concat_map.
  apply flat_map_singletons, Forall_seqZ. intros i Hi.
  rewrite matching_user_of_order by lia. reflexivity.
Qed.

(** ** Sort-merge join *)

Lemma key_less_keyed (k : nat) (a b : Row) :
  (exists x, Row_get_int a k = Ok x) ->
  (exists y, Row_get_int b k = Ok y) ->
  key_less k a b = (key_of k a <? key_of k b).
Proof.
  intros [x Hx] [y Hy]. unfold key_less, key_of. by rewrite Hx, Hy.
Qed.

Lemma sort_insert_Permutation (less : Row -> Row -> bool) (x : Row)
    (l : list Row) :
  Permutation (x :: l) (sort_insert less x l).
Proof.
  induction l as [|y l IH]; simpl; [done|].
  destruct (less x y); [done|].
  rewrite perm_swap. by constructor.
Qed.

Lemma std_sort_Permutation (less : Row -> Row -> bool) (l : list Row) :
  Permutation l (std_sort less l).
Proof.
  unfold std_sort.
  assert (H : forall acc, Permutation (acc ++ l)
                (fold_left (fun sorted x => sort_insert less x sorted) l acc)).
  { induction l as [|x l IH]; intros acc; simpl.
    - by rewrite app_nil_r.
    - rewrite <- IH. rewrite <- sort_insert_Permutation.
      simpl. symmetry. apply Permutation_middle. }
  apply (H []).
Qed.

Lemma sort_insert_ascending (k : nat) (x : Row) (l : list Row) :
  (exists z, Row_get_int x k = Ok z) ->
  keyed k l -> ascending k l ->
  ascending k (sort_insert (key_less k) x l).
Proof.
  intros Hx Hl Hs. unfold ascending in *.
  induction Hs as [|y l Hs IH Hy]; simpl.
  - repeat constructor.
  - inversion Hl as [|? ? Hky Hkl]; subst.
    rewrite (key_less_keyed k x y Hx Hky).
    destruct (Z.ltb_spec (key_of k x) (key_of k y)) as [Hlt|Hge].
    + constructor; [by constructor|].
      constructor; [lia|].
      eapply Forall_impl; [exact Hy|]. simpl. intros b Hb. lia.
    + constructor; [by apply IH|].
      rewrite <- sort_insert_Permutation. by constructor.
Qed.

Lemma std_sort_ascending (k : nat) (l : list Row) :
  keyed k l -> ascending k (std_sort (key_less k) l).
Proof.
  unfold std_sort. intros Hl.
  assert (H : forall acc, keyed k acc -> ascending k acc ->
            ascending k
              (fold_left (fun sorted x => sort_insert (key_less k) x sorted)
                         l acc)).
  { induction Hl as [|x l Hx Hl IH]; intros acc Hacc Hs; simpl; [done|].
    apply IH.
    - unfold keyed. rewrite <- sort_insert_Permutation. by constructor.
    - by apply sort_insert_ascending. }
  apply H; constructor.
Qed.

Lemma merge_loop_step (l r : Row) (ls rs : list Row) :
  merge_loop (l :: ls) (r :: rs)
  = match (try! left_key <- Row_get_int l 0;
           try! right_key <- Row_get_int r 1;
           Ok (left_key, right_key)) with
    | Ok (left_key, right_key) =>
        if left_key =? right_key
        then join_rows l r :: merge_loop (l :: ls) rs
        else if left_key <? right_key
             then merge_loop ls (r :: rs)
             else merge_loop (l :: ls) rs
    | Throw _ => merge_loop ls (r :: rs)
    end.
Proof. reflexivity. Qed.

Lemma merge_loop_nil_r (ls : list Row) : merge_loop ls [] = [].
Proof. by destruct ls. Qed.

(** With distinct ascending keys on the left and ascending keys on the
    right, the merge emits one row for every right row whose key occurs
    on the left. *)
Lemma merge_loop_count (left_rows : list Row) :
  keyed 0 left_rows ->
  StronglySorted (fun a b => key_of 0 a < key_of 0 b) left_rows ->
  forall right_rows,
    keyed 1 right_rows -> ascending 1 right_rows ->
    length (merge_loop left_rows right_rows)
    = length (List.filter (joins_some left_rows) right_rows).
Proof.
  intros HkL HsL.
  induction HsL as [|l ls HsL IHL Hl]; intros right_rows HkR HsR.
  - simpl. change (joins_some []) with (fun _ : Row => false).
    by rewrite List.filter_false.
  - inversion HkL as [|? ? [kl Hkl] HkL']; subst.
    specialize (IHL HkL').
    induction HsR as [|r rs HsR IHR Hr]; [by rewrite merge_loop_nil_r|].
    inversion HkR as [|? ? [kr Hkr] HkR']; subst.
    specialize (IHR HkR').
    assert (Hkl' : key_of 0 l = kl) by (unfold key_of; by rewrite Hkl).
    assert (Hkr' : key_of 1 r = kr) by (unfold key_of; by rewrite Hkr).
    rewrite merge_loop_step, Hkl, Hkr. cbn [rbind].
    destruct (Z.eqb_spec kl kr) as [Heq|Hne].
    + (* equal keys: emit and advance the right cursor *)
      assert (Hyes : joins_some (l :: ls) r = true).
      { unfold joins_some. cbn [existsb].
        by rewrite Hkl', Hkr', (proj2 (Z.eqb_eq kl kr) Heq). }
      cbn [List.filter length]. rewrite Hyes. cbn [length].
      by rewrite IHR.
    + destruct (Z.ltb_spec kl kr) as [Hlt|Hge].
      * (* the left key is smaller: advance the left cursor *)
        rewrite (IHL (r :: rs)) by (done || by constructor).
        f_equal. apply List.filter_ext_in. intros r' Hr'.
        unfold joins_some. simpl.
        assert (kr <= key_of 1 r').
        { destruct Hr' as [<-|Hin]; [lia|].
          rewrite List.Forall_forall in Hr. specialize (Hr _ Hin). lia. }
        rewrite Hkl'. by destruct (Z.eqb_spec kl (key_of 1 r')); [lia|].
      * (* the right key is smaller: advance the right cursor *)
        rewrite IHR. cbn [List.filter].
        assert (Hno : joins_some (l :: ls) r = false).
        { unfold joins_some. simpl. rewrite Hkl', Hkr'.
          destruct (Z.eqb_spec kl kr); [done|]. simpl.
          destruct (existsb _ ls) eqn:Hex; [|done].
          apply existsb_exists in Hex as (l' & Hin & Heq).
          rewrite List.Forall_forall in Hl. specialize (Hl _ Hin).
          apply Z.eqb_eq in Heq. lia. }
        by rewrite Hno.
Qed.

Lemma strict_of_ascending_NoDup (k : nat) (l : list Row) :
  ascending k l -> List.NoDup (map (key_of k) l) ->
  StronglySorted (fun a b => key_of k a < key_of k b) l.
Proof.
  unfold ascending. induction 1 as [|a l Hs IH Ha]; intros Hnd; simpl in Hnd.
  - constructor.
  - apply List.NoDup_cons_iff in Hnd as [Hnotin Hnd].
    constructor; [by apply IH|].
    rewrite List.Forall_forall in Ha. apply List.Forall_forall. intros b Hb.
    specialize (Ha b Hb).
    assert (key_of k a <> key_of k b).
    { intros Heq. apply Hnotin. rewrite Heq. by apply in_map. }
    lia.
Qed.

(** ** The second scenario: users joined with orders *)

Lemma sample_users_keyed : keyed 0 sample_users.
Proof.
  apply List.Forall_map, List.Forall_forall. intros i _.
  eexists. apply user_key.
Qed.

Lemma sample_orders_keyed : keyed 1 sample_orders.
Proof.
  apply List.Forall_map, List.Forall_forall. intros i _.
  eexists. apply order_key.
Qed.

Lemma sample_user_keys : map (key_of 0) sample_users = seqZ 1 1000.
Proof.
  unfold sample_users. rewrite map_map.
  rewrite (map_ext _ (fun i => i)) by done. apply map_id.
Qed.

Lemma sample_users_length : Z.of_nat (length sample_users) = 1000.
Proof. unfold sample_users. rewrite length_map, length_seqZ. lia. Qed.

Lemma sample_orders_length : Z.of_nat (length sample_orders) = 5000.
Proof. unfold sample_orders. rewrite length_map, length_seqZ. lia. Qed.

Lemma sample_order_joins_some (left_rows : list Row) (r : Row) :
  Permutation sample_users left_rows -> In r sample_orders ->
  joins_some left_rows r = true.
Proof.
  intros HL Hr. unfold sample_orders in Hr.
  apply in_map_iff in Hr as (i & <- & Hi).
  apply list_elem_of_In, elem_of_seqZ in Hi.
  apply existsb_exists. exists (users_row (Z.rem i 1000 + 1)). split.
  - apply (Permutation_in _ HL). unfold sample_users. apply in_map.
    apply list_elem_of_In, elem_of_seqZ.
    pose proof (order_key_range i ltac:(lia)). lia.
  - apply Z.eqb_eq. reflexivity.
Qed.

Lemma filter_all {A : Type} (f : A -> bool) (l : list A) :
  (forall x, In x l -> f x = true) -> List.filter f l = l.
Proof.
  induction l as [|x l IH]; intros H; simpl; [done|].
  rewrite (H x) by (by left). f_equal. apply IH. intros y Hy. apply H. by right.
Qed.

(** Whatever order [std::sort] leaves rows of equal key in, the merge of
    the sorted sample tables emits one row per order. *)
Lemma sort_merge_count_any_order (left_rows right_rows : list Row) :
  Permutation sample_users left_rows ->
  Permutation sample_orders right_rows ->
  ascending 0 left_rows -> ascending 1 right_rows ->
  length (merge_loop left_rows right_rows) = length sample_orders.
Proof.
  intros HL HR HsL HsR.
  assert (HkL : keyed 0 left_rows).
  { unfold keyed. rewrite <- HL. apply sample_users_keyed. }
  assert (HkR : keyed 1 right_rows).
  { unfold keyed. rewrite <- HR. apply sample_orders_keyed. }
  assert (Hstrict : StronglySorted (fun a b => key_of 0 a < key_of 0 b)
                                   left_rows).
  { apply strict_of_ascending_NoDup; [done|].
    apply (Permutation_NoDup (l := map (key_of 0) sample_users)).
    - by apply Permutation_map.
    - rewrite sample_user_keys. apply NoDup_ListNoDup, NoDup_seqZ. }
  rewrite (merge_loop_count left_rows HkL Hstrict right_rows HkR HsR).
  rewrite filter_all.
  - symmetry. by apply Permutation_length.
  - intros r Hr. apply sample_order_joins_some; [done|].
    apply (Permutation_in _ (Permutation_sym HR) Hr).
Qed.

Lemma nested_loop_size (l r : ResultSet) :
  rs_size (nested_loop_result l r) = (rs_size l * rs_size r)%nat.
Proof.
  unfold rs_size, nested_loop_result. simpl.
  induction (rs_rows l) as [|x xs IH]; simpl; [done|].
  by rewrite length_app, length_map, IH.
Qed.

Lemma execute_hash_join (tm : TableManager) (jt : JoinType) (c : string)
    (i : NodeInfo) (l r : PlanNode) (rest : list PlanNode)
    (lrs rrs : ResultSet) :
  execute tm l = Ok lrs ->
  execute tm r = Ok rrs ->
  execute tm (HashJoinNode jt c i (l :: r :: rest))
  = Ok (mkResultSet (join_schema (rs_schema lrs) (rs_schema rrs))
                    (rs_rows (hash_join_result lrs rrs))).
Proof. intros Hl Hr. cbn [execute]. by rewrite Hl, Hr. Qed.

Lemma execute_sort_merge_join (tm : TableManager) (jt : JoinType) (c : string)
    (i : NodeInfo) (l r : PlanNode) (rest : list PlanNode)
    (lrs rrs : ResultSet) :
  execute tm l = Ok lrs ->
  execute tm r = Ok rrs ->
  execute tm (SortMergeJoinNode jt c i (l :: r :: rest))
  = Ok (mkResultSet
          (join_schema (rs_schema lrs) (rs_schema rrs))
          (merge_loop (std_sort (key_less 0) (rs_rows lrs))
                      (std_sort (key_less 1) (rs_rows rrs)))).
Proof. intros Hl Hr. cbn [execute]. by rewrite Hl, Hr. Qed.

Lemma execute_nested_loop_join (tm : TableManager) (jt : JoinType) (c : string)
    (i : NodeInfo) (l r : PlanNode) (rest : list PlanNode)
    (lrs rrs : ResultSet) :
  execute tm l = Ok lrs ->
  execute tm r = Ok rrs ->
  execute tm (NestedLoopJoinNode jt c i (l :: r :: rest))
  = Ok (nested_loop_result lrs rrs).
Proof. intros Hl Hr. cbn [execute]. by rewrite Hl, Hr. Qed.

Lemma sample_hash_join :
  execute sample_tm (sample_join HASH_JOIN users_scan orders_scan)
  = Ok (mkResultSet
          (join_schema users_schema orders_schema)
          (map (fun i => join_rows (users_row (Z.rem i 1000 + 1))
                                   (orders_row i))
               (seqZ 1 5000))).
Proof.
  rewrite <- sample_hash_join_rows.
  exact (execute_hash_join sample_tm INNER users_orders_condition
           NodeInfo_default users_scan orders_scan []
           (mkResultSet users_schema sample_users)
           (mkResultSet orders_schema sample_orders)
           sample_users_scan sample_orders_scan).
Qed.

Lemma sample_sort_merge_join :
  execute sample_tm (sample_join SORT_MERGE_JOIN users_scan orders_scan)
  = Ok (mkResultSet
          (join_schema users_schema orders_schema)
          (merge_loop (std_sort (key_less 0) sample_users)
                      (std_sort (key_less 1) sample_orders))).
Proof.
  exact (execute_sort_merge_join sample_tm INNER users_orders_condition
           NodeInfo_default users_scan orders_scan []
           (mkResultSet users_schema sample_users)
           (mkResultSet orders_schema sample_orders)
           sample_users_scan sample_orders_scan).
Qed.

Lemma sample_nested_loop_join :
  execute sample_tm (sample_join NESTED_LOOP_JOIN users_scan orders_scan)
  = Ok (nested_loop_result (mkResultSet users_schema sample_users)
                           (mkResultSet orders_schema sample_orders)).
Proof.
  exact (execute_nested_loop_join sample_tm INNER users_orders_condition
           NodeInfo_default users_scan orders_scan []
           (mkResultSet users_schema sample_users)
           (mkResultSet orders_schema sample_orders)
           sample_users_scan sample_orders_scan).
Qed.

Lemma sample_sort_merge_length :
  Z.of_nat (length (merge_loop (std_sort (key_less 0) sample_users)
                               (std_sort (key_less 1) sample_orders)))
  = 5000.
Proof.
  rewrite sort_merge_count_any_order.
  - apply sample_orders_length.
  - apply std_sort_Permutation.
  - apply std_sort_Permutation.
  - apply std_sort_ascending, sample_users_keyed.
  - apply std_sort_ascending, sample_orders_keyed.
Qed.

Lemma sample_nested_loop_length :
  Z.of_nat (rs_size (nested_loop_result
                       (mkResultSet users_schema sample_users)
                       (mkResultSet orders_schema sample_orders)))
  = 5000000.
Proof.
  rewrite nested_loop_size, Nat2Z.inj_mul.
  change (Z.of_nat (length sample_users) * Z.of_nat (length sample_orders)
          = 5000000).
  by rewrite sample_users_length, sample_orders_length.
Qed.

Lemma result_size_Ok (schema : TableSchema) (rows : list Row) :
  result_size (Ok (mkResultSet schema rows)) = Some (Z.of_nat (length rows)).
Proof. reflexivity. Qed.

(** C3.  Over the sample data the hash join and the sort-merge join of
    users with orders each return 5000 rows, and the nested-loop join
    returns 1000 * 5000 = 5,000,000 rows, one for every pair; the rows of
    the hash join are, in the order of the orders, each order [i] behind
    its one user [i % 1000 + 1]. *)
Theorem sample_join_row_counts :
  result_size (execute sample_tm (sample_join HASH_JOIN users_scan orders_scan))
  = Some 5000
  /\ result_size
       (execute sample_tm (sample_join SORT_MERGE_JOIN users_scan orders_scan))
     = Some 5000
  /\ result_size
       (execute sample_tm (sample_join NESTED_LOOP_JOIN users_scan orders_scan))
     = Some 5000000
  /\ execute sample_tm (sample_join HASH_JOIN users_scan orders_scan)
     = Ok (mkResultSet
             (join_schema users_schema orders_schema)
             (map (fun i => join_rows (users_row (Z.rem i 1000 + 1))
                                      (orders_row i))
                  (seqZ 1 5000))).
Proof.
  split; [|split; [|split]].
  - rewrite sample_hash_join, result_size_Ok, length_map, length_seqZ.
    apply f_equal. lia.
  - rewrite sample_sort_merge_join, result_size_Ok.
    apply f_equal, sample_sort_merge_length.
  - rewrite sample_nested_loop_join.
    apply (f_equal Some), sample_nested_loop_length.
  - apply sample_hash_join.
Qed.

(** * Further properties of the executor *)

(** Induction over a plan with the property known of all its children. *)
Lemma PlanNode_children_ind (P : PlanNode -> Prop) :
  (forall p, Forall P (node_children p) -> P p) -> forall p, P p.
Proof.
  intros H.
  fix IH 1. intros p. apply H.
  destruct p as [t a i ch|k i ch|pl i ch|j k i ch|j k i ch|j k i ch]; simpl;
    induction ch as [|c ch IHch]; constructor; auto.
Qed.

Lemma executable_join_result (tm : TableManager)
    (combine : ResultSet -> ResultSet -> ResultSet) (children : list PlanNode) :
  Forall (fun c => executable tm c = true <-> exists rs, execute tm c = Ok rs)
         children ->
  (match children with
   | l :: r :: _ => executable tm l && executable tm r
   | _ => false
   end = true)
  <-> exists rs,
        match children with
        | l :: r :: _ =>
            try! left_result <- execute tm l;
            try! right_result <- execute tm r;
            Ok (combine left_result right_result)
        | _ => Throw (runtime_error "Join node needs two children")
        end = Ok rs.
Proof.
  intros Hch.
  destruct children as [|l [|r rest]].
  - split; [discriminate | intros [rs H]; discriminate].
  - split; [discriminate | intros [rs H]; discriminate].
  - inversion Hch as [|? ? Hl Hrest]; subst.
    inversion Hrest as [|? ? Hr _]; subst.
    rewrite andb_true_iff, Hl, Hr. split.
    + intros [[lrs ->] [rrs ->]]. simpl. eauto.
    + intros [rs H].
      destruct (execute tm l) as [lrs|e]; [|discriminate].
      destruct (execute tm r) as [rrs|e]; [|discriminate]. eauto.
Qed.

(** X1.  [execute] returns a result exactly for the plans that are
    executable against the catalog: every Filter and Project has a child,
    every join has two, and every table scanned exists; in all other cases
    it throws. *)
Theorem execute_succeeds_iff_executable (tm : TableManager) (p : PlanNode) :
  executable tm p = true <-> exists rs, execute tm p = Ok rs.
Proof.
  induction p as [p IH] using PlanNode_children_ind.
  destruct p as [t a i ch|k i ch|pl i ch|j k i ch|j k i ch|j k i ch];
    cbn [node_children] in IH.
  - cbn [executable execute]. unfold execute_table_scan.
    destruct (get_table tm t); split; eauto; try discriminate.
    intros [rs H]; discriminate.
  - cbn [executable execute]. destruct ch as [|c ch].
    + split; [discriminate | intros [rs H]; discriminate].
    + inversion IH as [|? ? Hc _]; subst. rewrite Hc. split.
      * intros [rs ->]. cbn [rbind]. rewrite filter_result_ok. eauto.
      * intros [rs H]. destruct (execute tm c); [eauto | discriminate].
  - cbn [executable execute]. destruct ch as [|c ch].
    + split; [discriminate | intros [rs H]; discriminate].
    + inversion IH as [|? ? Hc _]; subst. rewrite Hc. split.
      * intros [rs ->]. cbn [rbind]. eauto.
      * intros [rs H]. destruct (execute tm c); [eauto | discriminate].
  - apply (executable_join_result tm nested_loop_result ch IH).
  - apply (executable_join_result tm hash_join_result ch IH).
  - apply (executable_join_result tm sort_merge_result ch IH).
Qed.

Lemma execute_succeeds_iff_executable_witness :
  (exists rs,
      execute mixed_tm
        (ProjectNode ["age"] NodeInfo_default
           [SortMergeJoinNode INNER "" NodeInfo_default
              [FilterNode "age < 30" NodeInfo_default [people_scan];
               visits_scan]]) = Ok rs)
  /\ ~ (exists rs,
          execute mixed_tm
            (HashJoinNode INNER "" NodeInfo_default [people_scan; users_scan])
          = Ok rs).
Proof.
  split.
  - apply execute_succeeds_iff_executable. reflexivity.
  - intros H. apply execute_succeeds_iff_executable in H. discriminate.
Defined.

(** ** Projection: pass-through, row count, column names *)

(** X2.  A projection list that is exactly [["*"]] returns the child's
    result as it is, and so does the Project node that [build_project_node]
    makes of the single select item [*]; when the child throws, the same
    exception leaves. *)
Theorem project_star_passes_through (tm : TableManager) :
  (forall (i : NodeInfo) (c : PlanNode) (rest : list PlanNode),
      execute tm (ProjectNode ["*"] i (c :: rest)) = execute tm c)
  /\ (forall (p : PlanNode) (alias : string),
         execute tm (build_project_node p [star_item alias]) = execute tm p).
Proof.
  split.
  - intros i c rest. cbn [execute]. by destruct (execute tm c).
  - intros p alias. unfold build_project_node, star_item. cbn [map expression].
    change (expression_to_string (ColumnExpression "" "*")) with "*".
    cbn [execute]. by destruct (execute tm p).
Qed.

Lemma resolve_columns_names (schema : TableSchema) (cols : list string) :
  forall acc,
    column_names (snd (resolve_columns schema cols acc))
    = (column_names (snd acc) ++ List.filter (resolves schema) cols)%list.
Proof.
  induction cols as [|col cols IH]; intros acc; simpl.
  - by rewrite app_nil_r.
  - unfold get_column_index, resolves.
    destruct (index_of col (column_names schema) 0) as [idx|].
    + rewrite IH. simpl. by rewrite <- app_assoc.
    + apply IH.
Qed.

Lemma resolve_columns_lengths (schema : TableSchema) (cols : list string) :
  forall acc,
    length (fst acc) = length (column_names (snd acc)) ->
    length (fst (resolve_columns schema cols acc))
    = length (column_names (snd (resolve_columns schema cols acc))).
Proof.
  induction cols as [|col cols IH]; intros acc Hacc; simpl; [done|].
  destruct (get_column_index schema col) as [idx|e]; [|by apply IH].
  apply IH. simpl. rewrite !length_app. simpl. lia.
Qed.

Lemma project_row_length (column_indices : list nat) (row : Row) :
  (length (values (project_row column_indices row)) <= length column_indices)%nat.
Proof.
  unfold project_row.
  assert (H : forall acc,
             (length (values
                (fold_left
                   (fun new_row idx =>
                      match nth_error (values row) idx with
                      | Some v => add_value new_row v
                      | None => new_row
                      end) column_indices acc))
              <= length (values acc) + length column_indices)%nat).
  { induction column_indices as [|idx l IH]; intros acc; simpl; [lia|].
    specialize (IH (match nth_error (values row) idx with
                    | Some v => add_value acc v
                    | None => acc
                    end)).
    destruct (nth_error (values row) idx); simpl in *;
      rewrite ?length_app in IH; simpl in IH; lia. }
  apply (H (mkRow [])).
Qed.

(** The branch of [execute_project] below the pass-through test. *)
Lemma project_result_general (rs : ResultSet) (projection_list : list string) :
  projection_list <> ["*"] ->
  project_result rs projection_list
  = let r := resolve_columns (rs_schema rs) (parse_projections projection_list)
                             ([], TableSchema_empty) in
    mkResultSet (snd r) (map (project_row (fst r)) (rs_rows rs)).
Proof.
  intros Hstar. unfold project_result.
  destruct projection_list as [|p [|p' ps]];
    try (cbv zeta; by destruct (resolve_columns _ _ _)).
  destruct (String.eqb p "*") eqn:Hp.
  - apply String.eqb_eq in Hp. by subst.
  - cbv zeta. by destruct (resolve_columns _ _ _).
Qed.

(** X3.  Project never drops or adds rows; unless the list is [["*"]]
    the result's columns are, in the order asked, the projections (with a
    [table.] prefix removed and stars left out) that name a column of the
    child's schema, and no row it returns is wider than that schema. *)
Theorem project_rows_and_columns
    (tm : TableManager) (projection_list : list string) (i : NodeInfo)
    (c : PlanNode) (rest : list PlanNode) (rs : ResultSet) :
  execute tm c = Ok rs ->
  exists out,
    execute tm (ProjectNode projection_list i (c :: rest)) = Ok out
    /\ rs_size out = rs_size rs
    /\ (projection_list <> ["*"] ->
        column_names (rs_schema out)
        = List.filter (resolves (rs_schema rs))
                      (parse_projections projection_list)
        /\ Forall (fun row => (Row_size row <= column_count (rs_schema out))%nat)
                  (rs_rows out)).
Proof.
  intros Hc. exists (project_result rs projection_list).
  split; [cbn [execute]; by rewrite Hc|].
  destruct (decide (projection_list = ["*"])) as [->|Hne].
  - split; [reflexivity | done].
  - rewrite (project_result_general rs projection_list Hne). cbv zeta.
    cbn [rs_schema rs_rows]. unfold rs_size. cbn [rs_rows].
    split; [apply length_map|]. intros _. split.
    + by rewrite resolve_columns_names.
    + apply List.Forall_map, List.Forall_forall. intros row _.
      unfold Row_size, column_count.
      rewrite <- resolve_columns_lengths by done. apply project_row_length.
Qed.

Lemma project_rows_and_columns_witness :
  exists out,
    execute mixed_tm
      (ProjectNode ["people.age"; "*"; "salary"; "id"] NodeInfo_default
         [people_scan]) = Ok out
    /\ rs_size out = 6%nat
    /\ column_names (rs_schema out) = ["age"; "id"].
Proof.
  destruct (project_rows_and_columns mixed_tm
              ["people.age"; "*"; "salary"; "id"] NodeInfo_default
              people_scan [] (mkResultSet people_schema people_rows) eq_refl)
    as (out & Hout & Hsize & Hnames).
  exists out. split; [exact Hout|]. split; [exact Hsize|].
  apply Hnames. discriminate.
Defined.

(** ** Filter: unrecognised conditions, order of filters *)

Lemma unrecognised_holds (row : Row) (schema : TableSchema) (condition : string) :
  unrecognised condition = true ->
  condition_value row schema condition = true.
Proof.
  unfold unrecognised, condition_value, evaluate_condition.
  destruct (contains condition "age > 25"); [discriminate|].
  destruct (contains condition "age < 30"); [discriminate|].
  by destruct (contains condition "id = ").
Qed.

(** X4.  A Filter whose condition text contains none of ["age > 25"],
    ["age < 30"], ["id = "] filters nothing: it returns its child's result
    unchanged (or the child's exception), whatever the condition says. *)
Theorem unrecognised_filter_is_identity
    (tm : TableManager) (condition : string) (i : NodeInfo)
    (c : PlanNode) (rest : list PlanNode) :
  unrecognised condition = true ->
  execute tm (FilterNode condition i (c :: rest)) = execute tm c.
Proof.
  intros Hun. cbn [execute].
  destruct (execute tm c) as [rs|e]; [|done]. cbn [rbind].
  rewrite filter_result_ok, filter_all; [by destruct rs|].
  intros row _. by apply unrecognised_holds.
Qed.

Lemma unrecognised_filter_is_identity_witness :
  execute mixed_tm
    (FilterNode
       (expression_to_string
          (BinaryOpExpression (ColumnExpression "" "age")
                              (LiteralExpression "40") GREATER))
       NodeInfo_default [people_scan])
  = execute mixed_tm people_scan.
Proof.
  apply unrecognised_filter_is_identity. reflexivity.
Defined.

Lemma filter_comm {A : Type} (f g : A -> bool) (l : list A) :
  List.filter f (List.filter g l) = List.filter g (List.filter f l).
Proof.
  induction l as [|x l IH]; simpl; [done|].
  destruct (f x) eqn:Hf, (g x) eqn:Hg; simpl; rewrite ?Hf, ?Hg, IH; done.
Qed.

(** X5.  Two stacked Filters may be swapped: filtering by [c1] the result
    of filtering by [c2] returns the same schema and the same rows in the
    same order as filtering by [c2] the result of filtering by [c1], and
    the same exception when the input plan fails. *)
Theorem filters_commute
    (tm : TableManager) (c1 c2 : string) (i1 i2 i3 i4 : NodeInfo)
    (S : PlanNode) (rest1 rest2 rest3 rest4 : list PlanNode) :
  execute tm (FilterNode c1 i1 (FilterNode c2 i2 (S :: rest2) :: rest1))
  = execute tm (FilterNode c2 i3 (FilterNode c1 i4 (S :: rest4) :: rest3)).
Proof.
  cbn [execute].
  destruct (execute tm S) as [rs|e]; [|done]. cbn [rbind].
  rewrite !filter_result_ok. cbn [rbind].
  rewrite !filter_result_ok. cbn [rs_schema rs_rows].
  by rewrite filter_comm.
Qed.

(** ** Joins: schema, pairs of rows *)

Lemma join_rows_values (l r : Row) :
  values (join_rows l r) = (values l ++ values r)%list.
Proof.
  unfold join_rows. destruct r as [vs]. cbn [values]. revert l.
  induction vs as [|v vs IH]; intros l; simpl.
  - by rewrite app_nil_r.
  - rewrite IH. simpl. by rewrite <- app_assoc.
Qed.

Lemma join_schema_fold (names types : list string) : forall (n : nat) (l : TableSchema) (len : nat),
  fold_left
    (fun s i => add_column s (nth i names "") (nth i types ""))
    (seq n len) l
  = mkTableSchema
      (column_names l ++ map (fun i => nth i names "") (seq n len))
      (column_types l ++ map (fun i => nth i types "") (seq n len)).
Proof.
  intros n l len. revert n l.
  induction len as [|len IH]; intros n l; simpl.
  - rewrite !app_nil_r. by destruct l.
  - rewrite IH. simpl. by rewrite <- !app_assoc.
Qed.

Lemma map_nth_seq (l : list string) :
  map (fun i => nth i l "") (seq 0 (length l)) = l.
Proof.
  induction l as [|x l IH]; simpl; [done|].
  f_equal. rewrite <- seq_shift, map_map. exact IH.
Qed.

(** The schema of a join is the left schema followed by the right one. *)
Lemma join_schema_concat (l r : TableSchema) :
  well_typed_schema r ->
  join_schema l r
  = mkTableSchema (column_names l ++ column_names r)
                  (column_types l ++ column_types r).
Proof.
  intros Hr. unfold join_schema, column_count. rewrite join_schema_fold.
  rewrite map_nth_seq. unfold well_typed_schema in Hr. rewrite Hr.
  by rewrite map_nth_seq.
Qed.

Lemma merge_loop_pairs (left_rows : list Row) : forall right_rows row,
  In row (merge_loop left_rows right_rows) ->
  exists l r, In l left_rows /\ In r right_rows /\ row = join_rows l r.
Proof.
  induction left_rows as [|l ls IHL]; intros right_rows row; [done|].
  induction right_rows as [|r rs IHR]; [by rewrite merge_loop_nil_r|].
  rewrite merge_loop_step. intros Hin.
  assert (Hleft : In row (merge_loop ls (r :: rs)) ->
            exists l0 r0, In l0 (l :: ls) /\ In r0 (r :: rs)
                          /\ row = join_rows l0 r0).
  { intros H. destruct (IHL _ _ H) as (l0 & r0 & Hl0 & Hr0 & ->).
    exists l0, r0. split; [by right | done]. }
  assert (Hright : In row (merge_loop (l :: ls) rs) ->
            exists l0 r0, In l0 (l :: ls) /\ In r0 (r :: rs)
                          /\ row = join_rows l0 r0).
  { intros H. destruct (IHR H) as (l0 & r0 & Hl0 & Hr0 & ->).
    exists l0, r0. split; [done | split; [by right | done]]. }
  destruct (Row_get_int l 0) as [kl|e]; cbn [rbind] in Hin; [|auto].
  destruct (Row_get_int r 1) as [kr|e]; cbn [rbind] in Hin; [|auto].
  destruct (kl =? kr).
  - destruct Hin as [<-|Hin]; [|auto].
    exists l, r. split; [by left | split; [by left | done]].
  - destruct (kl <? kr); auto.
Qed.

Lemma hash_join_pairs (left_rows right_rows : list Row) (row : Row) :
  In row (flat_map (hash_probe (hash_build left_rows)) right_rows) ->
  exists l r, In l left_rows /\ In r right_rows /\ row = join_rows l r.
Proof.
  intros Hin. apply in_flat_map in Hin as (r & Hr & Hin).
  rewrite hash_probe_build in Hin.
  apply in_map_iff in Hin as (l & <- & Hl).
  exists l, r. split; [|done].
  unfold matching_left_rows in Hl.
  destruct (Row_get_int r 1); [|done].
  by apply filter_In in Hl as [Hl _].
Qed.

Lemma nested_loop_pairs (left_rows right_rows : list Row) (l r : Row) :
  In l left_rows -> In r right_rows ->
  In (join_rows l r)
     (flat_map (fun left_row => map (join_rows left_row) right_rows) left_rows).
Proof.
  intros Hl Hr. apply in_flat_map. exists l. split; [done|]. by apply in_map.
Qed.

(** X6.  Over the same two inputs the three joins return the same schema,
    and every row the hash join or the sort-merge join returns is a row
    that the nested-loop join returns: a left row followed by a right
    row. *)
Theorem joins_return_pairs_of_input_rows
    (tm : TableManager) (l r : PlanNode) (lrs rrs : ResultSet)
    (jt1 jt2 jt3 : JoinType) (c1 c2 c3 : string) (i1 i2 i3 : NodeInfo)
    (rest1 rest2 rest3 : list PlanNode) :
  execute tm l = Ok lrs ->
  execute tm r = Ok rrs ->
  exists nl hj smj,
    execute tm (NestedLoopJoinNode jt1 c1 i1 (l :: r :: rest1)) = Ok nl
    /\ execute tm (HashJoinNode jt2 c2 i2 (l :: r :: rest2)) = Ok hj
    /\ execute tm (SortMergeJoinNode jt3 c3 i3 (l :: r :: rest3)) = Ok smj
    /\ rs_schema hj = rs_schema nl
    /\ rs_schema smj = rs_schema nl
    /\ incl (rs_rows hj) (rs_rows nl)
    /\ incl (rs_rows smj) (rs_rows nl)
    /\ forall row, In row (rs_rows nl) <->
                   exists a b, In a (rs_rows lrs) /\ In b (rs_rows rrs)
                               /\ row = join_rows a b.
Proof.
  intros Hl Hr.
  exists (nested_loop_result lrs rrs), (hash_join_result lrs rrs),
         (sort_merge_result lrs rrs).
  split; [cbn [execute]; by rewrite Hl, Hr|].
  split; [cbn [execute]; by rewrite Hl, Hr|].
  split; [cbn [execute]; by rewrite Hl, Hr|].
  split; [reflexivity|]. split; [reflexivity|].
  unfold nested_loop_result, hash_join_result, sort_merge_result.
  cbn [rs_rows]. split; [|split].
  - intros row Hin. apply hash_join_pairs in Hin as (a & b & Ha & Hb & ->).
    by apply nested_loop_pairs.
  - intros row Hin. apply merge_loop_pairs in Hin as (a & b & Ha & Hb & ->).
    apply nested_loop_pairs.
    + exact (Permutation_in _
               (Permutation_sym (std_sort_Permutation (key_less 0) _)) Ha).
    + exact (Permutation_in _
               (Permutation_sym (std_sort_Permutation (key_less 1) _)) Hb).
  - intros row. split.
    + intros Hin. apply in_flat_map in Hin as (a & Ha & Hin).
      apply in_map_iff in Hin as (b & <- & Hb). eauto.
    + intros (a & b & Ha & Hb & ->). by apply nested_loop_pairs.
Qed.

Lemma joins_return_pairs_of_input_rows_witness :
  exists nl hj smj,
    execute mixed_tm
      (NestedLoopJoinNode INNER "" NodeInfo_default [people_scan; visits_scan])
    = Ok nl
    /\ execute mixed_tm
         (HashJoinNode INNER "" NodeInfo_default [people_scan; visits_scan])
       = Ok hj
    /\ execute mixed_tm
         (SortMergeJoinNode INNER "" NodeInfo_default [people_scan; visits_scan])
       = Ok smj
    /\ incl (rs_rows hj) (rs_rows nl)
    /\ incl (rs_rows smj) (rs_rows nl).
Proof.
  destruct (joins_return_pairs_of_input_rows mixed_tm people_scan visits_scan
              (mkResultSet people_schema people_rows)
              (mkResultSet visits_schema visits_rows)
              INNER INNER INNER "" "" ""
              NodeInfo_default NodeInfo_default NodeInfo_default [] [] []
              eq_refl eq_refl)
    as (nl & hj & smj & H1 & H2 & H3 & _ & _ & H4 & H5 & _).
  exists nl, hj, smj. auto.
Defined.

(** ** Results stay aligned with their schema *)

Lemma index_of_bound (name : string) (names : list string) : forall i j,
  index_of name names i = Some j -> (i <= j < i + length names)%nat.
Proof.
  induction names as [|n names IH]; intros i j; simpl; [done|].
  destruct (String.eqb n name).
  - intros [= <-]. lia.
  - intros H. apply IH in H. lia.
Qed.

Lemma resolve_columns_invariant (schema : TableSchema) (cols : list string) :
  forall acc,
    well_typed_schema (snd acc) ->
    length (fst acc) = length (column_names (snd acc)) ->
    Forall (fun i => (i < length (column_names schema))%nat) (fst acc) ->
    let r := resolve_columns schema cols acc in
    well_typed_schema (snd r)
    /\ length (fst r) = length (column_names (snd r))
    /\ Forall (fun i => (i < length (column_names schema))%nat) (fst r).
Proof.
  induction cols as [|col cols IH]; intros acc Hty Hlen Hidx; simpl; [done|].
  unfold get_column_index.
  destruct (index_of col (column_names schema) 0) as [idx|] eqn:Hi;
    [|by apply IH].
  apply IH; simpl.
  - unfold well_typed_schema in *. simpl. rewrite !length_app. simpl. lia.
  - rewrite !length_app. simpl. lia.
  - apply Forall_app. split; [done|]. constructor; [|constructor].
    apply index_of_bound in Hi. lia.
Qed.

Lemma project_row_exact (column_indices : list nat) (row : Row) :
  Forall (fun i => (i < Row_size row)%nat) column_indices ->
  Row_size (project_row column_indices row) = length column_indices.
Proof.
  unfold project_row, Row_size. intros Hidx.
  assert (H : forall acc,
             length (values
                (fold_left
                   (fun new_row idx =>
                      match nth_error (values row) idx with
                      | Some v => add_value new_row v
                      | None => new_row
                      end) column_indices acc))
             = (length (values acc) + length column_indices)%nat).
  { induction Hidx as [|idx l Hi _ IH]; intros acc; simpl; [lia|].
    destruct (nth_error (values row) idx) as [v|] eqn:Hv.
    - rewrite IH. simpl. rewrite length_app. simpl. lia.
    - apply nth_error_None in Hv. lia. }
  apply (H (mkRow [])).
Qed.

Lemma project_result_aligned (rs : ResultSet) (projection_list : list string) :
  well_typed_schema (rs_schema rs) ->
  aligned (rs_schema rs) (rs_rows rs) ->
  well_typed_schema (rs_schema (project_result rs projection_list))
  /\ aligned (rs_schema (project_result rs projection_list))
             (rs_rows (project_result rs projection_list)).
Proof.
  intros Hty Hal.
  destruct (decide (projection_list = ["*"])) as [->|Hne]; [done|].
  rewrite (project_result_general rs projection_list Hne). cbv zeta.
  cbn [rs_schema rs_rows].
  destruct (resolve_columns_invariant (rs_schema rs)
              (parse_projections projection_list) ([], TableSchema_empty)
              eq_refl eq_refl (List.Forall_nil _)) as (Hty' & Hlen & Hidx).
  split; [exact Hty'|].
  unfold aligned in *. apply List.Forall_map.
  eapply Forall_impl; [exact Hal|]. intros row Hrow. cbv beta in *.
  rewrite project_row_exact; [exact Hlen|].
  unfold column_count in Hrow. by rewrite Hrow.
Qed.

Lemma join_result_aligned (l r : ResultSet) (rows : list Row) :
  well_typed_schema (rs_schema l) -> aligned (rs_schema l) (rs_rows l) ->
  well_typed_schema (rs_schema r) -> aligned (rs_schema r) (rs_rows r) ->
  (forall row, In row rows ->
     exists a b, In a (rs_rows l) /\ In b (rs_rows r) /\ row = join_rows a b) ->
  well_typed_schema (join_schema (rs_schema l) (rs_schema r))
  /\ aligned (join_schema (rs_schema l) (rs_schema r)) rows.
Proof.
  intros Hlt Hla Hrt Hra Hpairs.
  rewrite (join_schema_concat _ _ Hrt).
  unfold well_typed_schema, aligned, column_count in *. cbn [column_names column_types].
  split; [rewrite !length_app; lia|].
  apply List.Forall_forall. intros row Hrow.
  destruct (Hpairs row Hrow) as (a & b & Ha & Hb & ->).
  rewrite List.Forall_forall in Hla, Hra.
  specialize (Hla a Ha). specialize (Hra b Hb).
  unfold Row_size in *. rewrite join_rows_values, !length_app. lia.
Qed.

(** X7.  When every table of the catalog has one type per column and
    one cell per column in each row, so has every result [execute]
    returns, for any plan: no operator produces a row or a schema out of
    step. *)
Theorem results_stay_aligned (tm : TableManager) (p : PlanNode) (rs : ResultSet) :
  catalog_aligned tm ->
  execute tm p = Ok rs ->
  well_typed_schema (rs_schema rs) /\ aligned (rs_schema rs) (rs_rows rs).
Proof.
  intros Hcat. revert rs.
  induction p as [p IH] using PlanNode_children_ind.
  assert (Hjoin : forall (combine : ResultSet -> ResultSet -> ResultSet) ch rs,
            ch = node_children p ->
            (forall l r, rs_schema (combine l r)
                         = join_schema (rs_schema l) (rs_schema r)) ->
            (forall l r row, In row (rs_rows (combine l r)) ->
               exists a b, In a (rs_rows l) /\ In b (rs_rows r)
                           /\ row = join_rows a b) ->
            match ch with
            | l :: r :: _ =>
                try! left_result <- execute tm l;
                try! right_result <- execute tm r;
                Ok (combine left_result right_result)
            | _ => Throw (runtime_error "Join node needs two children")
            end = Ok rs ->
            well_typed_schema (rs_schema rs)
            /\ aligned (rs_schema rs) (rs_rows rs)).
  { intros combine ch rs -> Hschema Hpairs Hex.
    destruct (node_children p) as [|l [|r rest]]; try discriminate.
    inversion IH as [|? ? Hl Hrest]; subst.
    inversion Hrest as [|? ? Hr _]; subst.
    destruct (execute tm l) as [lrs|e]; [|discriminate].
    destruct (execute tm r) as [rrs|e]; [|discriminate].
    injection Hex as <-.
    destruct (Hl lrs eq_refl) as [Hlt Hla].
    destruct (Hr rrs eq_refl) as [Hrt Hra].
    rewrite Hschema.
    apply (join_result_aligned lrs rrs); auto. }
  intros rs.
  destruct p as [t a i ch|k i ch|pl i ch|j k i ch|j k i ch|j k i ch];
    cbn [node_children] in *.
  - cbn [execute]. unfold execute_table_scan.
    destruct (get_table tm t) as [tbl|] eqn:Ht; [|discriminate].
    intros [= <-]. by apply (Hcat t).
  - cbn [execute]. destruct ch as [|c ch]; [discriminate|].
    inversion IH as [|? ? Hc _]; subst.
    destruct (execute tm c) as [crs|e]; [|discriminate]. cbn [rbind].
    rewrite filter_result_ok. intros [= <-]. cbn [rs_schema rs_rows].
    destruct (Hc crs eq_refl) as [Hty Hal]. split; [done|].
    unfold aligned in *. apply List.Forall_forall. intros row Hrow.
    apply filter_In in Hrow as [Hrow _].
    rewrite List.Forall_forall in Hal. by apply Hal.
  - cbn [execute]. destruct ch as [|c ch]; [discriminate|].
    inversion IH as [|? ? Hc _]; subst.
    destruct (execute tm c) as [crs|e]; [|discriminate]. cbn [rbind].
    intros [= <-]. destruct (Hc crs eq_refl) as [Hty Hal].
    by apply project_result_aligned.
  - apply (Hjoin nested_loop_result ch rs eq_refl); [done|].
    intros l r row Hin. unfold nested_loop_result in Hin. cbn [rs_rows] in Hin.
    apply in_flat_map in Hin as (a & Ha & Hin).
    apply in_map_iff in Hin as (b & <- & Hb). eauto.
  - apply (Hjoin hash_join_result ch rs eq_refl); [done|].
    intros l r row Hin. by apply hash_join_pairs.
  - apply (Hjoin sort_merge_result ch rs eq_refl); [done|].
    intros l r row Hin. unfold sort_merge_result in Hin. cbn [rs_rows] in Hin.
    apply merge_loop_pairs in Hin as (a & b & Ha & Hb & ->).
    exists a, b. split; [|split; [|done]].
    + exact (Permutation_in _
               (Permutation_sym (std_sort_Permutation (key_less 0) _)) Ha).
    + exact (Permutation_in _
               (Permutation_sym (std_sort_Permutation (key_less 1) _)) Hb).
Qed.

Lemma sample_tables (n : string) (t : Table) :
  get_table sample_tm n = Some t ->
  t = mkTable "users" users_schema sample_users
  \/ t = mkTable "orders" orders_schema sample_orders.
Proof.
  intros Ht.
  destruct (decide (n = "users")) as [->|Hu].
  { left. rewrite sample_users_table in Ht. congruence. }
  destruct (decide (n = "orders")) as [->|Ho].
  { right. rewrite sample_orders_table in Ht. congruence. }
  exfalso. revert Ht.
  unfold get_table, sample_tm, populate_sample_data.
  rewrite !fill_as_rows.
  rewrite add_rows_other by congruence.
  unfold create_table at 1. cbn [tables].
  rewrite lookup_insert_ne by congruence.
  rewrite add_rows_other by congruence.
  unfold create_table, TableManager_empty. cbn [tables].
  rewrite lookup_insert_ne by congruence.
  by rewrite lookup_empty.
Qed.

Lemma sample_catalog_aligned : catalog_aligned sample_tm.
Proof.
  intros n t Ht. destruct (sample_tables n t Ht) as [-> | ->]; cbn [schema rows].
  - split; [reflexivity|].
    apply List.Forall_map, List.Forall_forall. by intros i _.
  - split; [reflexivity|].
    apply List.Forall_map, List.Forall_forall. by intros i _.
Qed.

Lemma results_stay_aligned_witness :
  well_typed_schema
    (rs_schema (mkResultSet users_schema (map users_row older_than_25)))
  /\ aligned
       (rs_schema (mkResultSet users_schema (map users_row older_than_25)))
       (rs_rows (mkResultSet users_schema (map users_row older_than_25))).
Proof.
  exact (results_stay_aligned sample_tm age_filter_plan
           (mkResultSet users_schema (map users_row older_than_25))
           sample_catalog_aligned age_filter_result).
Defined.

(** ** Nested loop and hash join: what they return *)

(** X8.  The nested-loop join returns one row for every pair of a left
    and a right row, whatever its condition text and join type: its size is
    the product of the sizes of its inputs, and the rows come left row by
    left row, each with the right rows in their order. *)
Theorem nested_loop_returns_every_pair
    (tm : TableManager) (jt : JoinType) (condition : string) (i : NodeInfo)
    (l r : PlanNode) (rest : list PlanNode) (lrs rrs : ResultSet) :
  execute tm l = Ok lrs ->
  execute tm r = Ok rrs ->
  exists out,
    execute tm (NestedLoopJoinNode jt condition i (l :: r :: rest)) = Ok out
    /\ rs_size out = (rs_size lrs * rs_size rrs)%nat
    /\ rs_rows out
       = flat_map (fun a => map (fun b => mkRow (values a ++ values b))
                                (rs_rows rrs))
                  (rs_rows lrs).
Proof.
  intros Hl Hr. exists (nested_loop_result lrs rrs).
  split; [cbn [execute]; by rewrite Hl, Hr|].
  split; [apply nested_loop_size|].
  unfold nested_loop_result. cbn [rs_rows].
  apply flat_map_ext. intros a. apply map_ext. intros b.
  rewrite <- join_rows_values. by destruct (join_rows a b).
Qed.

Lemma nested_loop_returns_every_pair_witness :
  exists out,
    execute mixed_tm
      (NestedLoopJoinNode LEFT_OUTER "people.id = visits.person"
         NodeInfo_default [people_scan; visits_scan]) = Ok out
    /\ rs_size out = 24%nat.
Proof.
  destruct (nested_loop_returns_every_pair mixed_tm LEFT_OUTER
              "people.id = visits.person" NodeInfo_default
              people_scan visits_scan []
              (mkResultSet people_schema people_rows)
              (mkResultSet visits_schema visits_rows) eq_refl eq_refl)
    as (out & Hout & Hsize & _).
  exists out. split; [exact Hout | exact Hsize].
Defined.

(** X9.  The hash join joins on fixed positions, whatever its condition
    text: it returns, for each right row in the order of the right input,
    that row behind every left row whose [int] at index 0 equals the right
    row's [int] at index 1, those left rows in the order of the left
    input; a right row without an [int] at index 1 yields nothing. *)
Theorem hash_join_returns_matches_in_probe_order
    (tm : TableManager) (jt : JoinType) (condition : string) (i : NodeInfo)
    (l r : PlanNode) (rest : list PlanNode) (lrs rrs : ResultSet) :
  execute tm l = Ok lrs ->
  execute tm r = Ok rrs ->
  exists out,
    execute tm (HashJoinNode jt condition i (l :: r :: rest)) = Ok out
    /\ rs_rows out
       = flat_map
           (fun b => map (fun a => mkRow (values a ++ values b))
                         (matching_left_rows (rs_rows lrs) b))
           (rs_rows rrs).
Proof.
  intros Hl Hr. exists (hash_join_result lrs rrs).
  split; [cbn [execute]; by rewrite Hl, Hr|].
  rewrite hash_join_rows.
  apply flat_map_ext. intros b. apply map_ext. intros a.
  rewrite <- join_rows_values. by destruct (join_rows a b).
Qed.

Lemma hash_join_returns_matches_in_probe_order_witness :
  exists out,
    execute sample_tm (sample_join HASH_JOIN users_scan orders_scan) = Ok out
    /\ rs_rows out
       = flat_map
           (fun b => map (fun a => mkRow (values a ++ values b))
                         (matching_left_rows sample_users b))
           sample_orders.
Proof.
  exact (hash_join_returns_matches_in_probe_order sample_tm INNER
           users_orders_condition NodeInfo_default users_scan orders_scan []
           (mkResultSet users_schema sample_users)
           (mkResultSet orders_schema sample_orders)
           sample_users_scan sample_orders_scan).
Defined.

(** ** Sort-merge join: its bound and its agreement with the hash join *)

Lemma merge_loop_length_le (left_rows : list Row) : forall right_rows,
  (length (merge_loop left_rows right_rows) <= length right_rows)%nat.
Proof.
  induction left_rows as [|l ls IHL]; intros right_rows; [simpl; lia|].
  induction right_rows as [|r rs IHR]; [by rewrite merge_loop_nil_r|].
  rewrite merge_loop_step. specialize (IHL (r :: rs)).
  destruct (Row_get_int l 0) as [kl|e]; cbn [rbind]; [|done].
  destruct (Row_get_int r 1) as [kr|e]; cbn [rbind]; [|done].
  destruct (kl =? kr); [cbn [length]; lia|].
  destruct (kl <? kr); [done | cbn [length]; lia].
Qed.

(** X10.  The sort-merge join advances its right cursor on every row it
    emits, so for any inputs it returns at most as many rows as the right
    input has: a right row is never paired with more than one left row. *)
Theorem sort_merge_join_emits_at_most_one_row_per_right_row
    (tm : TableManager) (jt : JoinType) (condition : string) (i : NodeInfo)
    (l r : PlanNode) (rest : list PlanNode) (lrs rrs : ResultSet) :
  execute tm l = Ok lrs ->
  execute tm r = Ok rrs ->
  exists out,
    execute tm (SortMergeJoinNode jt condition i (l :: r :: rest)) = Ok out
    /\ (rs_size out <= rs_size rrs)%nat.
Proof.
  intros Hl Hr. exists (sort_merge_result lrs rrs).
  split; [cbn [execute]; by rewrite Hl, Hr|].
  unfold rs_size, sort_merge_result. cbn [rs_rows].
  rewrite (Permutation_length (std_sort_Permutation (key_less 1) (rs_rows rrs))).
  apply merge_loop_length_le.
Qed.

Lemma sort_merge_join_emits_at_most_one_row_per_right_row_witness :
  exists out,
    execute mixed_tm
      (SortMergeJoinNode INNER "" NodeInfo_default [people_scan; visits_scan])
    = Ok out
    /\ (rs_size out <= 4)%nat.
Proof.
  exact (sort_merge_join_emits_at_most_one_row_per_right_row mixed_tm INNER ""
           NodeInfo_default people_scan visits_scan []
           (mkResultSet people_schema people_rows)
           (mkResultSet visits_schema visits_rows) eq_refl eq_refl).
Defined.

Lemma flat_map_ext_in {A B : Type} (f g : A -> list B) (l : list A) :
  (forall x, In x l -> f x = g x) -> flat_map f l = flat_map g l.
Proof.
  induction l as [|x l IH]; intros H; simpl; [done|].
  rewrite (H x) by (by left). f_equal. apply IH. intros y Hy. apply H. by right.
Qed.

Lemma matching_left_rows_keyed (left_rows : list Row) (r : Row) (kr : Z) :
  Row_get_int r 1 = Ok kr ->
  keyed 0 left_rows ->
  matching_left_rows left_rows r
  = List.filter (fun l => key_of 0 l =? kr) left_rows.
Proof.
  intros Hr Hk. unfold matching_left_rows. rewrite Hr.
  apply List.filter_ext_in. intros l Hl.
  unfold keyed in Hk. rewrite List.Forall_forall in Hk.
  destruct (Hk l Hl) as [kl Hkl]. unfold key_of. by rewrite Hkl.
Qed.

Lemma filter_none {A : Type} (f : A -> bool) (l : list A) :
  (forall x, In x l -> f x = false) -> List.filter f l = [].
Proof.
  induction l as [|x l IH]; intros H; simpl; [done|].
  rewrite (H x) by (by left). apply IH. intros y Hy. apply H. by right.
Qed.

(** With distinct ascending keys on the left and ascending keys on the
    right, the merge returns each right row behind its matching left
    row, in the order of the right rows. *)
Lemma merge_loop_matches (left_rows : list Row) :
  keyed 0 left_rows ->
  StronglySorted (fun a b => key_of 0 a < key_of 0 b) left_rows ->
  forall right_rows,
    keyed 1 right_rows -> ascending 1 right_rows ->
    merge_loop left_rows right_rows
    = flat_map (fun r => map (fun l => join_rows l r)
                             (matching_left_rows left_rows r))
               right_rows.
Proof.
  intros HkL HsL.
  induction HsL as [|l ls HsL IHL Hl]; intros right_rows HkR HsR.
  - simpl. induction right_rows as [|r rs IH]; [done|]. simpl.
    inversion HkR; subst. inversion HsR; subst.
    rewrite <- IH by done. unfold matching_left_rows.
    by destruct (Row_get_int r 1).
  - inversion HkL as [|? ? [kl Hkl] HkL']; subst.
    specialize (IHL HkL').
    induction HsR as [|r rs HsR IHR Hr]; [by rewrite merge_loop_nil_r|].
    inversion HkR as [|? ? [kr Hkr] HkR']; subst.
    specialize (IHR HkR').
    assert (Hkl' : key_of 0 l = kl) by (unfold key_of; by rewrite Hkl).
    assert (Hkr' : key_of 1 r = kr) by (unfold key_of; by rewrite Hkr).
    rewrite merge_loop_step, Hkl, Hkr. cbn [rbind flat_map].
    rewrite (matching_left_rows_keyed (l :: ls) r kr Hkr HkL).
    cbn [List.filter]. rewrite Hkl'.
    destruct (Z.eqb_spec kl kr) as [Heq|Hne].
    + (* equal keys *)
      rewrite IHR.
      rewrite (filter_none (fun l0 => key_of 0 l0 =? kr) ls); [done|].
      intros l' Hin. rewrite List.Forall_forall in Hl.
      specialize (Hl _ Hin). apply Z.eqb_neq. lia.
    + destruct (Z.ltb_spec kl kr) as [Hlt|Hge].
      * (* the left row is below every right row left *)
        rewrite (IHL (r :: rs)) by (done || by constructor).
        cbn [flat_map].
        rewrite (matching_left_rows_keyed ls r kr Hkr HkL').
        f_equal. apply flat_map_ext_in. intros r' Hr'.
        unfold keyed in HkR'. rewrite List.Forall_forall in HkR'.
        destruct (HkR' r' Hr') as [kr' Hkr'r].
        rewrite (matching_left_rows_keyed (l :: ls) r' kr' Hkr'r HkL).
        rewrite (matching_left_rows_keyed ls r' kr' Hkr'r HkL').
        cbn [List.filter]. rewrite Hkl'.
        rewrite List.Forall_forall in Hr. specialize (Hr _ Hr').
        assert (key_of 1 r' = kr') by (unfold key_of; by rewrite Hkr'r).
        by destruct (Z.eqb_spec kl kr'); [lia|].
      * (* the right row is below every left row left *)
        rewrite IHR.
        rewrite (filter_none (fun l0 => key_of 0 l0 =? kr) ls); [done|].
        intros l' Hin. rewrite List.Forall_forall in Hl.
        specialize (Hl _ Hin). apply Z.eqb_neq. lia.
Qed.

Lemma list_filter_Permutation {A : Type} (f : A -> bool) (l l' : list A) :
  Permutation l l' -> Permutation (List.filter f l) (List.filter f l').
Proof.
  induction 1 as [|x l l' _ IH|x y l|l l' l'' _ IH1 _ IH2]; simpl.
  - done.
  - destruct (f x); [by constructor | done].
  - destruct (f x), (f y); try done. apply perm_swap.
  - by etransitivity.
Qed.

Lemma flat_map_Permutation_pointwise {A B : Type} (f g : A -> list B)
    (l : list A) :
  (forall x, Permutation (f x) (g x)) ->
  Permutation (flat_map f l) (flat_map g l).
Proof.
  intros H. induction l as [|x l IH]; simpl; [done|].
  by apply Permutation_app.
Qed.

Lemma matching_left_rows_Permutation (l l' : list Row) (r : Row) :
  Permutation l l' ->
  Permutation (matching_left_rows l r) (matching_left_rows l' r).
Proof.
  intros H. unfold matching_left_rows.
  destruct (Row_get_int r 1); [by apply list_filter_Permutation | done].
Qed.

(** X11.  When every left row has an [int] at index 0, every right row
    an [int] at index 1, and no two left rows share their key, the
    sort-merge join and the hash join of the same inputs return the same
    schema and the same rows up to their order. *)
Theorem sort_merge_join_agrees_with_hash_join
    (tm : TableManager) (l r : PlanNode)
    (lschema rschema : TableSchema) (lrows rrows : list Row)
    (jt jt' : JoinType) (c c' : string) (i i' : NodeInfo)
    (rest rest' : list PlanNode) :
  execute tm l = Ok (mkResultSet lschema lrows) ->
  execute tm r = Ok (mkResultSet rschema rrows) ->
  keyed 0 lrows -> keyed 1 rrows ->
  List.NoDup (map (key_of 0) lrows) ->
  exists smj hj,
    execute tm (SortMergeJoinNode jt c i (l :: r :: rest)) = Ok smj
    /\ execute tm (HashJoinNode jt' c' i' (l :: r :: rest')) = Ok hj
    /\ rs_schema smj = rs_schema hj
    /\ Permutation (rs_rows smj) (rs_rows hj).
Proof.
  intros Hl Hr HkL HkR Hnd.
  exists (sort_merge_result (mkResultSet lschema lrows)
                            (mkResultSet rschema rrows)),
         (hash_join_result (mkResultSet lschema lrows)
                           (mkResultSet rschema rrows)).
  split; [cbn [execute]; by rewrite Hl, Hr|].
  split; [cbn [execute]; by rewrite Hl, Hr|].
  split; [reflexivity|].
  rewrite hash_join_rows. unfold sort_merge_result. cbn [rs_rows].
  pose proof (std_sort_Permutation (key_less 0) lrows) as HpL.
  pose proof (std_sort_Permutation (key_less 1) rrows) as HpR.
  rewrite merge_loop_matches.
  - rewrite <- HpR.
    apply flat_map_Permutation_pointwise. intros b.
    apply Permutation_map, matching_left_rows_Permutation.
    by symmetry.
  - unfold keyed. by rewrite <- HpL.
  - apply strict_of_ascending_NoDup; [by apply std_sort_ascending|].
    apply (Permutation_NoDup (l := map (key_of 0) lrows)); [|done].
    by apply Permutation_map.
  - unfold keyed. by rewrite <- HpR.
  - by apply std_sort_ascending.
Qed.

Lemma sort_merge_join_agrees_with_hash_join_witness :
  exists smj hj,
    execute sample_tm
      (SortMergeJoinNode INNER users_orders_condition NodeInfo_default
         [users_scan; orders_scan]) = Ok smj
    /\ execute sample_tm
         (HashJoinNode INNER users_orders_condition NodeInfo_default
            [users_scan; orders_scan]) = Ok hj
    /\ rs_schema smj = rs_schema hj
    /\ Permutation (rs_rows smj) (rs_rows hj).
Proof.
  apply (sort_merge_join_agrees_with_hash_join sample_tm users_scan orders_scan
           users_schema orders_schema sample_users sample_orders).
  - exact sample_users_scan.
  - exact sample_orders_scan.
  - exact sample_users_keyed.
  - exact sample_orders_keyed.
  - rewrite sample_user_keys. apply NoDup_ListNoDup, NoDup_seqZ.
Defined.

(** * Further properties of the tables *)

(** X12.  A table created and then filled row by row scans back as the
    given schema and the given rows in insertion order, whatever the
    catalog held under that name before; the other tables of the catalog
    are untouched. *)
Theorem scan_returns_loaded_rows
    (tm : TableManager) (n : string) (s : TableSchema) (new_rows : list Row) :
  (forall (a : string) (i : NodeInfo) (ch : list PlanNode),
      execute (load_table tm n s new_rows) (TableScanNode n a i ch)
      = Ok (mkResultSet s new_rows))
  /\ (forall n', n <> n' ->
         get_table (load_table tm n s new_rows) n' = get_table tm n').
Proof.
  unfold load_table, get_table. split.
  - intros a i ch. cbn [execute]. unfold execute_table_scan, get_table.
    rewrite (add_rows_lookup n new_rows _ (mkTable n s [])); [done|].
    unfold create_table. cbn [tables]. by rewrite lookup_insert_eq.
  - intros n' Hne. rewrite add_rows_other by done.
    unfold create_table. cbn [tables]. by rewrite lookup_insert_ne.
Qed.

Lemma scan_returns_loaded_rows_witness :
  get_table (load_table sample_tm "people" people_schema people_rows) "users"
  = get_table sample_tm "users".
Proof.
  apply (proj2 (scan_returns_loaded_rows sample_tm "people" people_schema
                  people_rows)).
  discriminate.
Defined.

Lemma nth_error_lookup {A : Type} (l : list A) (i : nat) :
  nth_error l i = l !! i.
Proof. revert i. induction l as [|x l IH]; intros [|i]; simpl; auto. Qed.

Lemma nth_error_repeat_empty (n j : nat) :
  (j < n)%nat -> nth_error (repeat VEmpty n) j = Some VEmpty.
Proof.
  revert j. induction n as [|n IH]; intros [|j] H; simpl; try lia; [done|].
  apply IH. lia.
Qed.

(** X13.  [Row::set] followed by [Row::get<int>] at the same index reads
    the value back, also beyond the end of the row; the row then has
    [max(size, index + 1)] cells, the cells at other indices below the old
    size are unchanged, and a cell the resize created throws
    [bad_any_cast], not [out_of_range], when read. *)
Theorem row_set_then_get (r : Row) (index : nat) (n : Z) :
  Row_get_int (Row_set r index (VInt n)) index = Ok n
  /\ Row_size (Row_set r index (VInt n)) = Nat.max (Row_size r) (S index)
  /\ (forall j, j <> index -> (j < Row_size r)%nat ->
        nth_error (values (Row_set r index (VInt n))) j
        = nth_error (values r) j)
  /\ (forall j, (Row_size r <= j < index)%nat ->
        Row_get_int (Row_set r index (VInt n)) j = Throw bad_any_cast).
Proof.
  unfold Row_get_int, Row_set, Row_size. cbn [values].
  destruct (Nat.leb_spec (length (values r)) index) as [Hle|Hgt].
  - assert (Hlen : length (values r
                           ++ repeat VEmpty (S index - length (values r)))
                   = S index).
    { rewrite length_app, repeat_length. lia. }
    split; [|split; [|split]].
    + rewrite nth_error_lookup, list_lookup_insert_eq by lia. done.
    + rewrite length_insert, Hlen. lia.
    + intros j Hj Hlt.
      rewrite !nth_error_lookup, list_lookup_insert_ne by done.
      by rewrite lookup_app_l.
    + intros j Hj.
      rewrite nth_error_lookup, list_lookup_insert_ne by lia.
      rewrite <- nth_error_lookup, nth_error_app2 by lia.
      by rewrite nth_error_repeat_empty by lia.
  - split; [|split; [|split]].
    + rewrite nth_error_lookup, list_lookup_insert_eq by lia. done.
    + rewrite length_insert. lia.
    + intros j Hj Hlt.
      by rewrite !nth_error_lookup, list_lookup_insert_ne.
    + intros j Hj. lia.
Qed.

Lemma row_set_then_get_witness :
  Row_get_int (Row_set (mkRow [VInt 1]) 3 (VInt 7)) 2 = Throw bad_any_cast.
Proof.
  apply (row_set_then_get (mkRow [VInt 1]) 3 7). unfold Row_size. simpl. lia.
Defined.

(** * Further properties of the optimizer *)

Lemma min_element_from_spec (rest : list PlanCandidate) :
  forall (before : list PlanCandidate) (best : PlanCandidate)
         (between : list PlanCandidate),
    Forall (fun c => (total_cost (candidate_cost best)
                      < total_cost (candidate_cost c))%R) before ->
    Forall (fun c => (total_cost (candidate_cost best)
                      <= total_cost (candidate_cost c))%R) between ->
    exists pre post,
      (before ++ best :: between ++ rest)%list
      = (pre ++ min_element_from best rest :: post)%list
      /\ Forall (fun c => (total_cost (candidate_cost
                                         (min_element_from best rest))
                           < total_cost (candidate_cost c))%R) pre
      /\ Forall (fun c => (total_cost (candidate_cost
                                         (min_element_from best rest))
                           <= total_cost (candidate_cost c))%R) post.
Proof.
  induction rest as [|c rest IH]; intros before best between Hb Hm; simpl.
  - exists before, between. by rewrite app_nil_r.
  - destruct (Rlt_dec (total_cost (candidate_cost c))
                      (total_cost (candidate_cost best))) as [Hlt|Hge].
    + destruct (IH (before ++ best :: between)%list c []) as (pre & post & Heq & H).
      * apply Forall_app. split; [|constructor].
        -- eapply Forall_impl; [exact Hb|]. intros x Hx. simpl in Hx. lra.
        -- exact Hlt.
        -- eapply Forall_impl; [exact Hm|]. intros x Hx. simpl in Hx. lra.
      * constructor.
      * exists pre, post. split; [|exact H].
        rewrite <- Heq. simpl. by rewrite <- app_assoc.
    + destruct (IH before best (between ++ [c])%list Hb) as (pre & post & Heq & H).
      * apply Forall_app. split; [done|]. constructor; [lra | constructor].
      * exists pre, post. split; [|exact H].
        rewrite <- Heq. by rewrite <- app_assoc.
Qed.

Lemma select_best_plan_spec (candidates : list PlanCandidate) :
  candidates <> [] ->
  exists pre best post,
    candidates = (pre ++ best :: post)%list
    /\ select_best_plan candidates = Some (plan best)
    /\ Forall (fun c => (total_cost (candidate_cost best)
                         < total_cost (candidate_cost c))%R) pre
    /\ Forall (fun c => (total_cost (candidate_cost best)
                         <= total_cost (candidate_cost c))%R) post.
Proof.
  intros Hne. destruct candidates as [|c rest]; [done|].
  destruct (min_element_from_spec rest [] c [] (List.Forall_nil _)
              (List.Forall_nil _)) as (pre & post & Heq & Hpre & Hpost).
  exists pre, (min_element_from c rest), post. auto.
Qed.

(** X14.  [select_best_plan] returns [nullptr] only for an empty list;
    otherwise it returns the plan of a candidate of least total cost, and
    among several of least cost the one inserted first: every candidate
    before it costs strictly more, every candidate after it at least as
    much. *)
Theorem select_best_plan_is_first_minimum (candidates : list PlanCandidate) :
  (select_best_plan candidates = None <-> candidates = [])
  /\ (candidates <> [] ->
      exists pre best post,
        candidates = (pre ++ best :: post)%list
        /\ select_best_plan candidates = Some (plan best)
        /\ Forall (fun c => (total_cost (candidate_cost best)
                             < total_cost (candidate_cost c))%R) pre
        /\ Forall (fun c => (total_cost (candidate_cost best)
                             <= total_cost (candidate_cost c))%R) post).
Proof.
  split.
  - destruct candidates; simpl; split; congruence.
  - apply select_best_plan_spec.
Qed.

Lemma select_best_plan_is_first_minimum_witness :
  exists pre best post,
    generate_all_plans QueryOptimizer_new
      (mkSelectStatement [star_item ""] (mkTableReference "users" "") [] None)
    = (pre ++ best :: post)%list
    /\ select_best_plan
         (generate_all_plans QueryOptimizer_new
            (mkSelectStatement [star_item ""] (mkTableReference "users" "")
                               [] None))
       = Some (plan best).
Proof.
  destruct (proj2 (select_best_plan_is_first_minimum
                     (generate_all_plans QueryOptimizer_new
                        (mkSelectStatement [star_item ""]
                           (mkTableReference "users" "") [] None))))
    as (pre & best & post & H1 & H2 & _); [discriminate|].
  exists pre, best, post. auto.
Defined.

Lemma generate_all_plans_nonempty (o : QueryOptimizer) (stmt : SelectStatement) :
  generate_all_plans o stmt <> [].
Proof.
  unfold generate_all_plans.
  destruct (joins stmt) as [|j [|j' js]]; discriminate.
Qed.

(** X15.  [optimize] always returns a plan, never [nullptr]; for a
    statement with joins it is the plan of a candidate of
    [generate_all_plans], its [cost] is that candidate's estimate, and no
    candidate has a smaller total cost. *)
Theorem optimize_returns_a_cheapest_candidate
    (o : QueryOptimizer) (stmt : SelectStatement) :
  exists p,
    optimize o stmt = Some p
    /\ (joins stmt <> [] ->
        (exists best, In best (generate_all_plans o stmt)
                      /\ p = plan best
                      /\ cost (node_info p) = candidate_cost best)
        /\ Forall (fun c => (total_cost (cost (node_info p))
                             <= total_cost (candidate_cost c))%R)
                  (generate_all_plans o stmt)).
Proof.
  unfold optimize.
  destruct (joins stmt) as [|j js] eqn:Hj.
  { eexists. split; [reflexivity | done]. }
  unfold optimize_join_query.
  destruct (select_best_plan_spec (generate_all_plans o stmt)
              (generate_all_plans_nonempty o stmt))
    as (pre & best & post & Heq & Hsel & Hpre & Hpost).
  exists (plan best). split; [exact Hsel|]. intros _.
  pose proof (generate_all_plans_consistent o stmt) as Hall.
  rewrite List.Forall_forall in Hall.
  assert (Hin : In best (generate_all_plans o stmt)).
  { rewrite Heq. apply in_or_app. right. by left. }
  destruct (Hall best Hin) as (_ & Hcost & _).
  split; [by exists best|].
  rewrite Hcost, Heq. apply Forall_app. split.
  - eapply Forall_impl; [exact Hpre|]. intros c Hc. simpl in Hc. lra.
  - constructor; [lra | exact Hpost].
Qed.

Lemma optimize_returns_a_cheapest_candidate_witness :
  joins users_orders_statement <> []
  /\ exists p,
       optimize QueryOptimizer_new users_orders_statement = Some p
       /\ Forall (fun c => (total_cost (cost (node_info p))
                            <= total_cost (candidate_cost c))%R)
                 (generate_all_plans QueryOptimizer_new users_orders_statement).
Proof.
  assert (Hj : joins users_orders_statement <> []) by discriminate.
  split; [exact Hj|].
  destruct (optimize_returns_a_cheapest_candidate QueryOptimizer_new
              users_orders_statement) as (p & Hp & H).
  exists p. split; [exact Hp | exact (proj2 (H Hj))].
Defined.

Lemma plan_to_string_set_cost (p : PlanNode) (c : CostEstimate) (indent : nat) :
  plan_to_string (set_cost p c) indent = plan_to_string p indent.
Proof. by destruct p. Qed.

(** X16.  For a statement without joins [optimize] returns the plan that
    prints as a Project over a Filter over a TableScan when there is a
    WHERE clause, and as a Project over a TableScan when there is none,
    each operator two spaces deeper than its parent, with the select
    items and the condition in their canonical text. *)
Theorem optimized_single_table_plan_text
    (o : QueryOptimizer) (items : list SelectItem) (from : TableReference) :
  (forall w : Expression,
      exists p,
        optimize o (mkSelectStatement items from [] (Some w)) = Some p
        /\ plan_to_string p 0
           = "Project(" ++ comma_separated (rendered_items items) ++ ")"
               ++ newline
               ++ "  Filter(" ++ expression_to_string w ++ ")" ++ newline
               ++ "    " ++ scan_text from)
  /\ exists p,
       optimize o (mkSelectStatement items from [] None) = Some p
       /\ plan_to_string p 0
          = "Project(" ++ comma_separated (rendered_items items) ++ ")"
              ++ newline
              ++ "  " ++ scan_text from.
Proof.
  split.
  - intros w. eexists. split; [reflexivity|].
    unfold optimize_single_table, apply_filter_pushdown.
    rewrite plan_to_string_set_cost.
    reflexivity.
  - eexists. split; [reflexivity|].
    unfold optimize_single_table, apply_filter_pushdown.
    rewrite plan_to_string_set_cost.
    reflexivity.
Qed.

(** * Further properties of the cost model *)

(** X17.  The cost of a hash join and of a sort-merge join does not depend
    on which child is left and which is right, and neither does the
    estimated cardinality of a join: swapping the children gives the same
    (io, cpu, total) and the same row estimate.  Only the nested loop
    distinguishes its outer from its inner input. *)
Theorem symmetric_joins_cost_the_same_swapped
    (cm : CostModel) (l r : PlanNode)
    (jt jt' : JoinType) (c c' : string) (i i' : NodeInfo) :
  estimate_plan_cost cm (HashJoinNode jt c i [l; r])
  = estimate_plan_cost cm (HashJoinNode jt' c' i' [r; l])
  /\ estimate_plan_cost cm (SortMergeJoinNode jt c i [l; r])
     = estimate_plan_cost cm (SortMergeJoinNode jt' c' i' [r; l])
  /\ estimate_output_cardinality cm (HashJoinNode jt c i [l; r])
     = estimate_output_cardinality cm (HashJoinNode jt' c i' [r; l])
  /\ estimate_output_cardinality cm (NestedLoopJoinNode jt c i [l; r])
     = estimate_output_cardinality cm (SortMergeJoinNode jt' c i' [r; l]).
Proof.
  cbn [estimate_plan_cost estimate_output_cardinality].
  unfold join_cost_of, estimate_hash_join_cost, estimate_sort_merge_cost,
         CostEstimate_new, size_add, size_mul.
  rewrite (Z.min_comm (estimate_output_cardinality cm r)),
          (Z.max_comm (estimate_output_cardinality cm r)),
          (Z.add_comm (estimate_output_cardinality cm r)),
          (Z.mul_comm (estimate_output_cardinality cm r)).
  repeat split; f_equal; lra.
Qed.

Lemma wrap_range (z : Z) : 0 <= wrap z < 2 ^ 64.
Proof. unfold wrap, SIZE_MAX1. apply Z.mod_pos_bound. lia. Qed.

Lemma Int_part_scaled (n : Z) (sel : R) :
  0 <= n -> (0 <= sel <= 1)%R ->
  0 <= size_t_of_double (IZR n * sel)%R <= n.
Proof.
  intros Hn Hs. unfold size_t_of_double.
  destruct (base_Int_part (IZR n * sel)%R) as [Hle Hgt].
  pose proof (IZR_le 0 n Hn) as Hn'.
  assert (0 <= IZR n * sel <= IZR n)%R by nra.
  split.
  - assert (-1 < Int_part (IZR n * sel))%Z; [|lia].
    apply lt_IZR. lra.
  - apply le_IZR. lra.
Qed.

Lemma join_selectivity_range (condition : string) :
  (0 <= estimate_join_selectivity condition <= 1)%R.
Proof.
  unfold estimate_join_selectivity.
  destruct (contains condition "="); [lra|].
  destruct (contains condition ">" || contains condition "<"); lra.
Qed.

Lemma cardinality_range (cm : CostModel) :
  stats_in_range cm ->
  forall p, 0 <= estimate_output_cardinality cm p < 2 ^ 64.
Proof.
  intros Hcm p.
  induction p as [p IH] using PlanNode_children_ind.
  assert (Hjoin : forall condition ch, ch = node_children p ->
            0 <= match ch with
                 | l :: r :: _ =>
                     size_t_of_double
                       (IZR (size_mul (estimate_output_cardinality cm l)
                                      (estimate_output_cardinality cm r))
                        * estimate_join_selectivity condition)%R
                 | _ => 0
                 end < 2 ^ 64).
  { intros condition ch _. destruct ch as [|l [|r rest]]; try lia.
    pose proof (wrap_range (estimate_output_cardinality cm l
                            * estimate_output_cardinality cm r)) as Hw.
    pose proof (Int_part_scaled _ _ (proj1 Hw)
                  (join_selectivity_range condition)) as Hi.
    unfold size_mul. lia. }
  destruct p as [t a i ch|k i ch|pl i ch|j k i ch|j k i ch|j k i ch];
    cbn [node_children estimate_output_cardinality] in *.
  - destruct (table_stats cm !! t) as [st|] eqn:Ht; [|lia].
    by apply (Hcm t).
  - destruct ch as [|c ch]; [lia|]. inversion IH as [|? ? Hc _]; subst.
    assert (Hs : (0 <= (if contains k "age > 25" then 0.88
                        else if contains k "age < 30" then 0.20 else 0.1)
                  <= 1)%R).
    { destruct (contains k "age > 25"); [lra|].
      destruct (contains k "age < 30"); lra. }
    pose proof (Int_part_scaled _ _ (proj1 Hc) Hs). lia.
  - destruct ch as [|c ch]; [lia|]. by inversion IH.
  - by apply (Hjoin k ch).
  - by apply (Hjoin k ch).
  - by apply (Hjoin k ch).
Qed.

Lemma CostModel_new_in_range : stats_in_range CostModel_new.
Proof.
  intros n st H. unfold CostModel_new in H. cbn [table_stats] in H.
  apply lookup_insert_Some in H as [[_ <-]|[_ H]].
  { cbn [tuple_count page_count_ts]. lia. }
  apply lookup_insert_Some in H as [[_ <-]|[_ H]].
  { cbn [tuple_count page_count_ts]. lia. }
  by rewrite lookup_empty in H.
Qed.

(** X18.  With [size_t] statistics every cardinality estimate is a
    [size_t] value; a Filter never estimates more rows than its child, a
    Project estimates the same number, and a join never more than the
    (wrapped) product of its children's estimates. *)
Theorem cardinality_estimates_stay_in_range (cm : CostModel) :
  stats_in_range cm ->
  (forall p, 0 <= estimate_output_cardinality cm p < 2 ^ 64)
  /\ (forall condition i c rest,
         estimate_output_cardinality cm (FilterNode condition i (c :: rest))
         <= estimate_output_cardinality cm c)
  /\ (forall l i c rest,
         estimate_output_cardinality cm (ProjectNode l i (c :: rest))
         = estimate_output_cardinality cm c)
  /\ (forall jt condition i l r rest,
         estimate_output_cardinality cm
           (HashJoinNode jt condition i (l :: r :: rest))
         <= size_mul (estimate_output_cardinality cm l)
                     (estimate_output_cardinality cm r)).
Proof.
  intros Hcm. split; [by apply cardinality_range|].
  split; [|split; [done|]].
  - intros condition i c rest. cbn [estimate_output_cardinality].
    assert (Hs : (0 <= (if contains condition "age > 25" then 0.88
                        else if contains condition "age < 30" then 0.20
                             else 0.1) <= 1)%R).
    { destruct (contains condition "age > 25"); [lra|].
      destruct (contains condition "age < 30"); lra. }
    pose proof (cardinality_range cm Hcm c) as Hc.
    pose proof (Int_part_scaled _ _ (proj1 Hc) Hs). lia.
  - intros jt condition i l r rest. cbn [estimate_output_cardinality].
    pose proof (wrap_range (estimate_output_cardinality cm l
                            * estimate_output_cardinality cm r)) as Hw.
    pose proof (Int_part_scaled _ _ (proj1 Hw)
                  (join_selectivity_range condition)) as Hi.
    unfold size_mul. lia.
Qed.

Lemma cardinality_estimates_stay_in_range_witness :
  stats_in_range CostModel_new
  /\ forall condition i rest,
       estimate_output_cardinality CostModel_new
         (FilterNode condition i (users_scan :: rest))
       <= estimate_output_cardinality CostModel_new users_scan.
Proof.
  split; [exact CostModel_new_in_range|].
  intros condition i rest.
  exact (proj1 (proj2 (cardinality_estimates_stay_in_range CostModel_new
                         CostModel_new_in_range))
           condition i users_scan rest).
Defined.

Lemma log2_safe_nonneg (x : R) : (0 <= log2_safe x)%R.
Proof.
  unfold log2_safe, log2. destruct (Rle_dec x 1) as [_|Hx]; [lra|].
  assert (0 < ln x)%R.
  { rewrite <- ln_1. apply ln_increasing; lra. }
  assert (0 < ln 2)%R.
  { rewrite <- ln_1. apply ln_increasing; lra. }
  apply Rlt_le, Rdiv_lt_0_compat; assumption.
Qed.

Lemma estimate_sort_cost_nonneg (tuples : Z) :
  (0 <= estimate_sort_cost tuples)%R.
Proof.
  unfold estimate_sort_cost, CPU_OPERATOR_COST, MEMORY_SORT_COST.
  destruct (Z.leb_spec tuples 1) as [_|Ht]; [lra|].
  pose proof (log2_safe_nonneg (IZR tuples)) as Hl.
  assert (0 <= IZR tuples)%R by (apply IZR_le; lia).
  assert (0 <= IZR tuples * log2_safe (IZR tuples))%R by nra.
  nra.
Qed.

Lemma join_cost_of_bounds (ty : PlanNodeType) (lc rc : CostEstimate)
    (lt rt : Z) :
  0 <= lt -> 0 <= rt ->
  (io_cost lc + io_cost rc <= io_cost (join_cost_of ty lc rc lt rt))%R
  /\ (cpu_cost lc + cpu_cost rc <= cpu_cost (join_cost_of ty lc rc lt rt))%R.
Proof.
  intros Hl Hr.
  assert (Hw : forall z, (0 <= IZR (wrap z))%R).
  { intros z. apply IZR_le, wrap_range. }
  destruct ty; cbn [join_cost_of CostEstimate_new io_cost cpu_cost];
    try (split; lra).
  - unfold estimate_nested_loop_cost, size_mul, RANDOM_IO_COST,
           CPU_OPERATOR_COST.
    pose proof (Hw (lt * Z.max 1 (rt / 100))).
    pose proof (Hw (lt * rt)).
    split; lra.
  - unfold estimate_hash_join_cost, HASH_BUILD_COST, HASH_PROBE_COST,
           SEQUENTIAL_IO_COST.
    assert (0 <= IZR (Z.min lt rt))%R by (apply IZR_le; lia).
    assert (0 <= IZR (Z.max lt rt))%R by (apply IZR_le; lia).
    assert (0 <= IZR (Z.max 1 (Z.min lt rt / 100)))%R by (apply IZR_le; lia).
    split; lra.
  - unfold estimate_sort_merge_cost, size_add, CPU_OPERATOR_COST.
    pose proof (estimate_sort_cost_nonneg lt).
    pose proof (estimate_sort_cost_nonneg rt).
    pose proof (Hw (lt + rt)).
    split; lra.
Qed.

Lemma estimate_plan_cost_nonneg (cm : CostModel) :
  stats_in_range cm ->
  forall p, (0 <= io_cost (estimate_plan_cost cm p))%R
            /\ (0 <= cpu_cost (estimate_plan_cost cm p))%R.
Proof.
  intros Hcm p.
  induction p as [p IH] using PlanNode_children_ind.
  assert (Hcard : forall c, (0 <= IZR (estimate_output_cardinality cm c))%R).
  { intros c. apply IZR_le, (cardinality_range cm Hcm). }
  assert (Hjoin : forall ty ch, ch = node_children p ->
            (0 <= io_cost
                    match ch with
                    | l :: r :: _ =>
                        join_cost_of ty (estimate_plan_cost cm l)
                          (estimate_plan_cost cm r)
                          (estimate_output_cardinality cm l)
                          (estimate_output_cardinality cm r)
                    | _ => CostEstimate_default
                    end)%R
            /\ (0 <= cpu_cost
                       match ch with
                       | l :: r :: _ =>
                           join_cost_of ty (estimate_plan_cost cm l)
                             (estimate_plan_cost cm r)
                             (estimate_output_cardinality cm l)
                             (estimate_output_cardinality cm r)
                       | _ => CostEstimate_default
                       end)%R).
  { intros ty ch ->.
    destruct (node_children p) as [|l [|r rest]];
      try (cbn [CostEstimate_default CostEstimate_new io_cost cpu_cost];
           split; lra).
    inversion IH as [|? ? [Hl1 Hl2] IH']; subst.
    inversion IH' as [|? ? [Hr1 Hr2] _]; subst.
    destruct (join_cost_of_bounds ty (estimate_plan_cost cm l)
                (estimate_plan_cost cm r)
                (estimate_output_cardinality cm l)
                (estimate_output_cardinality cm r)) as [Hio Hcpu];
      try apply (cardinality_range cm Hcm).
    split; lra. }
  destruct p as [t a i ch|k i ch|pl i ch|j k i ch|j k i ch|j k i ch];
    cbn [node_children estimate_plan_cost] in *.
  - unfold estimate_table_scan_cost.
    destruct (table_stats cm !! t) as [st|] eqn:Ht;
      cbn [CostEstimate_new io_cost cpu_cost]; [|split; lra].
    destruct (Hcm t st Ht) as [Ht1 Ht2].
    assert (0 <= IZR (tuple_count st))%R by (apply IZR_le; lia).
    assert (0 <= IZR (page_count_ts st))%R by (apply IZR_le; lia).
    unfold SEQUENTIAL_IO_COST, CPU_TUPLE_COST. split; lra.
  - destruct ch as [|c ch];
      cbn [CostEstimate_default CostEstimate_new io_cost cpu_cost];
      [split; lra|].
    inversion IH as [|? ? [Hc1 Hc2] _]; subst.
    unfold estimate_filter_cost_tuples, CPU_OPERATOR_COST.
    pose proof (Hcard c). split; lra.
  - destruct ch as [|c ch];
      cbn [CostEstimate_default CostEstimate_new io_cost cpu_cost];
      [split; lra|].
    inversion IH as [|? ? [Hc1 Hc2] _]; subst.
    unfold CPU_OPERATOR_COST.
    pose proof (Hcard c). split; lra.
  - by apply (Hjoin NESTED_LOOP_JOIN ch).
  - by apply (Hjoin HASH_JOIN ch).
  - by apply (Hjoin SORT_MERGE_JOIN ch).
Qed.

(** X19.  With [size_t] statistics no estimate is negative and costs only
    grow towards the root: the io, cpu and total cost of an operator are
    each at least those of every child it reads. *)
Theorem costs_grow_towards_the_root (cm : CostModel) :
  stats_in_range cm ->
  forall p,
    (0 <= io_cost (estimate_plan_cost cm p))%R
    /\ (0 <= cpu_cost (estimate_plan_cost cm p))%R
    /\ Forall (fun c =>
                 (io_cost (estimate_plan_cost cm c)
                  <= io_cost (estimate_plan_cost cm p))%R
                 /\ (cpu_cost (estimate_plan_cost cm c)
                     <= cpu_cost (estimate_plan_cost cm p))%R
                 /\ (total_cost (estimate_plan_cost cm c)
                     <= total_cost (estimate_plan_cost cm p))%R)
              (read_children p).
Proof.
  intros Hcm p.
  destruct (estimate_plan_cost_nonneg cm Hcm p) as [Hio Hcpu].
  split; [exact Hio|]. split; [exact Hcpu|].
  assert (Hcard : forall c, (0 <= IZR (estimate_output_cardinality cm c))%R).
  { intros c. apply IZR_le, (cardinality_range cm Hcm). }
  assert (Hjoin : forall ty l r,
            let j := join_cost_of ty (estimate_plan_cost cm l)
                       (estimate_plan_cost cm r)
                       (estimate_output_cardinality cm l)
                       (estimate_output_cardinality cm r) in
            Forall (fun c =>
                      (io_cost (estimate_plan_cost cm c) <= io_cost j)%R
                      /\ (cpu_cost (estimate_plan_cost cm c) <= cpu_cost j)%R
                      /\ (total_cost (estimate_plan_cost cm c)
                          <= total_cost j)%R) [l; r]).
  { intros ty l r j.
    destruct (join_cost_of_bounds ty (estimate_plan_cost cm l)
                (estimate_plan_cost cm r)
                (estimate_output_cardinality cm l)
                (estimate_output_cardinality cm r)) as [Hjio Hjcpu];
      try apply (cardinality_range cm Hcm).
    fold j in Hjio, Hjcpu.
    pose proof (join_cost_of_consistent ty (estimate_plan_cost cm l)
                  (estimate_plan_cost cm r)
                  (estimate_output_cardinality cm l)
                  (estimate_output_cardinality cm r)) as Hj.
    fold j in Hj. unfold cost_consistent in Hj.
    pose proof (estimate_plan_cost_consistent cm l) as Hl.
    pose proof (estimate_plan_cost_consistent cm r) as Hr.
    unfold cost_consistent in Hl, Hr.
    destruct (estimate_plan_cost_nonneg cm Hcm l) as [Hl1 Hl2].
    destruct (estimate_plan_cost_nonneg cm Hcm r) as [Hr1 Hr2].
    constructor; [|constructor; [|constructor]]; repeat split; lra. }
  destruct p as [t a i ch|k i ch|pl i ch|j k i ch|j k i ch|j k i ch];
    cbn [read_children].
  - constructor.
  - destruct ch as [|c ch]; [constructor|].
    pose proof (estimate_plan_cost_consistent cm c) as Hc.
    unfold cost_consistent in Hc.
    cbn [estimate_plan_cost CostEstimate_new io_cost cpu_cost total_cost].
    unfold estimate_filter_cost_tuples, CPU_OPERATOR_COST.
    pose proof (Hcard c).
    constructor; [|constructor]; repeat split; lra.
  - destruct ch as [|c ch]; [constructor|].
    pose proof (estimate_plan_cost_consistent cm c) as Hc.
    unfold cost_consistent in Hc.
    cbn [estimate_plan_cost CostEstimate_new io_cost cpu_cost total_cost].
    unfold CPU_OPERATOR_COST.
    pose proof (Hcard c).
    constructor; [|constructor]; repeat split; lra.
  - destruct ch as [|l [|r rest]];
      [constructor | constructor | exact (Hjoin NESTED_LOOP_JOIN l r)].
  - destruct ch as [|l [|r rest]];
      [constructor | constructor | exact (Hjoin HASH_JOIN l r)].
  - destruct ch as [|l [|r rest]];
      [constructor | constructor | exact (Hjoin SORT_MERGE_JOIN l r)].
Qed.

Lemma costs_grow_towards_the_root_witness :
  stats_in_range CostModel_new
  /\ Forall (fun c =>
               (io_cost (estimate_plan_cost CostModel_new c)
                <= io_cost (estimate_plan_cost CostModel_new
                              (sample_join SORT_MERGE_JOIN
                                 users_scan orders_scan)))%R
               /\ (cpu_cost (estimate_plan_cost CostModel_new c)
                   <= cpu_cost (estimate_plan_cost CostModel_new
                                  (sample_join SORT_MERGE_JOIN
                                     users_scan orders_scan)))%R
               /\ (total_cost (estimate_plan_cost CostModel_new c)
                   <= total_cost (estimate_plan_cost CostModel_new
                                    (sample_join SORT_MERGE_JOIN
                                       users_scan orders_scan)))%R)
            [users_scan; orders_scan].
Proof.
  split; [exact CostModel_new_in_range|].
  exact (proj2 (proj2 (costs_grow_towards_the_root CostModel_new
                         CostModel_new_in_range
                         (SortMergeJoinNode INNER users_orders_condition
                            NodeInfo_default [users_scan; orders_scan])))).
Defined.


Lemma never_scans_children (t : string) (p : PlanNode) :
  never_scans t p -> Forall (never_scans t) (node_children p).
Proof. intros H. by inversion H. Qed.

Lemma set_table_statistics_cardinality (cm : CostModel) (t : string)
    (st : TableStatistics) (p : PlanNode) :
  never_scans t p ->
  estimate_output_cardinality (set_table_statistics cm t st) p
  = estimate_output_cardinality cm p.
Proof.
  induction p as [p IH] using PlanNode_children_ind. intros Hp.
  pose proof (never_scans_children t p Hp) as Hch.
  destruct p as [t' a i ch|k i ch|pl i ch|j k i ch|j k i ch|j k i ch];
    cbn [node_children estimate_output_cardinality] in *.
  - inversion Hp as [? Ht _]; subst.
    unfold set_table_statistics. cbn [table_stats].
    by rewrite lookup_insert_ne.
  - destruct ch as [|c ch]; [done|].
    inversion IH as [|? ? IHc _]; inversion Hch as [|? ? Hc _]; subst.
    by rewrite IHc.
  - destruct ch as [|c ch]; [done|].
    inversion IH as [|? ? IHc _]; inversion Hch as [|? ? Hc _]; subst.
    by rewrite IHc.
  - destruct ch as [|l [|r rest]]; try done.
    inversion IH as [|? ? IHl IH']; inversion Hch as [|? ? Hl Hch']; subst.
    inversion IH' as [|? ? IHr _]; inversion Hch' as [|? ? Hr _]; subst.
    by rewrite IHl, IHr.
  - destruct ch as [|l [|r rest]]; try done.
    inversion IH as [|? ? IHl IH']; inversion Hch as [|? ? Hl Hch']; subst.
    inversion IH' as [|? ? IHr _]; inversion Hch' as [|? ? Hr _]; subst.
    by rewrite IHl, IHr.
  - destruct ch as [|l [|r rest]]; try done.
    inversion IH as [|? ? IHl IH']; inversion Hch as [|? ? Hl Hch']; subst.
    inversion IH' as [|? ? IHr _]; inversion Hch' as [|? ? Hr _]; subst.
    by rewrite IHl, IHr.
Qed.

Lemma set_table_statistics_cost (cm : CostModel) (t : string)
    (st : TableStatistics) (p : PlanNode) :
  never_scans t p ->
  estimate_plan_cost (set_table_statistics cm t st) p
  = estimate_plan_cost cm p.
Proof.
  induction p as [p IH] using PlanNode_children_ind. intros Hp.
  pose proof (never_scans_children t p Hp) as Hch.
  destruct p as [t' a i ch|k i ch|pl i ch|j k i ch|j k i ch|j k i ch];
    cbn [node_children estimate_plan_cost] in *.
  - inversion Hp as [? Ht _]; subst.
    unfold estimate_table_scan_cost, set_table_statistics.
    cbn [table_stats]. by rewrite lookup_insert_ne.
  - destruct ch as [|c ch]; [done|].
    inversion IH as [|? ? IHc _]; inversion Hch as [|? ? Hc _]; subst.
    by rewrite IHc, set_table_statistics_cardinality.
  - destruct ch as [|c ch]; [done|].
    inversion IH as [|? ? IHc _]; inversion Hch as [|? ? Hc _]; subst.
    by rewrite IHc, set_table_statistics_cardinality.
  - destruct ch as [|l [|r rest]]; try done.
    inversion IH as [|? ? IHl IH']; inversion Hch as [|? ? Hl Hch']; subst.
    inversion IH' as [|? ? IHr _]; inversion Hch' as [|? ? Hr _]; subst.
    by rewrite IHl, IHr, !set_table_statistics_cardinality.
  - destruct ch as [|l [|r rest]]; try done.
    inversion IH as [|? ? IHl IH']; inversion Hch as [|? ? Hl Hch']; subst.
    inversion IH' as [|? ? IHr _]; inversion Hch' as [|? ? Hr _]; subst.
    by rewrite IHl, IHr, !set_table_statistics_cardinality.
  - destruct ch as [|l [|r rest]]; try done.
    inversion IH as [|? ? IHl IH']; inversion Hch as [|? ? Hl Hch']; subst.
    inversion IH' as [|? ? IHr _]; inversion Hch' as [|? ? Hr _]; subst.
    by rewrite IHl, IHr, !set_table_statistics_cardinality.
Qed.

(** X20.  [set_table_statistics] replaces the statistics of one table
    only.  A scan of that table is afterwards estimated from the new
    figures (rows = tuple_count, io = pages * 1.0, cpu = tuples * 0.01,
    whatever was registered before), and every plan that does not scan
    the table keeps its cardinality and cost estimates. *)
Theorem set_table_statistics_is_local (cm : CostModel) (t : string)
    (st : TableStatistics) :
  (forall a i ch,
      estimate_output_cardinality (set_table_statistics cm t st)
        (TableScanNode t a i ch) = tuple_count st
      /\ estimate_plan_cost (set_table_statistics cm t st)
           (TableScanNode t a i ch)
         = CostEstimate_new (IZR (page_count_ts st) * 1.0)%R
                            (IZR (tuple_count st) * 0.01)%R)
  /\ (forall p, never_scans t p ->
         estimate_output_cardinality (set_table_statistics cm t st) p
         = estimate_output_cardinality cm p
         /\ estimate_plan_cost (set_table_statistics cm t st) p
            = estimate_plan_cost cm p).
Proof.
  split.
  - intros a i ch.
    cbn [estimate_output_cardinality estimate_plan_cost].
    unfold estimate_table_scan_cost, set_table_statistics.
    cbn [table_stats]. rewrite lookup_insert_eq. done.
  - intros p Hp. split.
    + by apply set_table_statistics_cardinality.
    + by apply set_table_statistics_cost.
Qed.

Lemma set_table_statistics_is_local_witness :
  never_scans "orders" users_scan
  /\ estimate_plan_cost
       (set_table_statistics CostModel_new "orders"
          (TableStatistics_new 7 1 100)) users_scan
     = estimate_plan_cost CostModel_new users_scan.
Proof.
  assert (H : never_scans "orders" users_scan).
  { constructor; [discriminate|constructor]. }
  split; [exact H|].
  exact (proj2 (proj2 (set_table_statistics_is_local CostModel_new "orders"
                         (TableStatistics_new 7 1 100)) users_scan H)).
Defined.

(** * The optimizer's choice between the join algorithms *)

Lemma estimate_sort_cost_bound (tuples : Z) :
  0 <= tuples < 2 ^ 64 ->
  (estimate_sort_cost tuples <= 0.32 * IZR tuples)%R.
Proof.
  intros [H0 H1].
  unfold estimate_sort_cost, CPU_OPERATOR_COST, MEMORY_SORT_COST.
  destruct (Z.leb_spec tuples 1) as [_|Ht].
  - assert (0 <= IZR tuples)%R by (apply IZR_le; lia). lra.
  - assert (Hgt : (1 < IZR tuples)%R) by (apply IZR_lt; lia).
    assert (Hlt : (IZR tuples < 2 ^ 64)%R).
    { rewrite (pow_IZR 2 64). apply IZR_lt.
      change (Z.of_nat 64) with 64. lia. }
    unfold log2_safe. destruct (Rle_dec (IZR tuples) 1) as [?|_]; [lra|].
    pose proof (log2_upper (IZR tuples) 64 ltac:(lra) Hlt) as Hu.
    rewrite INR_IZR_INZ in Hu. change (Z.of_nat 64) with 64 in Hu.
    assert (IZR tuples * log2 (IZR tuples) <= IZR tuples * 64)%R.
    { apply Rmult_le_compat_l; lra. }
    lra.
Qed.

(** The sort-merge join costs at least one unit and an eighth of a unit
    per input tuple less than the hash join, which costs at most one unit
    and two per input tuple. *)
Lemma sort_merge_below_hash (l r : Z) :
  0 <= l < 2 ^ 64 -> 0 <= r < 2 ^ 64 ->
  let hash :=
    estimate_hash_join_cost (Z.min l r) (Z.max l r)
      (Z.max 1 (Z.min l r / 100)) in
  (0 <= estimate_sort_merge_cost l r)%R
  /\ (estimate_sort_merge_cost l r + 1 + (IZR l + IZR r) / 8 <= hash)%R
  /\ (hash <= 1 + 2 * (IZR l + IZR r))%R.
Proof.
  intros Hl Hr. cbv zeta.
  unfold estimate_sort_merge_cost, estimate_hash_join_cost, size_add,
         CPU_OPERATOR_COST, HASH_BUILD_COST, HASH_PROBE_COST,
         SEQUENTIAL_IO_COST.
  pose proof (estimate_sort_cost_bound l Hl) as Hsl.
  pose proof (estimate_sort_cost_bound r Hr) as Hsr.
  pose proof (estimate_sort_cost_nonneg l) as Hnl.
  pose proof (estimate_sort_cost_nonneg r) as Hnr.
  assert (Hw : (0 <= IZR (wrap (l + r)) <= IZR l + IZR r)%R).
  { rewrite <- plus_IZR. split; apply IZR_le; [apply wrap_range|].
    unfold wrap, SIZE_MAX1. apply Z.mod_le; lia. }
  assert (Hp : (1 <= IZR (Z.max 1 (Z.min l r / 100)))%R)
    by (apply IZR_le; lia).
  assert (Hp' : (IZR (Z.max 1 (Z.min l r / 100)) <= 1 + IZR (Z.min l r))%R).
  { rewrite <- (plus_IZR 1). apply IZR_le.
    assert (Z.min l r / 100 <= Z.min l r)
      by (apply Z.div_le_upper_bound; lia).
    lia. }
  assert (0 <= IZR l)%R by (apply IZR_le; lia).
  assert (0 <= IZR r)%R by (apply IZR_le; lia).
  destruct (Z.le_ge_cases l r) as [Hle|Hle].
  - rewrite (Z.min_l l r), (Z.max_r l r) in * by lia.
    assert (IZR l <= IZR r)%R by (apply IZR_le; lia). lra.
  - rewrite (Z.min_r l r), (Z.max_l l r) in * by lia.
    assert (IZR r <= IZR l)%R by (apply IZR_le; lia). lra.
Qed.

Lemma join_cost_sort_merge_below_hash (lc1 lc2 rc : CostEstimate) (l r : Z) :
  0 <= l < 2 ^ 64 -> 0 <= r < 2 ^ 64 ->
  io_cost lc1 = io_cost lc2 -> (cpu_cost lc1 <= cpu_cost lc2)%R ->
  io_cost (join_cost_of SORT_MERGE_JOIN lc1 rc l r)
  = io_cost (join_cost_of HASH_JOIN lc2 rc l r)
  /\ (cpu_cost (join_cost_of SORT_MERGE_JOIN lc1 rc l r) + 1
      <= cpu_cost (join_cost_of HASH_JOIN lc2 rc l r))%R.
Proof.
  intros Hl Hr Hio Hcpu.
  cbn [join_cost_of CostEstimate_new io_cost cpu_cost].
  destruct (sort_merge_below_hash l r Hl Hr) as (H0 & H1 & H2).
  assert (0 <= IZR l)%R by (apply IZR_le; lia).
  assert (0 <= IZR r)%R by (apply IZR_le; lia).
  split; [by rewrite Hio | lra].
Qed.



(** Two plans of equal estimated cardinality and io cost, the first with
    no more cpu cost than the second. *)
Lemma build_join_node_sort_merge_below_hash
    (cm : CostModel) (p1 p2 right : PlanNode) (j : JoinClause) :
  stats_in_range cm ->
  estimate_output_cardinality cm p1 = estimate_output_cardinality cm p2 ->
  io_cost (estimate_plan_cost cm p1) = io_cost (estimate_plan_cost cm p2) ->
  (cpu_cost (estimate_plan_cost cm p1)
   <= cpu_cost (estimate_plan_cost cm p2))%R ->
  estimate_output_cardinality cm (build_join_node p1 right j SORT_MERGE_JOIN)
  = estimate_output_cardinality cm (build_join_node p2 right j HASH_JOIN)
  /\ io_cost (estimate_plan_cost cm (build_join_node p1 right j SORT_MERGE_JOIN))
     = io_cost (estimate_plan_cost cm (build_join_node p2 right j HASH_JOIN))
  /\ (cpu_cost (estimate_plan_cost cm
                  (build_join_node p1 right j SORT_MERGE_JOIN)) + 1
      <= cpu_cost (estimate_plan_cost cm
                     (build_join_node p2 right j HASH_JOIN)))%R.
Proof.
  intros Hcm Hcard Hio Hcpu. unfold build_join_node.
  cbn [estimate_output_cardinality estimate_plan_cost].
  rewrite Hcard. split; [done|].
  apply join_cost_sort_merge_below_hash; try done;
    apply (cardinality_range cm Hcm).
Qed.

Lemma fold_joins_sort_merge_below_hash (cm : CostModel) (pb : PlanBuilder)
    (js : list JoinClause) :
  stats_in_range cm ->
  forall p1 p2,
    estimate_output_cardinality cm p1 = estimate_output_cardinality cm p2 ->
    io_cost (estimate_plan_cost cm p1) = io_cost (estimate_plan_cost cm p2) ->
    (cpu_cost (estimate_plan_cost cm p1) + 1
     <= cpu_cost (estimate_plan_cost cm p2))%R ->
    estimate_output_cardinality cm (fold_joins pb p1 js SORT_MERGE_JOIN)
    = estimate_output_cardinality cm (fold_joins pb p2 js HASH_JOIN)
    /\ io_cost (estimate_plan_cost cm (fold_joins pb p1 js SORT_MERGE_JOIN))
       = io_cost (estimate_plan_cost cm (fold_joins pb p2 js HASH_JOIN))
    /\ (cpu_cost (estimate_plan_cost cm (fold_joins pb p1 js SORT_MERGE_JOIN))
        + 1
        <= cpu_cost (estimate_plan_cost cm (fold_joins pb p2 js HASH_JOIN)))%R.
Proof.
  intros Hcm. unfold fold_joins.
  induction js as [|j js IH]; intros p1 p2 Hcard Hio Hcpu; cbn [fold_left].
  - done.
  - assert (Hle : (cpu_cost (estimate_plan_cost cm p1)
                   <= cpu_cost (estimate_plan_cost cm p2))%R) by lra.
    destruct (build_join_node_sort_merge_below_hash cm p1 p2
                (build_scan_node pb (table j)) j Hcm Hcard Hio Hle)
      as (H1 & H2 & H3).
    by apply IH.
Qed.

Lemma finish_candidate_below (o : QueryOptimizer) (stmt : SelectStatement)
    (p1 p2 : PlanNode) :
  estimate_output_cardinality (cost_model o) p1
  = estimate_output_cardinality (cost_model o) p2 ->
  io_cost (estimate_plan_cost (cost_model o) p1)
  = io_cost (estimate_plan_cost (cost_model o) p2) ->
  (cpu_cost (estimate_plan_cost (cost_model o) p1) + 1
   <= cpu_cost (estimate_plan_cost (cost_model o) p2))%R ->
  (total_cost (candidate_cost (finish_candidate o stmt p1)) + 1
   <= total_cost (candidate_cost (finish_candidate o stmt p2)))%R.
Proof.
  intros Hcard Hio Hcpu.
  unfold finish_candidate, build_project_node, apply_where, build_filter_node.
  cbn [candidate_cost].
  destruct (where_clause stmt) as [w|];
    cbn [estimate_plan_cost estimate_output_cardinality CostEstimate_new
         total_cost io_cost cpu_cost];
    rewrite Hcard, Hio; lra.
Qed.

Lemma finish_candidate_nonneg (o : QueryOptimizer) (stmt : SelectStatement)
    (p : PlanNode) :
  stats_in_range (cost_model o) ->
  (0 <= total_cost (candidate_cost (finish_candidate o stmt p)))%R.
Proof.
  intros Hcm. unfold finish_candidate. cbn [candidate_cost].
  set (q := build_project_node _ _).
  destruct (estimate_plan_cost_nonneg (cost_model o) Hcm q) as [H1 H2].
  pose proof (estimate_plan_cost_consistent (cost_model o) q) as H.
  unfold cost_consistent in H. lra.
Qed.

Lemma without_hash_join_scan (pb : PlanBuilder) (t : TableReference) :
  without_hash_join (build_scan_node pb t).
Proof. constructor; [discriminate | constructor]. Qed.

Lemma without_hash_join_join (l r : PlanNode) (j : JoinClause)
    (algorithm : PlanNodeType) :
  algorithm <> HASH_JOIN ->
  without_hash_join l -> without_hash_join r ->
  without_hash_join (build_join_node l r j algorithm).
Proof.
  intros Ha Hl Hr. unfold build_join_node.
  destruct algorithm; try done;
    (constructor; [discriminate|]); cbn [node_children]; auto.
Qed.

Lemma without_hash_join_fold (pb : PlanBuilder) (js : list JoinClause)
    (algorithm : PlanNodeType) :
  algorithm <> HASH_JOIN ->
  forall p, without_hash_join p ->
            without_hash_join (fold_joins pb p js algorithm).
Proof.
  intros Ha. unfold fold_joins.
  induction js as [|j js IH]; intros p Hp; cbn [fold_left]; [done|].
  apply IH, without_hash_join_join; try done.
Qed.

Lemma without_hash_join_finish (o : QueryOptimizer) (stmt : SelectStatement)
    (p : PlanNode) :
  without_hash_join p -> without_hash_join (plan (finish_candidate o stmt p)).
Proof.
  intros Hp. unfold finish_candidate. cbn [plan].
  constructor.
  - unfold build_project_node. cbn [set_cost set_info node_type]. discriminate.
  - rewrite node_children_set_cost. unfold build_project_node.
    cbn [node_children]. constructor; [|constructor].
    unfold apply_where. destruct (where_clause stmt) as [w|]; [|done].
    unfold build_filter_node.
    constructor; [discriminate|]. cbn [node_children]. auto.
Qed.

Lemma without_hash_join_set_cost (p : PlanNode) (c : CostEstimate) :
  without_hash_join p -> without_hash_join (set_cost p c).
Proof.
  intros Hp. inversion Hp as [? Ht Hch]; subst. constructor.
  - by destruct p.
  - by rewrite node_children_set_cost.
Qed.

Lemma set_cost_twice (p : PlanNode) (c : CostEstimate) :
  set_cost (set_cost p c) c = set_cost p c.
Proof. by destruct p. Qed.

Lemma near_refl (x : R) : near x x.
Proof.
  unfold near. replace (x - x)%R with 0%R by lra. rewrite Rabs_R0.
  pose proof (Rabs_pos x). lra.
Qed.

Lemma finish_candidate_evaluated (o : QueryOptimizer) (stmt : SelectStatement)
    (p : PlanNode) :
  evaluated_as (finish_candidate o stmt p) (finish_candidate o stmt p).
Proof.
  split; [|apply near_refl].
  unfold finish_candidate. cbn [plan candidate_cost].
  by rewrite set_cost_twice.
Qed.

Lemma select_best_plan_least (candidates : list PlanCandidate) :
  candidates <> [] ->
  exists best,
    In best candidates
    /\ select_best_plan candidates = Some (plan best)
    /\ forall c, In c candidates ->
                 (total_cost (candidate_cost best)
                  <= total_cost (candidate_cost c))%R.
Proof.
  intros Hne.
  destruct (select_best_plan_spec candidates Hne)
    as (pre & best & post & Heq & Hsel & Hpre & Hpost).
  exists best. split; [|split; [exact Hsel|]].
  - rewrite Heq. apply in_or_app. right. by left.
  - intros c Hc. rewrite Heq in Hc.
    rewrite List.Forall_forall in Hpre, Hpost.
    apply in_app_or in Hc as [Hc|[<-|Hc]].
    + apply Rlt_le. by apply Hpre.
    + lra.
    + by apply Hpost.
Qed.

(** A candidate is not the least of a list that holds a candidate
    computed strictly below it. *)
Lemma twin_is_computed_below (s h s' h' : PlanCandidate) :
  (0 <= total_cost (candidate_cost s))%R ->
  (total_cost (candidate_cost s) + 1 <= total_cost (candidate_cost h))%R ->
  (total_cost (candidate_cost h) <= 2 ^ 40)%R ->
  evaluated_as s s' -> evaluated_as h h' ->
  (total_cost (candidate_cost s') < total_cost (candidate_cost h'))%R.
Proof.
  intros H0 H1 H2 [_ Hs] [_ Hh].
  apply (near_order_split (total_cost (candidate_cost h)) 0
           (total_cost (candidate_cost s)) (total_cost (candidate_cost h)));
    try done; lra.
Qed.

(** The choice among the candidates as the program computes their
    costs. *)
Lemma computed_choice_has_no_hash_join
    (o : QueryOptimizer) (stmt : SelectStatement)
    (candidates' : list PlanCandidate) :
  stats_in_range (cost_model o) ->
  joins stmt <> [] ->
  (forall c, In c (generate_all_plans o stmt) ->
             without_hash_join (plan c)
             \/ (total_cost (candidate_cost c) <= 2 ^ 40)%R) ->
  Forall2 evaluated_as (generate_all_plans o stmt) candidates' ->
  exists p, select_best_plan candidates' = Some p /\ without_hash_join p.
Proof.
  intros Hcm Hj Hbound Hev.
  assert (Hne : candidates' <> []).
  { intros ->. inversion Hev as [Hnil|]; subst.
    by apply (generate_all_plans_nonempty o stmt). }
  destruct (select_best_plan_least candidates' Hne)
    as (best & Hin & Hsel & Hmin).
  exists (plan best). split; [exact Hsel|].
  destruct (joins stmt) as [|j js] eqn:Ejs; [done|].
  unfold generate_all_plans in Hev, Hbound. rewrite Ejs in Hev, Hbound.
  set (f := fun algorithm =>
              finish_candidate o stmt
                (fold_joins (plan_builder o)
                   (build_scan_node (plan_builder o) (from_table stmt))
                   (j :: js) algorithm)) in *.
  set (g := fun algorithm =>
              finish_candidate o stmt
                (build_join_node
                   (build_scan_node (plan_builder o) (table j))
                   (build_scan_node (plan_builder o) (from_table stmt))
                   j algorithm)) in *.
  assert (Hf : forall a, a <> HASH_JOIN -> without_hash_join (plan (f a))).
  { intros a Ha. apply without_hash_join_finish, without_hash_join_fold;
      [done | apply without_hash_join_scan]. }
  assert (Hg : forall a, a <> HASH_JOIN -> without_hash_join (plan (g a))).
  { intros a Ha. apply without_hash_join_finish, without_hash_join_join;
      [done | apply without_hash_join_scan | apply without_hash_join_scan]. }
  assert (Hflt : (total_cost (candidate_cost (f SORT_MERGE_JOIN)) + 1
                  <= total_cost (candidate_cost (f HASH_JOIN)))%R).
  { unfold f, fold_joins. cbn [fold_left].
    destruct (build_join_node_sort_merge_below_hash (cost_model o)
                (build_scan_node (plan_builder o) (from_table stmt))
                (build_scan_node (plan_builder o) (from_table stmt))
                (build_scan_node (plan_builder o) (table j)) j Hcm
                eq_refl eq_refl (Rle_refl _)) as (H1 & H2 & H3).
    destruct (fold_joins_sort_merge_below_hash (cost_model o) (plan_builder o)
                js Hcm _ _ H1 H2 H3) as (H4 & H5 & H6).
    by apply finish_candidate_below. }
  assert (Hglt : (total_cost (candidate_cost (g SORT_MERGE_JOIN)) + 1
                  <= total_cost (candidate_cost (g HASH_JOIN)))%R).
  { unfold g.
    destruct (build_join_node_sort_merge_below_hash (cost_model o)
                (build_scan_node (plan_builder o) (table j))
                (build_scan_node (plan_builder o) (table j))
                (build_scan_node (plan_builder o) (from_table stmt)) j Hcm
                eq_refl eq_refl (Rle_refl _)) as (H1 & H2 & H3).
    by apply finish_candidate_below. }
  assert (Hkeep : forall c c', evaluated_as c c' ->
                    without_hash_join (plan c) -> without_hash_join (plan c')).
  { intros c c' [-> _] Hc. by apply without_hash_join_set_cost. }
  assert (Hout : forall s h s' h',
            s = f SORT_MERGE_JOIN /\ h = f HASH_JOIN
            \/ s = g SORT_MERGE_JOIN /\ h = g HASH_JOIN ->
            without_hash_join (plan h)
            \/ (total_cost (candidate_cost h) <= 2 ^ 40)%R ->
            evaluated_as s s' -> evaluated_as h h' ->
            (total_cost (candidate_cost h') <= total_cost (candidate_cost s'))%R ->
            without_hash_join (plan h')).
  { intros s h s' h' Hsh [Hh|Hh] Hs' Hh' Hle; [by apply (Hkeep h)|].
    exfalso.
    assert (total_cost (candidate_cost s') < total_cost (candidate_cost h'))%R;
      [|lra].
    apply (twin_is_computed_below s h); try done.
    - destruct Hsh as [[-> _]|[-> _]]; by apply finish_candidate_nonneg.
    - by destruct Hsh as [[-> ->]|[-> ->]]. }
  destruct js as [|j' js'].
  - cbn [map join_algorithms app] in Hev, Hbound.
    inversion Hev as [|c1 a1 ? l1 E1 T1]; subst.
    inversion T1 as [|c2 a2 ? l2 E2 T2]; subst.
    inversion T2 as [|c3 a3 ? l3 E3 T3]; subst.
    inversion T3 as [|c4 a4 ? l4 E4 T4]; subst.
    inversion T4 as [|c5 a5 ? l5 E5 T5]; subst.
    inversion T5 as [|c6 a6 ? l6 E6 T6]; subst.
    inversion T6; subst.
    cbn [In] in Hin.
    destruct Hin as [<-|[<-|[<-|[<-|[<-|[<-|[]]]]]]].
    + by apply (Hkeep _ _ E1), Hf.
    + apply (Hout _ _ a3 a2 (or_introl (conj eq_refl eq_refl))); try done.
      * apply Hbound. cbn. auto.
      * apply Hmin. cbn. auto.
    + by apply (Hkeep _ _ E3), Hf.
    + by apply (Hkeep _ _ E4), Hg.
    + apply (Hout _ _ a6 a5 (or_intror (conj eq_refl eq_refl))); try done.
      * apply Hbound. cbn. auto 10.
      * apply Hmin. cbn. auto 10.
    + by apply (Hkeep _ _ E6), Hg.
  - cbn [map join_algorithms] in Hev, Hbound.
    inversion Hev as [|c1 a1 ? l1 E1 T1]; subst.
    inversion T1 as [|c2 a2 ? l2 E2 T2]; subst.
    inversion T2 as [|c3 a3 ? l3 E3 T3]; subst.
    inversion T3; subst.
    cbn [In] in Hin.
    destruct Hin as [<-|[<-|[<-|[]]]].
    + by apply (Hkeep _ _ E1), Hf.
    + apply (Hout _ _ a3 a2 (or_introl (conj eq_refl eq_refl))); try done.
      * apply Hbound. cbn. auto.
      * apply Hmin. cbn. auto.
    + by apply (Hkeep _ _ E3), Hf.
Qed.

(** X22.  With [size_t] statistics, and when every candidate that holds
    a hash join is estimated at no more than 2^40, [optimize] does not
    return a hash join: for every statement with at least one join the
    plan it returns holds no HashJoin node, because every hash-join
    candidate of [generate_all_plans] has a sort-merge twin in the same
    list whose estimate is lower by 1 or more, a margin that rounding
    does not close at these magnitudes.  Nor does the plan hold a
    HashJoin node that is chosen among the candidates with the costs the
    program computes for them. *)
Theorem optimize_picks_no_hash_join_at_moderate_costs
    (o : QueryOptimizer) (stmt : SelectStatement) :
  stats_in_range (cost_model o) ->
  joins stmt <> [] ->
  (forall c, In c (generate_all_plans o stmt) ->
             without_hash_join (plan c)
             \/ (total_cost (candidate_cost c) <= 2 ^ 40)%R) ->
  (exists p, optimize o stmt = Some p /\ without_hash_join p)
  /\ forall candidates' : list PlanCandidate,
       Forall2 evaluated_as (generate_all_plans o stmt) candidates' ->
       exists p, select_best_plan candidates' = Some p
                 /\ without_hash_join p.
Proof.
  intros Hcm Hj Hbound. split.
  - replace (optimize o stmt)
      with (select_best_plan (generate_all_plans o stmt))
      by (unfold optimize, optimize_join_query; by destruct (joins stmt)).
    apply (computed_choice_has_no_hash_join o stmt); try done.
    unfold generate_all_plans.
    destruct (joins stmt) as [|j [|j' js]]; cbn [map join_algorithms app];
      repeat (apply List.Forall2_cons; [apply finish_candidate_evaluated|]);
      apply List.Forall2_nil.
  - intros candidates'.
    by apply computed_choice_has_no_hash_join.
Qed.

Lemma set_table_statistics_in_range (cm : CostModel) (t : string)
    (st : TableStatistics) :
  stats_in_range cm ->
  0 <= tuple_count st < 2 ^ 64 -> 0 <= page_count_ts st < 2 ^ 64 ->
  stats_in_range (set_table_statistics cm t st).
Proof.
  intros Hcm Ht Hp n st' H. unfold set_table_statistics in H.
  cbn [table_stats] in H.
  apply lookup_insert_Some in H as [[_ <-]|[_ H]]; [done|].
  by apply (Hcm n).
Qed.

Lemma QueryOptimizer_new_in_range :
  stats_in_range (cost_model QueryOptimizer_new).
Proof.
  unfold QueryOptimizer_new. cbn [cost_model].
  repeat apply set_table_statistics_in_range;
    try exact CostModel_new_in_range; cbn [tuple_count page_count_ts
                                           TableStatistics_new]; lia.
Qed.

Lemma join_cost_of_sample (lc rc : CostEstimate) :
  io_cost lc = 10%R -> cpu_cost lc = 10%R ->
  io_cost rc = 50%R -> cpu_cost rc = 50%R ->
  total_cost (join_cost_of HASH_JOIN lc rc 1000 5000) = 3630%R
  /\ total_cost (join_cost_of NESTED_LOOP_JOIN lc rc 1000 5000) = 412620%R
  /\ (480%R < total_cost (join_cost_of SORT_MERGE_JOIN lc rc 1000 5000))%R
  /\ (total_cost (join_cost_of SORT_MERGE_JOIN lc rc 1000 5000) < 510%R)%R
  /\ total_cost (join_cost_of HASH_JOIN rc lc 5000 1000) = 3630%R
  /\ total_cost (join_cost_of NESTED_LOOP_JOIN rc lc 5000 1000) = 412620%R
  /\ total_cost (join_cost_of SORT_MERGE_JOIN rc lc 5000 1000)
     = total_cost (join_cost_of SORT_MERGE_JOIN lc rc 1000 5000).
Proof.
  intros Hl1 Hl2 Hr1 Hr2.
  unfold join_cost_of, estimate_hash_join_cost, estimate_nested_loop_cost,
         estimate_sort_merge_cost.
  rewrite Hl1, Hl2, Hr1, Hr2.
  change (Z.min 1000 5000) with 1000.
  change (Z.max 1000 5000) with 5000.
  change (Z.min 5000 1000) with 1000.
  change (Z.max 5000 1000) with 5000.
  change (Z.max 1 (1000 / 100)) with 10.
  change (Z.max 1 (5000 / 100)) with 50.
  change (size_mul 1000 50) with 50000.
  change (size_mul 5000 10) with 50000.
  change (size_mul 1000 5000) with 5000000.
  change (size_mul 5000 1000) with 5000000.
  change (size_add 1000 5000) with 6000.
  change (size_add 5000 1000) with 6000.
  pose proof estimate_sort_cost_1000. pose proof estimate_sort_cost_5000.
  unfold RANDOM_IO_COST, CPU_OPERATOR_COST, HASH_BUILD_COST, HASH_PROBE_COST,
         SEQUENTIAL_IO_COST.
  cbn [total_cost io_cost cpu_cost CostEstimate_new].
  repeat split; lra.
Qed.

Lemma finish_candidate_shift (o : QueryOptimizer) (stmt : SelectStatement)
    (p1 p2 : PlanNode) :
  estimate_output_cardinality (cost_model o) p1
  = estimate_output_cardinality (cost_model o) p2 ->
  (total_cost (candidate_cost (finish_candidate o stmt p1))
   - total_cost (candidate_cost (finish_candidate o stmt p2))
   = total_cost (estimate_plan_cost (cost_model o) p1)
     - total_cost (estimate_plan_cost (cost_model o) p2))%R.
Proof.
  intros Hcard.
  pose proof (estimate_plan_cost_consistent (cost_model o) p1) as H1.
  pose proof (estimate_plan_cost_consistent (cost_model o) p2) as H2.
  unfold cost_consistent in H1, H2.
  unfold finish_candidate, build_project_node, apply_where, build_filter_node.
  cbn [candidate_cost].
  destruct (where_clause stmt) as [w|];
    cbn [estimate_plan_cost estimate_output_cardinality CostEstimate_new
         total_cost io_cost cpu_cost];
    rewrite Hcard; lra.
Qed.

Lemma stock_scan_estimates (alias : string) :
  let cm := cost_model QueryOptimizer_new in
  let users := build_scan_node PlanBuilder_new (mkTableReference "users" alias) in
  let orders := build_scan_node PlanBuilder_new (mkTableReference "orders" alias) in
  estimate_output_cardinality cm users = 1000
  /\ estimate_output_cardinality cm orders = 5000
  /\ io_cost (estimate_plan_cost cm users) = 10%R
  /\ cpu_cost (estimate_plan_cost cm users) = 10%R
  /\ io_cost (estimate_plan_cost cm orders) = 50%R
  /\ cpu_cost (estimate_plan_cost cm orders) = 50%R.
Proof.
  cbv zeta. unfold build_scan_node, QueryOptimizer_new, set_table_statistics.
  cbn [cost_model ref_table_name ref_alias estimate_output_cardinality
       estimate_plan_cost table_stats].
  unfold estimate_table_scan_cost. cbn [table_stats].
  rewrite lookup_insert_eq.
  rewrite (lookup_insert_ne _ "orders" "users") by done.
  rewrite lookup_insert_eq.
  cbn [TableStatistics_new tuple_count page_count_ts CostEstimate_new
       io_cost cpu_cost].
  unfold SEQUENTIAL_IO_COST, CPU_TUPLE_COST.
  repeat split; lra.
Qed.

(** The choice of the optimizer as constructed among the six candidates
    of a users-orders join: the swapped sort-merge candidate costs the
    same and comes later in the list, the others cost more. *)
Lemma stock_users_orders_choice
    (items : list SelectItem) (w : option Expression)
    (jt : JoinClauseType.t) (condition : Expression)
    (users_alias orders_alias : string) :
  let users := mkTableReference "users" users_alias in
  let orders := mkTableReference "orders" orders_alias in
  let j := mkJoinClause jt orders condition in
  let p :=
    build_project_node
      (apply_where
         (build_join_node (build_scan_node PlanBuilder_new users)
                          (build_scan_node PlanBuilder_new orders)
                          j SORT_MERGE_JOIN) w)
      items in
  optimize QueryOptimizer_new (mkSelectStatement items users [j] w)
  = Some (set_cost p (estimate_plan_cost (cost_model QueryOptimizer_new) p)).
Proof.
  cbv zeta.
  set (users := mkTableReference "users" users_alias).
  set (orders := mkTableReference "orders" orders_alias).
  set (j := mkJoinClause jt orders condition).
  set (stmt := mkSelectStatement items users [j] w).
  set (o := QueryOptimizer_new).
  set (us := build_scan_node PlanBuilder_new users).
  set (os := build_scan_node PlanBuilder_new orders).
  destruct (stock_scan_estimates users_alias) as (Hcu & _ & Hu1 & Hu2 & _).
  destruct (stock_scan_estimates orders_alias) as (_ & Hco & _ & _ & Ho1 & Ho2).
  fold users us o in Hcu, Hu1, Hu2. fold orders os o in Hco, Ho1, Ho2.
  set (f := fun a => finish_candidate o stmt (build_join_node us os j a)).
  set (g := fun a => finish_candidate o stmt (build_join_node os us j a)).
  change (optimize o stmt) with
    (select_best_plan
       [f NESTED_LOOP_JOIN; f HASH_JOIN; f SORT_MERGE_JOIN;
        g NESTED_LOOP_JOIN; g HASH_JOIN; g SORT_MERGE_JOIN]).
  assert (Hcard : forall a b,
            In a join_algorithms -> In b join_algorithms ->
            estimate_output_cardinality (cost_model o) (build_join_node us os j a)
            = estimate_output_cardinality (cost_model o)
                (build_join_node os us j b)
            /\ estimate_output_cardinality (cost_model o)
                 (build_join_node us os j a)
               = estimate_output_cardinality (cost_model o)
                   (build_join_node us os j b)).
  { intros a b Ha Hb. unfold build_join_node, size_mul.
    cbn [join_algorithms In] in Ha, Hb.
    destruct Ha as [<-|[<-|[<-|[]]]]; destruct Hb as [<-|[<-|[<-|[]]]];
      cbn [estimate_output_cardinality]; unfold size_mul;
      rewrite (Z.mul_comm (estimate_output_cardinality (cost_model o) os));
      done. }
  destruct (join_cost_of_sample (estimate_plan_cost (cost_model o) us)
              (estimate_plan_cost (cost_model o) os) Hu1 Hu2 Ho1 Ho2)
    as (JH & JN & JS1 & JS2 & JH' & JN' & JS').
  assert (Hj : forall a x y,
            In a join_algorithms ->
            estimate_plan_cost (cost_model o) (build_join_node x y j a)
            = join_cost_of a (estimate_plan_cost (cost_model o) x)
                (estimate_plan_cost (cost_model o) y)
                (estimate_output_cardinality (cost_model o) x)
                (estimate_output_cardinality (cost_model o) y)).
  { intros a x y Ha. cbn [join_algorithms In] in Ha.
    destruct Ha as [<-|[<-|[<-|[]]]]; reflexivity. }
  assert (Hin : forall a, a = NESTED_LOOP_JOIN \/ a = HASH_JOIN
                          \/ a = SORT_MERGE_JOIN -> In a join_algorithms).
  { intros a [-> | [-> | ->]]; cbn; auto. }
  pose proof (finish_candidate_shift o stmt _ _
                (proj2 (Hcard NESTED_LOOP_JOIN SORT_MERGE_JOIN
                          ltac:(cbn; auto) ltac:(cbn; auto)))) as D1.
  pose proof (finish_candidate_shift o stmt _ _
                (proj2 (Hcard HASH_JOIN SORT_MERGE_JOIN
                          ltac:(cbn; auto) ltac:(cbn; auto)))) as D2.
  pose proof (finish_candidate_shift o stmt _ _
                (eq_sym (proj1 (Hcard SORT_MERGE_JOIN NESTED_LOOP_JOIN
                                  ltac:(cbn; auto) ltac:(cbn; auto))))) as D3.
  pose proof (finish_candidate_shift o stmt _ _
                (eq_sym (proj1 (Hcard SORT_MERGE_JOIN HASH_JOIN
                                  ltac:(cbn; auto) ltac:(cbn; auto))))) as D4.
  pose proof (finish_candidate_shift o stmt _ _
                (eq_sym (proj1 (Hcard SORT_MERGE_JOIN SORT_MERGE_JOIN
                                  ltac:(cbn; auto) ltac:(cbn; auto))))) as D5.
  rewrite !Hj in D1, D2, D3, D4, D5 by (cbn; auto).
  rewrite Hcu, Hco in D1, D2, D3, D4, D5.
  fold (f NESTED_LOOP_JOIN) (f HASH_JOIN) (f SORT_MERGE_JOIN)
       (g NESTED_LOOP_JOIN) (g HASH_JOIN) (g SORT_MERGE_JOIN)
    in D1, D2, D3, D4, D5.
  unfold select_best_plan. cbn [min_element_from].
  repeat match goal with
         | |- context [Rlt_dec ?a ?b] => destruct (Rlt_dec a b); try lra
         end.
  reflexivity.
Qed.

(** For the optimizer as constructed the two hash-join candidates of the
    users-orders statement are estimated at 3630 plus the projection of
    at most 5000000 rows, far below 2^40. *)
Lemma stock_hash_candidates_moderate (c : PlanCandidate) :
  In c (generate_all_plans QueryOptimizer_new users_orders_statement) ->
  without_hash_join (plan c) \/ (total_cost (candidate_cost c) <= 2 ^ 40)%R.
Proof.
  set (o := QueryOptimizer_new). set (stmt := users_orders_statement).
  set (users := mkTableReference "users" "").
  set (orders := mkTableReference "orders" "").
  set (j := mkJoinClause JoinClauseType.INNER orders
              (BinaryOpExpression (ColumnExpression "users" "id")
                 (ColumnExpression "orders" "user_id") EQUALS)).
  set (us := build_scan_node PlanBuilder_new users).
  set (os := build_scan_node PlanBuilder_new orders).
  destruct (stock_scan_estimates "") as (Hcu & Hco & Hu1 & Hu2 & Ho1 & Ho2).
  fold users us orders os o in Hcu, Hco, Hu1, Hu2, Ho1, Ho2.
  destruct (join_cost_of_sample (estimate_plan_cost (cost_model o) us)
              (estimate_plan_cost (cost_model o) os) Hu1 Hu2 Ho1 Ho2)
    as (JH & _ & _ & _ & JH' & _ & _).
  assert (Hb : forall x y,
            (total_cost
               (join_cost_of HASH_JOIN (estimate_plan_cost (cost_model o) x)
                  (estimate_plan_cost (cost_model o) y)
                  (estimate_output_cardinality (cost_model o) x)
                  (estimate_output_cardinality (cost_model o) y))
             = 3630)%R ->
            estimate_output_cardinality (cost_model o) x
            * estimate_output_cardinality (cost_model o) y = 5000000 ->
            (total_cost
               (candidate_cost
                  (finish_candidate o stmt (build_join_node x y j HASH_JOIN)))
             <= 2 ^ 40)%R).
  { intros x y Hc Hxy.
    unfold finish_candidate, stmt, users_orders_statement, apply_where,
           build_project_node, build_join_node.
    cbn [where_clause candidate_cost estimate_plan_cost
         estimate_output_cardinality CostEstimate_new total_cost
         io_cost cpu_cost].
    rewrite (join_cost_of_consistent HASH_JOIN) in Hc.
    unfold size_mul. rewrite Hxy. change (wrap 5000000) with 5000000.
    pose proof (Int_part_scaled 5000000
                  (estimate_join_selectivity
                     (expression_to_string (clause_condition j)))
                  ltac:(lia) (join_selectivity_range _)) as [Hi0 Hi].
    apply IZR_le in Hi0, Hi. unfold CPU_OPERATOR_COST. lra. }
  unfold generate_all_plans.
  change (joins users_orders_statement) with [j].
  change (plan_builder QueryOptimizer_new) with PlanBuilder_new.
  change (from_table users_orders_statement) with users.
  change (table j) with orders.
  unfold fold_joins. cbn [fold_left map join_algorithms app In].
  change (table j) with orders. fold us os o stmt.
  intros [<-|[<-|[<-|[<-|[<-|[<-|[]]]]]]].
  - left. apply without_hash_join_finish, without_hash_join_join;
      [done | apply without_hash_join_scan | apply without_hash_join_scan].
  - right. apply (Hb us os); rewrite Hcu, Hco; [exact JH | reflexivity].
  - left. apply without_hash_join_finish, without_hash_join_join;
      [done | apply without_hash_join_scan | apply without_hash_join_scan].
  - left. apply without_hash_join_finish, without_hash_join_join;
      [done | apply without_hash_join_scan | apply without_hash_join_scan].
  - right. apply (Hb os us); rewrite Hcu, Hco; [exact JH' | reflexivity].
  - left. apply without_hash_join_finish, without_hash_join_join;
      [done | apply without_hash_join_scan | apply without_hash_join_scan].
Qed.

Lemma optimize_picks_no_hash_join_at_moderate_costs_witness :
  stats_in_range (cost_model QueryOptimizer_new)
  /\ joins users_orders_statement <> []
  /\ exists p, optimize QueryOptimizer_new users_orders_statement = Some p
               /\ without_hash_join p.
Proof.
  assert (H : joins users_orders_statement <> []) by discriminate.
  split; [exact QueryOptimizer_new_in_range|]. split; [exact H|].
  exact (proj1 (optimize_picks_no_hash_join_at_moderate_costs
                  QueryOptimizer_new users_orders_statement
                  QueryOptimizer_new_in_range H
                  stock_hash_candidates_moderate)).
Defined.

Lemma project_result_size (rs : ResultSet) (projection_list : list string) :
  rs_size (project_result rs projection_list) = rs_size rs.
Proof.
  destruct (decide (projection_list = ["*"])) as [->|Hne]; [done|].
  rewrite (project_result_general rs projection_list Hne).
  cbv zeta. unfold rs_size. cbn [rs_rows]. apply length_map.
Qed.

(** X23.  The optimizer as constructed (users: 1000 tuples on 10 pages,
    orders: 5000 tuples on 50 pages) answers every statement that joins
    users with orders -- whatever its select list, WHERE clause, join
    type, join condition and aliases -- with the sort-merge join that
    keeps users on the left; and without a WHERE clause the plan it
    returns, executed on the sample data, yields 5000 rows, one per
    order, whatever the select list. *)
Theorem stock_optimizer_joins_users_and_orders_by_sort_merge
    (items : list SelectItem)
    (jt : JoinClauseType.t) (condition : Expression)
    (users_alias orders_alias : string) :
  let users := mkTableReference "users" users_alias in
  let orders := mkTableReference "orders" orders_alias in
  let j := mkJoinClause jt orders condition in
  let chosen w :=
    let p :=
      build_project_node
        (apply_where
           (build_join_node (build_scan_node PlanBuilder_new users)
                            (build_scan_node PlanBuilder_new orders)
                            j SORT_MERGE_JOIN) w)
        items in
    set_cost p (estimate_plan_cost (cost_model QueryOptimizer_new) p) in
  (forall w, optimize QueryOptimizer_new (mkSelectStatement items users [j] w)
             = Some (chosen w))
  /\ exists rs, execute sample_tm (chosen None) = Ok rs
                /\ rs_size rs = 5000%nat.
Proof.
  cbv zeta. split.
  { intros w.
    exact (stock_users_orders_choice items w jt condition
             users_alias orders_alias). }
  unfold build_project_node, apply_where, build_join_node, build_scan_node.
  cbn [set_cost set_info ref_table_name ref_alias].
  eexists. split.
  - cbn [execute].
    unfold execute_table_scan. rewrite sample_users_table, sample_orders_table.
    cbn [rbind]. reflexivity.
  - rewrite project_result_size. unfold sort_merge_result, rs_size.
    cbn [rs_rows]. apply Nat2Z.inj. exact sample_sort_merge_length.
Qed.

(** * The id filter *)

Lemma index_lacks (c : ascii) (pat s : string) :
  lacks c s = true -> String.index 0 (String c pat) s = None.
Proof.
  induction s as [|a s IH]; intros H; [done|].
  cbn [lacks] in H. apply andb_prop in H as [Ha Hs].
  cbn [String.index String.prefix].
  destruct (ascii_dec c a) as [->|_].
  - rewrite Ascii.eqb_refl in Ha. discriminate.
  - by rewrite (IH Hs).
Qed.

Lemma append_cons (a : ascii) (s t : string) :
  String a s ++ t = String a (s ++ t).
Proof. reflexivity. Qed.

Lemma append_nil (t : string) : "" ++ t = t.
Proof. reflexivity. Qed.

Lemma lacks_append (c : ascii) (s t : string) :
  lacks c s = true -> lacks c t = true -> lacks c (s ++ t) = true.
Proof.
  intros Hs Ht. induction s as [|a s IH]; [done|].
  rewrite append_cons. cbn [lacks] in *. apply andb_prop in Hs as [Ha Hs].
  rewrite Ha. by rewrite (IH Hs).
Qed.

Lemma lacks_a_string_of_uint (d : Decimal.uint) :
  lacks "a" (NilEmpty.string_of_uint d) = true.
Proof. induction d; cbn; done. Qed.

Lemma uint_nonnil_string (d : Decimal.uint) :
  d <> Decimal.Nil -> NilZero.string_of_uint d = NilEmpty.string_of_uint d.
Proof. by destruct d. Qed.

Lemma lacks_a_to_string (n : Z) : lacks "a" (to_string n) = true.
Proof.
  unfold to_string. destruct n as [|p|p]; [done| |];
    cbn [Z.to_int NilZero.string_of_int lacks];
    rewrite uint_nonnil_string by apply Unsigned.to_uint_nonnil;
    apply lacks_a_string_of_uint.
Qed.

Lemma substring_all (s : string) :
  String.substring 0 (String.length s) s = s.
Proof. induction s as [|a s IH]; [done|]. cbn. by rewrite IH. Qed.

Lemma read_digits_uint (d : Decimal.uint) (rest : string) :
  forall acc,
    read_digits (NilEmpty.string_of_uint d ++ String ")" rest) (Some acc)
    = Some (uint_value d acc).
Proof.
  induction d as [|d IH|d IH|d IH|d IH|d IH|d IH|d IH|d IH|d IH|d IH];
    intros acc; [done|..];
    cbn [NilEmpty.string_of_uint]; rewrite append_cons;
    cbn [read_digits uint_value];
    (change (digit_of _) with (Some 0) || change (digit_of _) with (Some 1)
    || change (digit_of _) with (Some 2) || change (digit_of _) with (Some 3)
    || change (digit_of _) with (Some 4) || change (digit_of _) with (Some 5)
    || change (digit_of _) with (Some 6) || change (digit_of _) with (Some 7)
    || change (digit_of _) with (Some 8) || change (digit_of _) with (Some 9));
    cbv iota; apply IH.
Qed.

Lemma of_uint_acc_value (d : Decimal.uint) :
  forall acc, Z.pos (Pos.of_uint_acc d acc) = uint_value d (Z.pos acc).
Proof.
  induction d; intros acc; cbn [Pos.of_uint_acc uint_value]; [done|..];
    rewrite IHd; f_equal; lia.
Qed.

Lemma of_uint_value (d : Decimal.uint) :
  Z.of_N (Pos.of_uint d) = uint_value d 0.
Proof.
  induction d; cbn [Pos.of_uint uint_value]; [done|exact IHd|..];
    cbn [Z.of_N]; apply of_uint_acc_value.
Qed.

Lemma uint_value_to_uint (p : positive) :
  uint_value (Pos.to_uint p) 0 = Z.pos p.
Proof. by rewrite <- of_uint_value, Unsigned.of_to. Qed.

Lemma read_digits_fresh (d : Decimal.uint) (rest : string) :
  d <> Decimal.Nil ->
  read_digits (NilEmpty.string_of_uint d ++ String ")" rest) None
  = Some (uint_value d 0).
Proof.
  intros Hd. destruct d; [done|..];
    cbn [NilEmpty.string_of_uint]; rewrite append_cons;
    cbn [read_digits uint_value];
    (change (digit_of _) with (Some 0) || change (digit_of _) with (Some 1)
    || change (digit_of _) with (Some 2) || change (digit_of _) with (Some 3)
    || change (digit_of _) with (Some 4) || change (digit_of _) with (Some 5)
    || change (digit_of _) with (Some 6) || change (digit_of _) with (Some 7)
    || change (digit_of _) with (Some 8) || change (digit_of _) with (Some 9));
    cbv iota; apply read_digits_uint.
Qed.

(** The digits of a number start with a digit: [stoi] has no white space
    and no sign to skip. *)
Lemma stoi_unsigned (d : Decimal.uint) (rest : string) :
  d <> Decimal.Nil ->
  stoi (NilEmpty.string_of_uint d ++ String ")" rest)
  = match read_digits (NilEmpty.string_of_uint d ++ String ")" rest) None with
    | None => Throw (invalid_argument "stoi")
    | Some v =>
        if (INT_MIN <=? v) && (v <=? INT_MAX) then Ok v
        else Throw (out_of_range "stoi")
    end.
Proof.
  intros Hd. destruct d; [done|..];
    cbn [NilEmpty.string_of_uint]; rewrite append_cons; reflexivity.
Qed.

Lemma in_int_range (v : Z) :
  INT_MIN <= v <= INT_MAX ->
  (if (INT_MIN <=? v) && (v <=? INT_MAX)
   then Ok v else Throw (out_of_range "stoi")) = Ok v.
Proof.
  intros [H1 H2]. apply Z.leb_le in H1, H2. by rewrite H1, H2.
Qed.

Lemma stoi_to_string (n : Z) (rest : string) :
  INT_MIN <= n <= INT_MAX ->
  stoi (to_string n ++ String ")" rest) = Ok n.
Proof.
  intros Hn. unfold to_string.
  destruct n as [|p|p]; [done| |]; cbn [Z.to_int NilZero.string_of_int].
  - rewrite uint_nonnil_string by apply Unsigned.to_uint_nonnil.
    rewrite stoi_unsigned by apply Unsigned.to_uint_nonnil.
    rewrite read_digits_fresh by apply Unsigned.to_uint_nonnil.
    rewrite uint_value_to_uint. by apply in_int_range.
  - rewrite uint_nonnil_string by apply Unsigned.to_uint_nonnil.
    rewrite append_cons. unfold stoi. cbn [skip_spaces].
    change (isspace "-") with false. cbv iota.
    rewrite read_digits_fresh by apply Unsigned.to_uint_nonnil.
    rewrite uint_value_to_uint.
    change (- Z.pos p) with (Z.neg p). by apply in_int_range.
Qed.

Lemma id_condition_value (n : Z) (schema : TableSchema) (row : Row) :
  INT_MIN <= n <= INT_MAX ->
  condition_value row schema (expression_to_string (id_equals n))
  = has_id schema n row.
Proof.
  intros Hn.
  change (expression_to_string (id_equals n))
    with (String "(" (String "i" (String "d" (String " " (String "="
            (String " " (to_string n ++ ")"))))))).
  set (tail := to_string n ++ ")").
  assert (Hid : String.index 0 "id = "
                  (String "(" (String "i" (String "d" (String " "
                     (String "=" (String " " tail))))))
                = Some 1%nat) by (by destruct tail).
  assert (Heq : String.index 0 "= "
                  (String "(" (String "i" (String "d" (String " "
                     (String "=" (String " " tail))))))
                = Some 4%nat) by (by destruct tail).
  assert (Hsub : substr (String "(" (String "i" (String "d" (String " "
                           (String "=" (String " " tail)))))) 6
                 = Ok tail).
  { unfold substr. cbn [String.length Nat.ltb Nat.leb Nat.sub String.substring].
    by rewrite Nat.sub_0_r, substring_all. }
  unfold condition_value, evaluate_condition, contains, find_plus_2, find.
  rewrite !(index_lacks "a").
  2,3: cbn [lacks]; apply lacks_append; [apply lacks_a_to_string | done].
  rewrite Hid, Heq. change (4 + 2)%nat with 6%nat. rewrite Hsub.
  cbn [rbind]. unfold tail. rewrite (stoi_to_string n "" Hn).
  unfold has_id, get_column_index.
  destruct (index_of "id" (column_names schema) 0) as [i|]; [|done].
  cbn [rbind]. destruct (Row_get_int row i) as [v|e]; done.
Qed.

(** X24.  A WHERE clause [id = n] built by the plan builder filters by
    equality on the [id] column, for every [int] [n]: the Filter node it
    builds keeps exactly the rows that hold the [int] [n] in that column,
    in their order, and keeps the child's schema.  The text is
    ["(id = n)"]; the executor reads the target after the first ["= "] and
    [stoi] stops at the closing bracket.  Rows without an [int] there, and
    all rows when the schema has no [id] column, are dropped. *)
Theorem where_id_equals_keeps_the_rows_with_that_id
    (tm : TableManager) (n : Z) (c : PlanNode) (rs : ResultSet) :
  INT_MIN <= n <= INT_MAX ->
  execute tm c = Ok rs ->
  execute tm (build_filter_node c (id_equals n))
  = Ok (mkResultSet (rs_schema rs)
          (List.filter (has_id (rs_schema rs) n) (rs_rows rs))).
Proof.
  intros Hn Hc. unfold build_filter_node.
  rewrite (execute_filter tm _ _ c [] rs Hc).
  apply f_equal, f_equal. apply filter_ext. intros row.
  by apply id_condition_value.
Qed.

Lemma where_id_equals_keeps_the_rows_with_that_id_witness :
  INT_MIN <= 4 <= INT_MAX
  /\ execute mixed_tm people_scan = Ok (mkResultSet people_schema people_rows)
  /\ execute mixed_tm (build_filter_node people_scan (id_equals 4))
     = Ok (mkResultSet people_schema
             (List.filter (has_id people_schema 4) people_rows)).
Proof.
  assert (Hn : INT_MIN <= 4 <= INT_MAX) by (unfold INT_MIN, INT_MAX; lia).
  assert (Hc : execute mixed_tm people_scan
               = Ok (mkResultSet people_schema people_rows)) by reflexivity.
  split; [exact Hn|]. split; [exact Hc|].
  exact (where_id_equals_keeps_the_rows_with_that_id mixed_tm 4 people_scan
           (mkResultSet people_schema people_rows) Hn Hc).
Defined.

(** * Conditions the executor reads differently from their text *)

Lemma append_assoc (s t u : string) : (s ++ t) ++ u = s ++ (t ++ u).
Proof.
  induction s as [|a s IH]; [done|]. rewrite !append_cons. by rewrite IH.
Qed.

Lemma prefix_append (pat post : string) :
  String.prefix pat (pat ++ post) = true.
Proof.
  induction pat as [|a pat IH]; [by destruct post|].
  rewrite append_cons. cbn [String.prefix].
  destruct (ascii_dec a a); [exact IH | done].
Qed.

Lemma contains_infix (pre pat post : string) :
  contains (pre ++ pat ++ post) pat = true.
Proof.
  unfold contains, find. induction pre as [|a pre IH].
  - rewrite append_nil. pose proof (prefix_append pat post) as Hp.
    destruct (pat ++ post) as [|b rest] eqn:E.
    + by destruct pat.
    + cbn [String.index]. by rewrite Hp.
  - rewrite append_cons. cbn [String.index].
    destruct (String.prefix pat (String a (pre ++ pat ++ post))); [done|].
    by destruct (String.index 0 pat (pre ++ pat ++ post)).
Qed.

Lemma age_above_25_text (t suffix : string) :
  exists pre,
    expression_to_string (age_above_25 t suffix)
    = pre ++ "age > 25" ++ (suffix ++ ")").
Proof.
  unfold age_above_25. cbn [expression_to_string op_string].
  destruct (String.eqb t "").
  - by exists "(".
  - exists ("(" ++ t ++ "."). rewrite !append_assoc. reflexivity.
Qed.

(** X25.  A WHERE clause that compares the age column with a literal
    whose text starts with [25] is executed as [age > 25], whatever
    follows the [25] and whatever table qualifies the column: the text
    the plan builder produces holds ["age > 25"], which is all the
    executor looks for.  So [age > 250] and [age > 25.5] keep exactly the
    rows whose [age] column holds an [int] above 25. *)
Theorem age_comparison_reads_25
    (tm : TableManager) (t suffix : string) (c : PlanNode) (rs : ResultSet) :
  execute tm c = Ok rs ->
  execute tm (build_filter_node c (age_above_25 t suffix))
  = Ok (mkResultSet (rs_schema rs)
          (List.filter (older_than (rs_schema rs) 25) (rs_rows rs))).
Proof.
  intros Hc. unfold build_filter_node.
  rewrite (execute_filter tm _ _ c [] rs Hc).
  apply f_equal, f_equal. apply filter_ext. intros row.
  destruct (age_above_25_text t suffix) as [pre ->].
  unfold condition_value, evaluate_condition.
  rewrite contains_infix.
  unfold older_than, get_column_index.
  destruct (index_of "age" (column_names (rs_schema rs)) 0) as [i|]; [|done].
  cbn [rbind try_catch]. by destruct (Row_get_int row i).
Qed.

Lemma age_comparison_reads_25_witness :
  execute mixed_tm people_scan = Ok (mkResultSet people_schema people_rows)
  /\ execute mixed_tm (build_filter_node people_scan (age_above_25 "p" "0"))
     = Ok (mkResultSet people_schema
             (List.filter (older_than people_schema 25) people_rows)).
Proof.
  assert (Hc : execute mixed_tm people_scan
               = Ok (mkResultSet people_schema people_rows)) by reflexivity.
  split; [exact Hc|].
  exact (age_comparison_reads_25 mixed_tm "p" "0" people_scan
           (mkResultSet people_schema people_rows) Hc).
Defined.

Lemma index_first (c : ascii) (pat pre rest : string) :
  lacks c pre = true ->
  String.index 0 (String c pat) (pre ++ String c pat ++ rest)
  = Some (String.length pre).
Proof.
  intros H. induction pre as [|a pre IH].
  - rewrite append_nil. pose proof (prefix_append (String c pat) rest) as Hp.
    rewrite append_cons in *. cbn [String.index]. by rewrite Hp.
  - cbn [lacks] in H. apply andb_prop in H as [Ha Hpre].
    rewrite append_cons. cbn [String.index String.prefix String.length].
    destruct (ascii_dec c a) as [->|_].
    + rewrite Ascii.eqb_refl in Ha. discriminate.
    + by rewrite (IH Hpre).
Qed.

Lemma length_append (s t : string) :
  String.length (s ++ t) = (String.length s + String.length t)%nat.
Proof.
  induction s as [|a s IH]; [done|]. rewrite append_cons. cbn. by rewrite IH.
Qed.

Lemma substring_skip (s t : string) (n : nat) :
  String.substring (String.length s) n (s ++ t) = String.substring 0 n t.
Proof.
  induction s as [|a s IH]; [done|]. rewrite append_cons. exact IH.
Qed.

Lemma substr_after (pre rest : string) :
  substr (pre ++ "= " ++ rest) (String.length pre + 2) = Ok rest.
Proof.
  unfold substr.
  replace (pre ++ "= " ++ rest) with ((pre ++ "= ") ++ rest)
    by apply append_assoc.
  replace (String.length pre + 2)%nat with (String.length (pre ++ "= "))
    by (rewrite length_append; reflexivity).
  rewrite (length_append (pre ++ "= ") rest).
  destruct (Nat.ltb_spec (String.length (pre ++ "= ") + String.length rest)
              (String.length (pre ++ "= "))) as [H|_]; [lia|].
  rewrite substring_skip.
  replace (String.length (pre ++ "= ") + String.length rest
           - String.length (pre ++ "= "))%nat
    with (String.length rest) by lia.
  by rewrite substring_all.
Qed.

(** X26.  The id filter compares the [id] column with the number that
    follows the first ["= "] of the condition text, wherever ["id = "]
    stands: for a text [pre ++ "= " ++ rest] with no [=] in [pre], holding
    ["id = "] and neither age pattern, the Filter keeps the rows whose
    [id] is [stoi rest], and no row at all when [stoi] rejects [rest].  So
    [((age = 4) AND (id = 1))] returns the row with id 4. *)
Theorem id_filter_reads_after_first_equals
    (tm : TableManager) (pre rest : string) (i : NodeInfo)
    (c : PlanNode) (more : list PlanNode) (rs : ResultSet) :
  let condition := pre ++ "= " ++ rest in
  lacks "=" pre = true ->
  contains condition "age > 25" = false ->
  contains condition "age < 30" = false ->
  contains condition "id = " = true ->
  execute tm c = Ok rs ->
  execute tm (FilterNode condition i (c :: more))
  = Ok (mkResultSet (rs_schema rs)
          match stoi rest with
          | Ok n => List.filter (has_id (rs_schema rs) n) (rs_rows rs)
          | Throw _ => []
          end).
Proof.
  cbv zeta. intros Hpre H25 H30 Hid Hc.
  rewrite (execute_filter tm _ i c more rs Hc).
  apply f_equal, f_equal.
  assert (Hrow : forall row,
            condition_value row (rs_schema rs) (pre ++ "= " ++ rest)
            = match stoi rest with
              | Ok n => has_id (rs_schema rs) n row
              | Throw _ => false
              end).
  { intros row. unfold condition_value, evaluate_condition.
    rewrite H25, H30, Hid. unfold find_plus_2, find.
    rewrite (index_first "=" " " pre rest Hpre), substr_after.
    cbn [rbind]. unfold has_id, get_column_index.
    destruct (index_of "id" (column_names (rs_schema rs)) 0) as [k|];
      [|by destruct (stoi rest)].
    cbn [rbind]. destruct (Row_get_int row k) as [v|e];
      [|by destruct (stoi rest)].
    cbn [rbind]. by destruct (stoi rest). }
  destruct (stoi rest) as [n|e].
  - by apply filter_ext.
  - induction (rs_rows rs) as [|row rows IH]; [done|].
    cbn [List.filter]. by rewrite Hrow.
Qed.

Lemma id_filter_reads_after_first_equals_witness :
  let condition := "((age " ++ "= " ++ "4) AND (id = 1))" in
  lacks "=" "((age " = true
  /\ contains condition "age > 25" = false
  /\ contains condition "age < 30" = false
  /\ contains condition "id = " = true
  /\ execute mixed_tm people_scan = Ok (mkResultSet people_schema people_rows)
  /\ execute mixed_tm (FilterNode condition NodeInfo_default [people_scan])
     = Ok (mkResultSet people_schema [mkRow [VInt 4; VInt 20]]).
Proof.
  cbv zeta.
  assert (H1 : lacks "=" "((age " = true) by reflexivity.
  assert (H2 : contains ("((age " ++ "= " ++ "4) AND (id = 1))") "age > 25"
               = false) by reflexivity.
  assert (H3 : contains ("((age " ++ "= " ++ "4) AND (id = 1))") "age < 30"
               = false) by reflexivity.
  assert (H4 : contains ("((age " ++ "= " ++ "4) AND (id = 1))") "id = "
               = true) by reflexivity.
  assert (H5 : execute mixed_tm people_scan
               = Ok (mkResultSet people_schema people_rows)) by reflexivity.
  repeat (split; [assumption|]).
  exact (id_filter_reads_after_first_equals mixed_tm "((age "
           "4) AND (id = 1))" NodeInfo_default people_scan [] _
           H1 H2 H3 H4 H5).
Defined.

(** * The tokenizer *)

Lemma skip_while_length (f : ascii -> bool) (s : string) :
  forall current,
    (String.length (Tokenizer.unread (Tokenizer.skip_while f s current))
     <= String.length s)%nat.
Proof.
  induction s as [|c s IH]; intros current; cbn [Tokenizer.skip_while].
  - done.
  - destruct (f c); cbn [Tokenizer.unread String.length].
    + specialize (IH (S current)). lia.
    + lia.
Qed.

Lemma read_while_length (f : ascii -> bool) (s : string) :
  forall current value,
    (String.length
       (Tokenizer.unread (Tokenizer.read_while f s current value).2)
     <= String.length s)%nat.
Proof.
  induction s as [|c s IH]; intros current value; cbn [Tokenizer.read_while].
  - done.
  - destruct (f c); cbn [snd Tokenizer.unread String.length].
    + specialize (IH (S current) (value ++ String c "")). lia.
    + lia.
Qed.

Lemma read_while_progress (f : ascii -> bool) (c : ascii) (s : string)
    (current : nat) (value : string) :
  f c = true ->
  (String.length
     (Tokenizer.unread (Tokenizer.read_while f (String c s) current value).2)
   < String.length (String c s))%nat.
Proof.
  intros Hc. cbn [Tokenizer.read_while]. rewrite Hc.
  pose proof (read_while_length f s (S current) (value ++ String c "")).
  cbn [String.length]. lia.
Qed.

Lemma keywords_not_end_of_file (word : string) (type : TokenType.t) :
  Tokenizer.keywords !! word = Some type -> type <> TokenType.END_OF_FILE.
Proof.
  unfold Tokenizer.keywords. intros H.
  repeat (apply lookup_insert_Some in H as [[_ <-]|[_ H]]; [done|]).
  by rewrite lookup_empty in H.
Qed.

(** A call of [nextToken] with text left either finds only white space
    and returns the END_OF_FILE token, or returns another token and has
    read at least one character. *)
Lemma nextToken_progress (tk : Tokenizer.t) :
  Tokenizer.isAtEnd tk = false ->
  (token_type (Tokenizer.nextToken tk).1 = TokenType.END_OF_FILE
   /\ Tokenizer.isAtEnd (Tokenizer.skipWhitespace tk) = true)
  \/ (token_type (Tokenizer.nextToken tk).1 <> TokenType.END_OF_FILE
      /\ (String.length (Tokenizer.unread (Tokenizer.nextToken tk).2)
          < String.length (Tokenizer.unread tk))%nat).
Proof.
  intros _. unfold Tokenizer.nextToken.
  pose proof (skip_while_length isspace (Tokenizer.unread tk)
                (Tokenizer.current tk)) as Hskip.
  fold (Tokenizer.skipWhitespace tk) in Hskip.
  destruct (Tokenizer.skipWhitespace tk) as [s cur].
  cbn [Tokenizer.unread] in Hskip.
  destruct s as [|c s]; [left; done|]. right.
  unfold Tokenizer.isAtEnd, Tokenizer.peek. cbn [Tokenizer.unread].
  cbn [String.length] in Hskip.
  destruct (Ascii.eqb c Tokenizer.apostrophe).
  { unfold Tokenizer.parseString, Tokenizer.advance.
    cbn [Tokenizer.unread Tokenizer.current snd].
    pose proof (read_while_length
                  (fun c => negb (Ascii.eqb c Tokenizer.apostrophe))
                  s (S cur) "") as Hr.
    destruct (Tokenizer.read_while _ s (S cur) "") as [value [s' cur']].
    cbn [snd Tokenizer.unread] in Hr.
    split; [destruct s'; cbn [fst token_type]; discriminate|].
    unfold Tokenizer.isAtEnd. cbn [Tokenizer.unread].
    destruct s' as [|c' s']; cbn [fst snd Tokenizer.unread String.length] in *;
      lia. }
  destruct (isdigit c) eqn:Hd.
  { unfold Tokenizer.parseNumber. cbn [Tokenizer.unread Tokenizer.current].
    assert (Hf : isdigit c || Ascii.eqb c "." = true) by (by rewrite Hd).
    pose proof (read_while_progress
                  (fun c => isdigit c || Ascii.eqb c ".") c s cur "" Hf) as Hr.
    destruct (Tokenizer.read_while _ (String c s) cur "") as [value tk'].
    cbn [fst snd token_type] in *. split; [discriminate|].
    cbn [String.length] in Hr. lia. }
  destruct (isalpha c || Ascii.eqb c "_") eqn:Ha.
  { unfold Tokenizer.parseIdentifier. cbn [Tokenizer.unread Tokenizer.current].
    assert (Hf : isalnum c || Ascii.eqb c "_" = true).
    { unfold isalnum. rewrite Hd.
      destruct (isalpha c); [done | exact Ha]. }
    pose proof (read_while_progress
                  (fun c => isalnum c || Ascii.eqb c "_") c s cur "" Hf) as Hr.
    destruct (Tokenizer.read_while _ (String c s) cur "") as [value tk'].
    cbn [fst snd token_type] in *. split; [|cbn [String.length] in Hr; lia].
    destruct (Tokenizer.keywords !! transform toupper value) as [ty|] eqn:Hk;
      [by apply (keywords_not_end_of_file _ _ Hk) | discriminate]. }
  unfold Tokenizer.parseOperator, Tokenizer.advance, Tokenizer.isAtEnd,
         Tokenizer.peek.
  cbn [Tokenizer.unread Tokenizer.current].
  repeat match goal with
         | |- context [if ?b then _ else _] =>
             destruct b eqn:?; cbn [fst snd token_type Tokenizer.unread]
         end;
    try (split; [discriminate | cbn [String.length]; lia]).
  all: destruct s as [|c' s];
    cbn [fst snd token_type Tokenizer.unread String.length] in *;
    split; try discriminate; try lia.
Qed.

Lemma isAtEnd_length (tk : Tokenizer.t) :
  Tokenizer.isAtEnd tk = true <-> String.length (Tokenizer.unread tk) = 0%nat.
Proof. unfold Tokenizer.isAtEnd. by destruct (Tokenizer.unread tk). Qed.

(** More rounds than characters change nothing. *)
Lemma tokenize_loop_rounds (n : nat) :
  forall rounds tk,
    (String.length (Tokenizer.unread tk) <= n)%nat -> (n <= rounds)%nat ->
    Tokenizer.tokenize_loop rounds tk = Tokenizer.tokenize_loop n tk.
Proof.
  induction n as [|n IH]; intros rounds tk Hlen Hn.
  - assert (Hend : Tokenizer.isAtEnd tk = true)
      by (apply isAtEnd_length; lia).
    destruct rounds; cbn [Tokenizer.tokenize_loop]; by rewrite ?Hend.
  - destruct rounds as [|rounds]; [lia|]. cbn [Tokenizer.tokenize_loop].
    destruct (Tokenizer.isAtEnd tk) eqn:Hend; [done|].
    destruct (nextToken_progress tk Hend) as [[Heof _]|[Hne Hlt]];
      destruct (Tokenizer.nextToken tk) as [token tk']; cbn [fst snd] in *.
    + by rewrite Heof.
    + destruct (TokenType.eqb _ _); [done|].
      f_equal. apply IH; lia.
Qed.

Lemma tokenize_loop_length (rounds : nat) :
  forall tk,
    (length (Tokenizer.tokenize_loop rounds tk)
     <= String.length (Tokenizer.unread tk))%nat.
Proof.
  induction rounds as [|rounds IH]; intros tk; cbn [Tokenizer.tokenize_loop];
    [cbn; lia|].
  destruct (Tokenizer.isAtEnd tk) eqn:Hend; [cbn; lia|].
  assert (Hpos : (0 < String.length (Tokenizer.unread tk))%nat).
  { destruct (String.length (Tokenizer.unread tk)) eqn:E; [|lia].
    apply isAtEnd_length in E. congruence. }
  destruct (nextToken_progress tk Hend) as [[Heof _]|[Hne Hlt]];
    destruct (Tokenizer.nextToken tk) as [token tk']; cbn [fst snd] in *.
  - rewrite Heof. cbn. lia.
  - destruct (TokenType.eqb _ _); cbn [length]; [lia|].
    specialize (IH tk'). lia.
Qed.

Lemma tokenize_loop_end_of_file_last (rounds : nat) :
  forall tk pre token post,
    Tokenizer.tokenize_loop rounds tk = (pre ++ token :: post)%list ->
    token_type token = TokenType.END_OF_FILE ->
    post = [].
Proof.
  induction rounds as [|rounds IH]; intros tk pre token post Heq Htype;
    cbn [Tokenizer.tokenize_loop] in Heq.
  - by destruct pre.
  - destruct (Tokenizer.isAtEnd tk); [by destruct pre|].
    destruct (Tokenizer.nextToken tk) as [token0 tk'].
    destruct (TokenType.eqb (token_type token0) TokenType.END_OF_FILE) eqn:E.
    + destruct pre as [|a [|b pre]]; try discriminate.
      by injection Heq as _ <-.
    + destruct pre as [|a pre].
      * injection Heq as -> _. rewrite Htype in E. discriminate.
      * injection Heq as _ Heq. by apply (IH tk' pre token post).
Qed.

Lemma tokenize_nil (sql : string) :
  Tokenizer.tokenize (Tokenizer.new sql) = [] <-> sql = "".
Proof.
  unfold Tokenizer.tokenize, Tokenizer.new. cbn [Tokenizer.unread].
  destruct sql as [|c sql]; [done|]. split; [|done].
  cbn [String.length Tokenizer.tokenize_loop].
  unfold Tokenizer.isAtEnd. cbn [Tokenizer.unread].
  destruct (Tokenizer.nextToken _) as [token tk'].
  by destruct (TokenType.eqb _ _).
Qed.

(** X28.  [tokenize] never fails and never stops early: it returns no
    token exactly for the empty text, at most one token per character
    otherwise, an END_OF_FILE token only as the last one, and running
    its loop for more rounds than the text has characters changes
    nothing. *)
Theorem tokenize_reads_the_whole_text (sql : string) :
  let tokens := Tokenizer.tokenize (Tokenizer.new sql) in
  (tokens = [] <-> sql = "")
  /\ (length tokens <= String.length sql)%nat
  /\ (forall pre token post,
         tokens = (pre ++ token :: post)%list ->
         token_type token = TokenType.END_OF_FILE -> post = [])
  /\ (forall rounds,
         (String.length sql <= rounds)%nat ->
         Tokenizer.tokenize_loop rounds (Tokenizer.new sql) = tokens).
Proof.
  cbv zeta. split; [apply tokenize_nil|].
  split; [apply (tokenize_loop_length _ (Tokenizer.new sql))|].
  split.
  - intros pre token post. apply tokenize_loop_end_of_file_last.
  - intros rounds Hrounds. unfold Tokenizer.tokenize.
    by apply tokenize_loop_rounds.
Qed.

Lemma tokenize_reads_the_whole_text_witness :
  (String.length "SELECT name FROM users" <= 30)%nat
  /\ Tokenizer.tokenize_loop 30 (Tokenizer.new "SELECT name FROM users")
     = Tokenizer.tokenize (Tokenizer.new "SELECT name FROM users").
Proof.
  assert (H : (String.length "SELECT name FROM users" <= 30)%nat)
    by (cbn; lia).
  split; [exact H|].
  exact (proj2 (proj2 (proj2 (tokenize_reads_the_whole_text
                                "SELECT name FROM users"))) 30%nat H).
Defined.

(** * The parser *)

Lemma parser_primitives_diverge (p : Parser.t) :
  (Parser.current p < length (Parser.tokens p))%nat ->
  forall depth, Parser.isAtEnd depth p = None /\ Parser.peek depth p = None.
Proof.
  intros Hlt. induction depth as [|depth [IH1 IH2]]; [done|].
  cbn [Parser.isAtEnd Parser.peek].
  destruct (Nat.leb_spec (length (Parser.tokens p)) (Parser.current p));
    [lia|].
  by rewrite IH1, IH2.
Qed.

Lemma parseSelectStatement_diverges (token_list : list Token) (depth : nat) :
  token_list <> [] ->
  Parser.parseSelectStatement depth (Parser.new token_list) = None.
Proof.
  intros Hne. unfold Parser.parseSelectStatement, Parser.consume, Parser.check.
  destruct (parser_primitives_diverge (Parser.new token_list)) with depth
    as [-> _]; [|done].
  destruct token_list; [done|]. cbn. lia.
Qed.

(** X27.  The parser returns no statement for any token list.  While
    tokens are left, [isAtEnd] calls [peek] and [peek] calls [isAtEnd]
    again, both in the same state, so neither returns, and neither do
    [check], [consume], [advance] and [match], which start with one of
    them; [parseSelectStatement] starts with [consume].  On the empty
    token list it throws the parse error for the missing SELECT.  In
    particular parsing the tokens of any non-empty text does not end. *)
Theorem parser_returns_no_statement :
  (forall p depth,
      (Parser.current p < length (Parser.tokens p))%nat ->
      Parser.isAtEnd depth p = None
      /\ Parser.peek depth p = None
      /\ Parser.advance depth p = None
      /\ (forall type, Parser.check depth p type = None)
      /\ (forall type message, Parser.consume depth p type message = None)
      /\ (forall type types, Parser.match_ depth p (type :: types) = None))
  /\ (forall token_list depth,
         token_list <> [] ->
         Parser.parseSelectStatement depth (Parser.new token_list) = None)
  /\ (forall sql depth,
         sql <> "" ->
         Parser.parseSelectStatement depth
           (Parser.new (Tokenizer.tokenize (Tokenizer.new sql))) = None)
  /\ (forall depth,
         Parser.parseSelectStatement (S (S depth)) (Parser.new [])
         = Some (Parser.Throws
                   (runtime_error
                      "Parse error: Expected SELECT keyword at token: "))).
Proof.
  split; [|split; [|split]].
  - intros p depth Hlt.
    destruct (parser_primitives_diverge p Hlt depth) as [H1 H2].
    unfold Parser.advance, Parser.consume, Parser.check.
    cbn [Parser.match_]. unfold Parser.check. rewrite H1. by repeat split.
  - intros token_list depth. apply parseSelectStatement_diverges.
  - intros sql depth Hsql. apply parseSelectStatement_diverges.
    intros H. by apply tokenize_nil in H.
  - intros depth. reflexivity.
Qed.

Lemma parser_returns_no_statement_witness :
  "SELECT name FROM users" <> ""
  /\ Parser.parseSelectStatement 1000
       (Parser.new (Tokenizer.tokenize (Tokenizer.new "SELECT name FROM users")))
     = None.
Proof.
  assert (H : "SELECT name FROM users" <> "") by discriminate.
  split; [exact H|].
  exact (proj1 (proj2 (proj2 parser_returns_no_statement))
           "SELECT name FROM users" 1000%nat H).
Defined.

(** * Joins without keys *)

Lemma merge_loop_unkeyed_left (left_rows right_rows : list Row) :
  unkeyed 0 left_rows -> merge_loop left_rows right_rows = [].
Proof.
  intros H. induction H as [|l ls Hl _ IH]; [done|].
  destruct right_rows as [|r rs]; [done|].
  rewrite merge_loop_step.
  destruct (Row_get_int l 0) as [z|e] eqn:E; [by destruct (Hl z)|].
  exact IH.
Qed.

Lemma merge_loop_unkeyed_right (left_rows right_rows : list Row) :
  unkeyed 1 right_rows -> merge_loop left_rows right_rows = [].
Proof.
  intros H. induction left_rows as [|l ls IH]; [done|].
  destruct H as [|r rs Hr Hrs]; [done|].
  rewrite merge_loop_step.
  destruct (Row_get_int l 0) as [z|e]; cbn [rbind]; [|exact IH].
  destruct (Row_get_int r 1) as [z'|e] eqn:E; [by destruct (Hr z')|].
  exact IH.
Qed.

Lemma std_sort_unkeyed (k j : nat) (rows : list Row) :
  unkeyed k rows -> unkeyed k (std_sort (key_less j) rows).
Proof.
  unfold unkeyed. intros H.
  eapply Permutation_Forall; [|exact H].
  apply std_sort_Permutation.
Qed.

Lemma matching_left_rows_unkeyed (left_rows : list Row) (right_row : Row) :
  unkeyed 0 left_rows \/ (forall z, Row_get_int right_row 1 <> Ok z) ->
  matching_left_rows left_rows right_row = [].
Proof.
  unfold matching_left_rows. intros [H|H].
  - destruct (Row_get_int right_row 1) as [key|e]; [|done].
    induction H as [|l ls Hl _ IH]; [done|]. cbn [List.filter].
    destruct (Row_get_int l 0) as [z|e] eqn:E; [by destruct (Hl z)|].
    exact IH.
  - destruct (Row_get_int right_row 1) as [key|e] eqn:E; [|done].
    by destruct (H key).
Qed.

Lemma hash_join_unkeyed (left_rows right_rows : list Row) :
  unkeyed 0 left_rows \/ unkeyed 1 right_rows ->
  flat_map
    (fun right_row =>
       map (fun left_row => join_rows left_row right_row)
           (matching_left_rows left_rows right_row))
    right_rows
  = [].
Proof.
  intros [H|H].
  - induction right_rows as [|b right_rows IH]; [done|]. cbn [flat_map].
    rewrite matching_left_rows_unkeyed by (by left). exact IH.
  - induction H as [|b right_rows Hb _ IH]; [done|]. cbn [flat_map].
    rewrite matching_left_rows_unkeyed by (by right). exact IH.
Qed.

(** X29.  The hash join and the sort-merge join return no row at all
    when no left row has an [int] at index 0 or no right row has an [int]
    at index 1, whatever the join condition says: both read their keys
    at these fixed places and skip what they cannot read.  So the
    candidates of [generate_all_plans] with the two tables swapped are not
    equivalent to the others: over (orders, users) of the sample data,
    where column 1 of users is the name, both joins are empty. *)
Theorem keyless_joins_return_nothing
    (tm : TableManager) (l r : PlanNode)
    (lschema rschema : TableSchema) (lrows rrows : list Row)
    (jt jt' : JoinType) (c c' : string) (i i' : NodeInfo)
    (rest rest' : list PlanNode) :
  execute tm l = Ok (mkResultSet lschema lrows) ->
  execute tm r = Ok (mkResultSet rschema rrows) ->
  unkeyed 0 lrows \/ unkeyed 1 rrows ->
  execute tm (HashJoinNode jt c i (l :: r :: rest))
  = Ok (mkResultSet (join_schema lschema rschema) [])
  /\ execute tm (SortMergeJoinNode jt' c' i' (l :: r :: rest'))
     = Ok (mkResultSet (join_schema lschema rschema) []).
Proof.
  intros Hl Hr Hkeys. split.
  - rewrite (execute_hash_join tm jt c i l r rest _ _ Hl Hr).
    apply f_equal.
    transitivity (mkResultSet (join_schema lschema rschema)
                    (rs_rows (hash_join_result (mkResultSet lschema lrows)
                                               (mkResultSet rschema rrows))));
      [reflexivity|].
    apply f_equal. rewrite hash_join_rows. cbn [rs_rows].
    by apply hash_join_unkeyed.
  - rewrite (execute_sort_merge_join tm jt' c' i' l r rest' _ _ Hl Hr).
    cbn [rs_schema rs_rows]. apply f_equal, f_equal.
    destruct Hkeys as [H|H].
    + by apply merge_loop_unkeyed_left, std_sort_unkeyed.
    + by apply merge_loop_unkeyed_right, std_sort_unkeyed.
Qed.

Lemma sample_users_unkeyed : unkeyed 1 sample_users.
Proof.
  apply List.Forall_map, List.Forall_forall. intros i _ z. discriminate.
Qed.

Lemma keyless_joins_return_nothing_witness :
  execute sample_tm orders_scan = Ok (mkResultSet orders_schema sample_orders)
  /\ execute sample_tm users_scan = Ok (mkResultSet users_schema sample_users)
  /\ (unkeyed 0 sample_orders \/ unkeyed 1 sample_users)
  /\ execute sample_tm
       (HashJoinNode INNER users_orders_condition NodeInfo_default
          [orders_scan; users_scan])
     = Ok (mkResultSet (join_schema orders_schema users_schema) [])
  /\ execute sample_tm
       (SortMergeJoinNode INNER users_orders_condition NodeInfo_default
          [orders_scan; users_scan])
     = Ok (mkResultSet (join_schema orders_schema users_schema) []).
Proof.
  split; [exact sample_orders_scan|]. split; [exact sample_users_scan|].
  split; [right; exact sample_users_unkeyed|].
  exact (keyless_joins_return_nothing sample_tm orders_scan users_scan
           orders_schema users_schema sample_orders sample_users
           INNER INNER users_orders_condition users_orders_condition
           NodeInfo_default NodeInfo_default [] []
           sample_orders_scan sample_users_scan
           (or_intror sample_users_unkeyed)).
Defined.

(** * Annotations *)

Lemma cardinality_without_annotations (cm : CostModel) (p : PlanNode) :
  estimate_output_cardinality cm (without_annotations p)
  = estimate_output_cardinality cm p.
Proof.
  induction p as [p IH] using PlanNode_children_ind.
  destruct p as [t a i ch|k i ch|pl i ch|j k i ch|j k i ch|j k i ch];
    cbn [node_children without_annotations estimate_output_cardinality] in *;
    try reflexivity.
  - destruct ch as [|c ch]; [done|]. inversion IH as [|? ? Hc _]; subst.
    cbn [map]. by rewrite Hc.
  - destruct ch as [|c ch]; [done|]. by inversion IH.
  - destruct ch as [|l [|r ch]]; try done.
    inversion IH as [|? ? Hl IH']; subst. inversion IH' as [|? ? Hr _]; subst.
    cbn [map]. by rewrite Hl, Hr.
  - destruct ch as [|l [|r ch]]; try done.
    inversion IH as [|? ? Hl IH']; subst. inversion IH' as [|? ? Hr _]; subst.
    cbn [map]. by rewrite Hl, Hr.
  - destruct ch as [|l [|r ch]]; try done.
    inversion IH as [|? ? Hl IH']; subst. inversion IH' as [|? ? Hr _]; subst.
    cbn [map]. by rewrite Hl, Hr.
Qed.

Lemma cost_without_annotations (cm : CostModel) (p : PlanNode) :
  estimate_plan_cost cm (without_annotations p) = estimate_plan_cost cm p.
Proof.
  induction p as [p IH] using PlanNode_children_ind.
  destruct p as [t a i ch|k i ch|pl i ch|j k i ch|j k i ch|j k i ch];
    cbn [node_children without_annotations estimate_plan_cost] in *;
    try reflexivity.
  - destruct ch as [|c ch]; [done|]. inversion IH as [|? ? Hc _]; subst.
    cbn [map]. by rewrite Hc, cardinality_without_annotations.
  - destruct ch as [|c ch]; [done|]. inversion IH as [|? ? Hc _]; subst.
    cbn [map]. by rewrite Hc, cardinality_without_annotations.
  - destruct ch as [|l [|r ch]]; try done.
    inversion IH as [|? ? Hl IH']; subst. inversion IH' as [|? ? Hr _]; subst.
    cbn [map]. by rewrite Hl, Hr, !cardinality_without_annotations.
  - destruct ch as [|l [|r ch]]; try done.
    inversion IH as [|? ? Hl IH']; subst. inversion IH' as [|? ? Hr _]; subst.
    cbn [map]. by rewrite Hl, Hr, !cardinality_without_annotations.
  - destruct ch as [|l [|r ch]]; try done.
    inversion IH as [|? ? Hl IH']; subst. inversion IH' as [|? ? Hr _]; subst.
    cbn [map]. by rewrite Hl, Hr, !cardinality_without_annotations.
Qed.

Lemma execute_without_annotations (tm : TableManager) (p : PlanNode) :
  execute tm (without_annotations p) = execute tm p.
Proof.
  induction p as [p IH] using PlanNode_children_ind.
  destruct p as [t a i ch|k i ch|pl i ch|j k i ch|j k i ch|j k i ch];
    cbn [node_children without_annotations execute] in *;
    try reflexivity.
  - destruct ch as [|c ch]; [done|]. inversion IH as [|? ? Hc _]; subst.
    cbn [map]. by rewrite Hc.
  - destruct ch as [|c ch]; [done|]. inversion IH as [|? ? Hc _]; subst.
    cbn [map]. by rewrite Hc.
  - destruct ch as [|l [|r ch]]; try done.
    inversion IH as [|? ? Hl IH']; subst. inversion IH' as [|? ? Hr _]; subst.
    cbn [map]. by rewrite Hl, Hr.
  - destruct ch as [|l [|r ch]]; try done.
    inversion IH as [|? ? Hl IH']; subst. inversion IH' as [|? ? Hr _]; subst.
    cbn [map]. by rewrite Hl, Hr.
  - destruct ch as [|l [|r ch]]; try done.
    inversion IH as [|? ? Hl IH']; subst. inversion IH' as [|? ? Hr _]; subst.
    cbn [map]. by rewrite Hl, Hr.
Qed.

Lemma without_annotations_set_cost (p : PlanNode) (c : CostEstimate) :
  without_annotations (set_cost p c) = without_annotations p.
Proof. by destruct p. Qed.

Lemma without_annotations_scan (pb pb' : PlanBuilder) (t : TableReference) :
  without_annotations (build_scan_node pb t)
  = without_annotations (build_scan_node pb' t).
Proof. reflexivity. Qed.

Lemma without_annotations_join (l l' r r' : PlanNode) (j : JoinClause)
    (algorithm : PlanNodeType) :
  without_annotations l = without_annotations l' ->
  without_annotations r = without_annotations r' ->
  without_annotations (build_join_node l r j algorithm)
  = without_annotations (build_join_node l' r' j algorithm).
Proof.
  intros Hl Hr. unfold build_join_node.
  destruct algorithm; cbn [without_annotations map]; by rewrite Hl, Hr.
Qed.

Lemma without_annotations_fold (pb pb' : PlanBuilder) (js : list JoinClause)
    (algorithm : PlanNodeType) :
  forall p p',
    without_annotations p = without_annotations p' ->
    without_annotations (fold_joins pb p js algorithm)
    = without_annotations (fold_joins pb' p' js algorithm).
Proof.
  unfold fold_joins. induction js as [|j js IH]; intros p p' H; [done|].
  cbn [fold_left]. apply IH, without_annotations_join; [done|].
  apply without_annotations_scan.
Qed.

Lemma without_annotations_finish (p p' : PlanNode) (w : option Expression)
    (items : list SelectItem) :
  without_annotations p = without_annotations p' ->
  without_annotations (build_project_node (apply_where p w) items)
  = without_annotations (build_project_node (apply_where p' w) items).
Proof.
  intros H. unfold build_project_node, apply_where, build_filter_node.
  destruct w; cbn [without_annotations map]; by rewrite H.
Qed.

Lemma finish_candidate_same (cm : CostModel) (pb pb' : PlanBuilder)
    (stmt : SelectStatement) (p p' : PlanNode) :
  without_annotations p = without_annotations p' ->
  same_candidate (finish_candidate (mkQueryOptimizer cm pb) stmt p)
                 (finish_candidate (mkQueryOptimizer cm pb') stmt p').
Proof.
  intros H. unfold same_candidate, finish_candidate.
  cbn [plan candidate_cost cost_model].
  pose proof (without_annotations_finish p p' (where_clause stmt)
                (select_list stmt) H) as Hf.
  rewrite !without_annotations_set_cost. split; [exact Hf|].
  rewrite <- (cost_without_annotations cm
                (build_project_node (apply_where p _) _)), Hf.
  apply cost_without_annotations.
Qed.

Lemma generate_all_plans_same (cm : CostModel) (pb pb' : PlanBuilder)
    (stmt : SelectStatement) :
  Forall2 same_candidate
    (generate_all_plans (mkQueryOptimizer cm pb) stmt)
    (generate_all_plans (mkQueryOptimizer cm pb') stmt).
Proof.
  unfold generate_all_plans. cbn [plan_builder].
  assert (Hfirst :
    Forall2 same_candidate
      (map (fun algorithm =>
              finish_candidate (mkQueryOptimizer cm pb) stmt
                (fold_joins pb (build_scan_node pb (from_table stmt))
                   (joins stmt) algorithm)) join_algorithms)
      (map (fun algorithm =>
              finish_candidate (mkQueryOptimizer cm pb') stmt
                (fold_joins pb' (build_scan_node pb' (from_table stmt))
                   (joins stmt) algorithm)) join_algorithms)).
  { apply Forall2_fmap, Forall2_same_length_lookup_2; [done|].
    intros i a a' Ha Ha'. rewrite Ha in Ha'. injection Ha' as <-.
    apply finish_candidate_same, without_annotations_fold,
          without_annotations_scan. }
  destruct (joins stmt) as [|j [|j' js]]; try exact Hfirst.
  apply Forall2_app; [exact Hfirst|].
  apply Forall2_fmap, Forall2_same_length_lookup_2; [done|].
  intros i a a' Ha Ha'. rewrite Ha in Ha'. injection Ha' as <-.
  apply finish_candidate_same, without_annotations_join;
    apply without_annotations_scan.
Qed.

Lemma min_element_from_same (rest rest' : list PlanCandidate) :
  Forall2 same_candidate rest rest' ->
  forall best best',
    same_candidate best best' ->
    same_candidate (min_element_from best rest)
                   (min_element_from best' rest').
Proof.
  induction 1 as [|c c' rest rest' Hc _ IH]; intros best best' Hb; [done|].
  cbn [min_element_from].
  destruct Hc as [Hp Hcost]. destruct Hb as [Hbp Hbcost].
  rewrite Hcost, Hbcost.
  destruct (Rlt_dec _ _); apply IH; by split.
Qed.

(** X30.  The annotations of a plan node are written but never read:
    neither the estimates of the cost model nor the result of [execute]
    change when the [output_schema], [stats] and [cost] of every node are
    reset.  So the statistics of the plan builder, which only feed these
    annotations, do not influence the optimizer: with the same cost model
    and any two plan builders, [optimize] returns the same operators with
    the same cost. *)
Theorem plan_annotations_are_never_read :
  (forall cm p,
      estimate_output_cardinality cm (without_annotations p)
      = estimate_output_cardinality cm p
      /\ estimate_plan_cost cm (without_annotations p)
         = estimate_plan_cost cm p)
  /\ (forall tm p, execute tm (without_annotations p) = execute tm p)
  /\ (forall cm pb pb' stmt,
         option_map without_annotations
           (optimize (mkQueryOptimizer cm pb) stmt)
         = option_map without_annotations
             (optimize (mkQueryOptimizer cm pb') stmt)
         /\ option_map (fun p => cost (node_info p))
              (optimize (mkQueryOptimizer cm pb) stmt)
            = option_map (fun p => cost (node_info p))
                (optimize (mkQueryOptimizer cm pb') stmt)).
Proof.
  split; [|split].
  - intros cm p. split;
      [apply cardinality_without_annotations | apply cost_without_annotations].
  - intros tm p. apply execute_without_annotations.
  - intros cm pb pb' stmt. unfold optimize.
    destruct (joins stmt) as [|j js] eqn:Hj.
    + unfold optimize_single_table, apply_filter_pushdown, build_plan.
      cbn [option_map plan_builder cost_model].
      rewrite !without_annotations_set_cost, !node_info_set_cost.
      assert (H : without_annotations
                    (build_project_node
                       (apply_where
                          (fold_joins pb (build_scan_node pb (from_table stmt))
                             (joins stmt) NESTED_LOOP_JOIN)
                          (where_clause stmt)) (select_list stmt))
                  = without_annotations
                      (build_project_node
                         (apply_where
                            (fold_joins pb'
                               (build_scan_node pb' (from_table stmt))
                               (joins stmt) NESTED_LOOP_JOIN)
                            (where_clause stmt)) (select_list stmt))).
      { apply without_annotations_finish, without_annotations_fold,
              without_annotations_scan. }
      split; [by rewrite H|].
      apply f_equal.
      rewrite <- (cost_without_annotations cm
                    (build_project_node (apply_where (fold_joins pb _ _ _) _) _)),
              H.
      apply cost_without_annotations.
    + unfold optimize_join_query, select_best_plan.
      pose proof (generate_all_plans_same cm pb pb' stmt) as Hall.
      pose proof (generate_all_plans_consistent (mkQueryOptimizer cm pb) stmt)
        as Hc.
      pose proof (generate_all_plans_consistent (mkQueryOptimizer cm pb') stmt)
        as Hc'.
      destruct Hall as [|c c' rest rest' Hcc Hrest]; [done|].
      cbn [option_map].
      destruct (min_element_from_same rest rest' Hrest c c' Hcc) as [Hp Hcost].
      split; [by rewrite Hp|].
      rewrite List.Forall_forall in Hc, Hc'.
      destruct (Hc _ (min_element_from_In c rest)) as (_ & -> & _).
      destruct (Hc' _ (min_element_from_In c' rest')) as (_ & -> & _).
      by rewrite Hcost.
Qed.
